(** * PaoHuZi rule engine: a shallow embedding and its verified properties

    The Python sources under [src/] are embedded as Rocq functions:
    - [config/game_config.py]      -> [Config]
    - [core/card.py]               -> [Card], [new_card]
    - [rules/pattern_matcher.py]   -> [PatternMatcher]
    - [rules/huxi_calculator.py]   -> [HuxiCalculator]
    - [rules/score_calculator.py]  -> [ScoreCalculator]
    - [rules/win_checker.py]       -> [WinChecker]
    - [core/hand.py]               -> [Hand]
    - [core/player.py]             -> [Player]
    - [core/deck.py]               -> [Deck]
    - [ai/ai_player.py]            -> [AIPlayer]
    - [core/game.py]               -> [Game]
    - a store-passing model of [WinChecker.can_win] -> [Store]

    Python integers are [Z] (lengths and counts are [nat]); Python lists are
    [list]; insertion-ordered dictionaries are association lists; a raised
    exception is the [Raise] constructor of [result]; methods that mutate
    [self] are state transformers that return the final state together with
    the outcome, so that the state left behind by an exception is visible.
    What [random] draws and the rearrangement [random.shuffle] picks are
    parameters of the functions that use them; [print] has no effect on the
    state and is left out. *)

From stdpp Require Import base option list gmap.
From stdpp Require Import sorting.
From Stdlib Require Import ZArith Lia.

Open Scope Z_scope.

(** ** Exceptions and results *)

Inductive exn : Set := ValueError.

Inductive result (A : Type) : Type :=
| Ok (a : A)
| Raise (e : exn).
Arguments Ok {A} a.
Arguments Raise {A} e.

#[global] Instance result_ret : MRet result := λ A a, Ok a.
#[global] Instance result_bind : MBind result := λ A B f m,
  match m with
  | Ok a => f a
  | Raise e => Raise e
  end.

(** A left fold whose step may raise: the body of a [for] loop that
    updates local variables. *)
Fixpoint foldlM {A B : Type} (f : B → A → result B) (b : B) (l : list A)
  : result B :=
  match l with
  | [] => Ok b
  | a :: l' => b' ← f b a; foldlM f b' l'
  end.

(** Methods that mutate [self]: a state transformer whose final state is
    kept also when an exception is raised, as in Python. *)
Definition st (S A : Type) : Type := S → result A * S.

#[global] Instance st_ret {S : Type} : MRet (st S) := λ A a s, (Ok a, s).
#[global] Instance st_bind {S : Type} : MBind (st S) := λ A B f m s,
  match m s with
  | (Ok a, s') => f a s'
  | (Raise e, s') => (Raise e, s')
  end.

Definition raise {S A : Type} (e : exn) : st S A := λ s, (Raise e, s).
Definition get {S : Type} : st S S := λ s, (Ok s, s).
Definition modify {S : Type} (f : S → S) : st S unit := λ s, (Ok (), f s).

(** A [for] loop whose body mutates [self]. *)
Fixpoint for_each {S A : Type} (l : list A) (body : A → st S unit) : st S unit :=
  match l with
  | [] => mret ()
  | a :: l' => _ ← body a; for_each l' body
  end.

(** ** config/game_config.py *)

Module Config.
Definition INITIAL_HAND_SIZE : nat := 20.
Definition MIN_HUXI_TO_WIN : Z := 15.
Definition BASE_SCORE : Z := 1.
Definition HUXI_PER_EXTRA_SCORE : Z := 3.
Definition RED_CARD_VALUES : list Z := [2; 7; 10].
Definition SPECIAL_SEQUENCES : list (list Z) := [[1; 2; 3]; [2; 7; 10]].
Definition NUM_PLAYERS : Z := 3.
Definition NUM_AI_PLAYERS : nat := 2.
Definition TOTAL_CARDS : nat := 80.
Definition CARD_VALUES : list Z := [1; 2; 3; 4; 5; 6; 7; 8; 9; 10].
End Config.

(** ** core/card.py *)

Record Card : Set := mkCard { value : Z; is_uppercase : bool }.

#[global] Instance Card_eq_dec : EqDecision Card.
Proof. solve_decision. Defined.

(** [Card.__post_init__]: construction raises outside 1..10. *)
Definition new_card (v : Z) (u : bool) : result Card :=
  if negb ((1 <=? v) && (v <=? 10)) then Raise ValueError
  else Ok (mkCard v u).

(** The invariant every constructed card satisfies. *)
Definition valid_card (c : Card) : Prop := 1 ≤ value c ≤ 10.

Definition is_red (c : Card) : bool := bool_decide (value c ∈ Config.RED_CARD_VALUES).

Definition is_same_value (c other : Card) : bool := bool_decide (value c = value other).

(** [Card.__lt__]: by value, a minor card before the major card of the
    same value. *)
Definition card_lt (self other : Card) : bool :=
  if bool_decide (value self ≠ value other) then bool_decide (value self < value other)
  else negb (is_uppercase self) && is_uppercase other.

(** ** Python list and dict primitives *)

(** The list without the first element equal to [x]; unchanged when there
    is none. *)
Fixpoint remove_first (x : Card) (l : list Card) : list Card :=
  match l with
  | [] => []
  | y :: l' => if decide (y = x) then l' else y :: remove_first x l'
  end.

(** [list.remove(x)]: raises [ValueError] when [x] is absent. *)
Definition list_remove (x : Card) (l : list Card) : result (list Card) :=
  if decide (x ∈ l) then Ok (remove_first x l) else Raise ValueError.

(** [sorted] on integers (insertion sort). *)
Fixpoint sorted_insert (x : Z) (l : list Z) : list Z :=
  match l with
  | [] => [x]
  | y :: l' => if x <=? y then x :: y :: l' else y :: sorted_insert x l'
  end.

Definition sorted (l : list Z) : list Z := foldr sorted_insert [] l.

(** Insertion-ordered dictionaries whose values are lists:
    [if k not in d: d[k] = []] followed by [d[k].append(v)]. *)
Fixpoint dict_append {K V : Type} `{EqDecision K} (k : K) (v : V)
    (d : list (K * list V)) : list (K * list V) :=
  match d with
  | [] => [(k, [v])]
  | (k', vs) :: d' =>
      if decide (k' = k) then (k', vs ++ [v]) :: d'
      else (k', vs) :: dict_append k v d'
  end.

Definition group_by {K : Type} `{EqDecision K} (key : Card → K)
    (cards : list Card) : list (K * list Card) :=
  fold_left (λ d c, dict_append (key c) c d) cards [].

Fixpoint dict_get {K V : Type} `{EqDecision K} (k : K) (d : list (K * V))
  : option V :=
  match d with
  | [] => None
  | (k', v) :: d' => if decide (k' = k) then Some v else dict_get k d'
  end.

(** [collections.Counter]: an insertion-ordered dictionary of counts. *)
Fixpoint counter_incr (c : Card) (d : list (Card * nat)) : list (Card * nat) :=
  match d with
  | [] => [(c, 1%nat)]
  | (c', n) :: d' =>
      if decide (c' = c) then (c', S n) :: d' else (c', n) :: counter_incr c d'
  end.

Definition Counter (cards : list Card) : list (Card * nat) :=
  fold_left (λ d c, counter_incr c d) cards [].

(** [list.sort()] on cards. The sort is stable and compares with
    [__lt__] only: a card is put after the cards that are not greater than
    it. *)
Fixpoint card_insort (x : Card) (l : list Card) : list Card :=
  match l with
  | [] => [x]
  | y :: l' => if card_lt x y then x :: y :: l' else y :: card_insort x l'
  end.

Definition cards_sort (l : list Card) : list Card :=
  fold_left (λ acc x, card_insort x acc) l [].

(** The position a slice bound [n] stands for in a list of length [len]:
    a negative bound counts from the end and stops at the start. *)
Definition slice_bound (len : nat) (n : Z) : nat :=
  if bool_decide (0 ≤ n) then Z.to_nat n else (len - Z.to_nat (- n))%nat.

(** [l[:n]] and [l[n:]] *)
Definition slice_to {A : Type} (l : list A) (n : Z) : list A :=
  take (slice_bound (length l) n) l.
Definition slice_from {A : Type} (l : list A) (n : Z) : list A :=
  drop (slice_bound (length l) n) l.

(** [d[k] = v] on an insertion-ordered dictionary: a key that is present
    keeps its place. *)
Fixpoint dict_set {K V : Type} `{EqDecision K} (k : K) (v : V) (d : list (K * V))
  : list (K * V) :=
  match d with
  | [] => [(k, v)]
  | (k', v') :: d' => if decide (k' = k) then (k', v) :: d' else (k', v') :: dict_set k v d'
  end.

(** A [result] inside a method. *)
Definition of_result {S A : Type} (r : result A) : st S A :=
  match r with
  | Ok a => mret a
  | Raise e => raise e
  end.

(** ** rules/pattern_matcher.py *)

Module PatternMatcher.

Definition card_key (c : Card) : Z * bool := (value c, is_uppercase c).

Definition find_triplets (cards : list Card) : list (list Card) :=
  let card_counts := group_by card_key cards in
  omap (λ '(_, card_list),
          if bool_decide (3 ≤ length card_list)%nat
          then Some (take 3 card_list) else None) card_counts.

Definition find_quadruplets (cards : list Card) : list (list Card) :=
  let card_counts := group_by card_key cards in
  omap (λ '(_, card_list),
          if bool_decide (length card_list = 4%nat)
          then Some card_list else None) card_counts.

(** [all(c.is_uppercase == cards[0].is_uppercase for c in cards)] *)
Definition same_case (cards : list Card) : bool :=
  match cards with
  | [] => true
  | c0 :: _ => forallb (λ c, bool_decide (is_uppercase c = is_uppercase c0)) cards
  end.

Definition is_valid_sequence (cards : list Card) : bool :=
  if negb (bool_decide (length cards = 3%nat)) then false
  else if negb (same_case cards) then false
  else
    let values := sorted (value <$> cards) in
    if bool_decide (values ∈ Config.SPECIAL_SEQUENCES) then true
    else
      match values with
      | [v0; v1; v2] => bool_decide (v1 = v0 + 1) && bool_decide (v2 = v1 + 1)
      | _ => false
      end.

Definition is_special_sequence (cards : list Card) : bool :=
  if negb (bool_decide (length cards = 3%nat)) then false
  else if negb (same_case cards) then false
  else bool_decide (sorted (value <$> cards) ∈ Config.SPECIAL_SEQUENCES).

(** [value_cards[v][0]] *)
Definition first_of (value_cards : list (Z * list Card)) (v : Z) : option Card :=
  dict_get v value_cards ≫= head.

(** The windows [(l[i], l[i+1], l[i+2])] for [i] in [range(len(l) - 2)]. *)
Fixpoint windows3 (l : list Z) : list (Z * Z * Z) :=
  match l with
  | v1 :: ((v2 :: v3 :: _) as l') => (v1, v2, v3) :: windows3 l'
  | _ => []
  end.

(** One iteration of the [for is_uppercase in [False, True]] loop: the
    sequences appended for that case. The lookups [value_cards[v][0]] are
    guarded by the membership tests, so they cannot fail. *)
Definition find_sequences_case (cards : list Card) (upper : bool)
  : list (list Card) :=
  let uppercase_cards := filter (λ c, is_uppercase c = upper) cards in
  let value_cards := group_by value uppercase_cards in
  let special :=
    omap (λ special_seq,
            if forallb (λ v, bool_decide (is_Some (dict_get v value_cards))) special_seq
            then mapM (first_of value_cards) special_seq
            else None) Config.SPECIAL_SEQUENCES in
  let sorted_values := sorted (fst <$> value_cards) in
  let ordinary :=
    omap (λ '(v1, v2, v3),
            if bool_decide (v2 = v1 + 1) && bool_decide (v3 = v2 + 1) then
              if negb (bool_decide ([v1; v2; v3] ∈ Config.SPECIAL_SEQUENCES))
              then mapM (first_of value_cards) [v1; v2; v3]
              else None
            else None) (windows3 sorted_values) in
  special ++ ordinary.

Definition find_sequences (cards : list Card) : list (list Card) :=
  find_sequences_case cards false ++ find_sequences_case cards true.

Definition find_pairs (cards : list Card) : list (list Card) :=
  let card_counts := group_by card_key cards in
  omap (λ '(_, card_list),
          if bool_decide (2 ≤ length card_list)%nat
          then Some (take 2 card_list) else None) card_counts.

(** [remaining = cards.copy()], then every card of [to_remove] that is
    still present is removed once. *)
Definition remove_cards_from_list (cards to_remove : list Card) : list Card :=
  fold_left (λ remaining card,
               if decide (card ∈ remaining) then remove_first card remaining
               else remaining) to_remove cards.

End PatternMatcher.

(** ** Committed groups and win combinations *)

(** The [type] key of a group dictionary. *)
Inductive GroupType : Set := chi | peng | pao | wei | ti.

#[global] Instance GroupType_eq_dec : EqDecision GroupType.
Proof. solve_decision. Defined.

(** An entry of [Hand.exposed_groups]. *)
Module Group.
Record t : Set := mk { type : GroupType; cards : list Card; is_concealed : bool }.
End Group.
Abbreviation Group := Group.t.

#[global] Instance Group_eq_dec : EqDecision Group.
Proof. solve_decision. Defined.

(** The dictionary returned by [WinChecker._find_win_combination]. *)
Module WinCombination.
Record t : Set := mk {
  triplets : list (list Card);
  sequences : list (list Card);
  pair : list Card }.
End WinCombination.
Abbreviation WinCombination := WinCombination.t.

(** ** rules/huxi_calculator.py *)

Module HuxiCalculator.

(** [all(c == cards[0] for c in cards)] *)
Definition all_same (cards : list Card) : bool :=
  match cards with
  | [] => true
  | c0 :: _ => forallb (λ c, bool_decide (c = c0)) cards
  end.

(** [cards[0].is_uppercase]; only used on non-empty lists. *)
Definition first_is_uppercase (cards : list Card) : bool :=
  match cards with
  | [] => false
  | c0 :: _ => is_uppercase c0
  end.

Definition calculate_triplet_huxi (cards : list Card) (is_exposed : bool)
  : result Z :=
  if negb (bool_decide (length cards = 3%nat)) then Raise ValueError
  else if negb (all_same cards) then Raise ValueError
  else
    let is_uppercase := first_is_uppercase cards in
    if is_exposed then Ok (if is_uppercase then 3 else 1)
    else Ok (if is_uppercase then 6 else 3).

Definition calculate_quadruplet_huxi (cards : list Card) (is_exposed : bool)
  : result Z :=
  if negb (bool_decide (length cards = 4%nat)) then Raise ValueError
  else if negb (all_same cards) then Raise ValueError
  else
    let is_uppercase := first_is_uppercase cards in
    if is_exposed then Ok (if is_uppercase then 9 else 6)
    else Ok (if is_uppercase then 12 else 9).

Definition calculate_sequence_huxi (cards : list Card) : Z :=
  if negb (bool_decide (length cards = 3%nat)) then 0
  else if negb (PatternMatcher.is_valid_sequence cards) then 0
  else if PatternMatcher.is_special_sequence cards then
    (if first_is_uppercase cards then 6 else 3)
  else 0.

(** The huxi one committed group adds to the total: the body of the loop
    over [exposed_groups], which [calculate_hand_huxi] and
    [calculate_win_huxi] share. *)
Definition group_huxi (group : Group) : result Z :=
  let cards := Group.cards group in
  match Group.type group with
  | peng => calculate_triplet_huxi cards true
  | wei => calculate_triplet_huxi cards false
  | pao => calculate_quadruplet_huxi cards true
  | ti => calculate_quadruplet_huxi cards false
  | chi => Ok (calculate_sequence_huxi cards)
  end.

Definition exposed_huxi (total_huxi : Z) (exposed_groups : list Group) : result Z :=
  foldlM (λ total group, h ← group_huxi group; Ok (total + h))
         total_huxi exposed_groups.

Definition calculate_hand_huxi (hand_cards : list Card)
    (exposed_groups : list Group) : result Z :=
  total_huxi ← exposed_huxi 0 exposed_groups;
  let remaining_cards := hand_cards in
  let quadruplets := PatternMatcher.find_quadruplets remaining_cards in
  '(total_huxi, remaining_cards) ←
    foldlM (λ '(total, remaining) quad,
              h ← calculate_quadruplet_huxi quad false;
              Ok (total + h, PatternMatcher.remove_cards_from_list remaining quad))
           (total_huxi, remaining_cards) quadruplets;
  let triplets := PatternMatcher.find_triplets remaining_cards in
  '(total_huxi, remaining_cards) ←
    foldlM (λ '(total, remaining) triplet,
              h ← calculate_triplet_huxi triplet false;
              Ok (total + h, PatternMatcher.remove_cards_from_list remaining triplet))
           (total_huxi, remaining_cards) triplets;
  let sequences := PatternMatcher.find_sequences remaining_cards in
  let '(total_huxi, _) :=
    fold_left (λ '(total, remaining) seq,
                 let huxi := calculate_sequence_huxi seq in
                 if 0 <? huxi
                 then (total + huxi, PatternMatcher.remove_cards_from_list remaining seq)
                 else (total, remaining))
              sequences (total_huxi, remaining_cards) in
  Ok total_huxi.

Definition calculate_win_huxi (all_cards : list Card)
    (exposed_groups : list Group) (win_combination : WinCombination)
  : result Z :=
  total_huxi ← exposed_huxi 0 exposed_groups;
  total_huxi ←
    foldlM (λ total triplet, h ← calculate_triplet_huxi triplet false; Ok (total + h))
           total_huxi (WinCombination.triplets win_combination);
  let total_huxi :=
    fold_left (λ total sequence, total + calculate_sequence_huxi sequence)
              (WinCombination.sequences win_combination) total_huxi in
  Ok total_huxi.

End HuxiCalculator.

(** ** rules/score_calculator.py *)

Module ScoreCalculator.

Definition calculate_score (huxi : Z) : Z :=
  if huxi <? Config.MIN_HUXI_TO_WIN then 0
  else
    let extra_score := (huxi - Config.MIN_HUXI_TO_WIN) `div` Config.HUXI_PER_EXTRA_SCORE in
    let total_score := Config.BASE_SCORE + extra_score in
    total_score.

End ScoreCalculator.

(** ** core/hand.py *)

Record Hand : Set := mkHand {
  cards : list Card;
  drawn_card : option Card;
  exposed_groups : list Group }.

Module Hand.

Definition set_cards (l : list Card) (self : Hand) : Hand :=
  mkHand l (drawn_card self) (exposed_groups self).
Definition set_drawn_card (d : option Card) (self : Hand) : Hand :=
  mkHand (cards self) d (exposed_groups self).
Definition set_exposed_groups (gs : list Group) (self : Hand) : Hand :=
  mkHand (cards self) (drawn_card self) gs.

(** [Hand.__init__] *)
Definition init : Hand := mkHand [] None [].

Definition add_card (card : Card) : st Hand unit :=
  modify (λ self, set_cards (cards self ++ [card]) self).

Definition add_cards (new_cards : list Card) : st Hand unit :=
  modify (λ self, set_cards (cards self ++ new_cards) self).

Definition draw_card (card : Card) : st Hand unit :=
  self ← get;
  if bool_decide (drawn_card self ≠ None) then raise ValueError
  else modify (set_drawn_card (Some card)).

Definition clear_drawn_card : st Hand unit :=
  modify (set_drawn_card None).

Definition has_drawn_card (self : Hand) : bool :=
  bool_decide (drawn_card self ≠ None).

Definition remove_card (card : Card) : st Hand bool :=
  self ← get;
  if bool_decide (card ∈ cards self) then
    _ ← modify (set_cards (remove_first card (cards self)));
    mret true
  else mret false.

(** [self.cards.remove(card)] *)
Definition cards_remove (card : Card) : st Hand unit :=
  self ← get;
  match list_remove card (cards self) with
  | Ok l => modify (set_cards l)
  | Raise e => raise e
  end.

Definition remove_cards (to_remove : list Card) : st Hand bool :=
  self ← get;
  if negb (forallb (λ card, bool_decide (card ∈ cards self)) to_remove)
  then mret false
  else
    _ ← for_each to_remove cards_remove;
    mret true.

Definition discard_drawn_card : st Hand Card :=
  self ← get;
  match drawn_card self with
  | None => raise ValueError
  | Some card =>
      _ ← modify (set_drawn_card None);
      mret card
  end.

Definition discard_hand_card (card : Card) : st Hand Card :=
  self ← get;
  if negb (bool_decide (card ∈ cards self)) then raise ValueError
  else
    _ ← cards_remove card;
    self ← get;
    _ ← match drawn_card self with
        | Some d =>
            _ ← modify (λ self, set_cards (cards self ++ [d]) self);
            modify (set_drawn_card None)
        | None => mret ()
        end;
    mret card.

Definition get_card_count (self : Hand) : nat := length (cards self).

Definition get_total_count (self : Hand) : nat :=
  let exposed_count := sum_list ((λ group, length (Group.cards group)) <$> exposed_groups self) in
  let drawn_count := if bool_decide (drawn_card self ≠ None) then 1%nat else 0%nat in
  (length (cards self) + drawn_count + exposed_count)%nat.

Definition has_card (card : Card) (self : Hand) : bool :=
  bool_decide (card ∈ cards self).

Definition count_exact_card (target_card : Card) (include_drawn : bool)
    (self : Hand) : nat :=
  let count := length (filter (λ card, card = target_card) (cards self)) in
  if include_drawn && bool_decide (drawn_card self = Some target_card)
  then S count else count.

Definition can_wei (self : Hand) : bool :=
  match drawn_card self with
  | None => false
  | Some d => bool_decide (count_exact_card d false self = 2%nat)
  end.

(** [group['type'] == 'wei' and group['cards'] and group['cards'][0] == card] *)
Definition is_wei_of (card : Card) (group : Group) : Prop :=
  Group.type group = wei ∧ head (Group.cards group) = Some card.

#[global] Instance is_wei_of_dec card group : Decision (is_wei_of card group).
Proof. unfold is_wei_of. apply _. Defined.

Definition can_ti (self : Hand) : bool :=
  match drawn_card self with
  | None => false
  | Some d =>
      let hand_count := count_exact_card d false self in
      if bool_decide (hand_count = 3%nat) then true
      else existsb (λ group, bool_decide (is_wei_of d group)) (exposed_groups self)
  end.

Definition add_exposed_group (group_type : GroupType) (group_cards : list Card)
    (is_concealed : bool) : st Hand unit :=
  modify (λ self,
    set_exposed_groups
      (exposed_groups self ++ [Group.mk group_type group_cards is_concealed]) self).

Definition clear : st Hand unit := modify (λ _, init).

(** [self.cards.sort()] *)
Definition sort_cards : st Hand unit :=
  modify (λ self, set_cards (cards_sort (cards self)) self).

End Hand.

(** ** rules/win_checker.py *)

(** The first element of a list on which [f] answers: a [for] loop that
    returns from inside its body. *)
Fixpoint first_some {A B : Type} (f : A → option B) (l : list A) : option B :=
  match l with
  | [] => None
  | a :: l' =>
      match f a with
      | Some b => Some b
      | None => first_some f l'
      end
  end.

Module WinChecker.

(** [all(c in cards for c in seq)] *)
Definition all_in (cards seq : list Card) : bool :=
  forallb (λ c, bool_decide (c ∈ cards)) seq.

(** The recursion is on a list that loses three cards at every call;
    [fuel] bounds its depth, and [length cards] is always enough (see
    [try_form_sequences_recursive_eq]). *)
Fixpoint _try_form_sequences_recursive_fuel (fuel : nat) (cards : list Card)
  : bool :=
  if bool_decide (length cards = 0%nat) then true
  else if negb (bool_decide (length cards `mod` 3 = 0)%nat) then false
  else
    match fuel with
    | O => false
    | S fuel' =>
        let possible_seqs := PatternMatcher.find_sequences cards in
        existsb (λ seq,
                   if all_in cards seq then
                     let remaining := PatternMatcher.remove_cards_from_list cards seq in
                     _try_form_sequences_recursive_fuel fuel' remaining
                   else false) possible_seqs
    end.

Definition _try_form_sequences_recursive (cards : list Card) : bool :=
  _try_form_sequences_recursive_fuel (length cards) cards.

Definition _can_form_all_sequences (cards : list Card) : bool :=
  if bool_decide (length cards = 0%nat) then true
  else if negb (bool_decide (length cards `mod` 3 = 0)%nat) then false
  else _try_form_sequences_recursive cards.

Fixpoint _find_all_sequences_fuel (fuel : nat) (cards : list Card)
  : option (list (list Card)) :=
  if bool_decide (length cards = 0%nat) then Some []
  else if negb (bool_decide (length cards `mod` 3 = 0)%nat) then None
  else
    match fuel with
    | O => None
    | S fuel' =>
        let possible_seqs := PatternMatcher.find_sequences cards in
        first_some (λ seq,
                      if all_in cards seq then
                        let remaining := PatternMatcher.remove_cards_from_list cards seq in
                        match _find_all_sequences_fuel fuel' remaining with
                        | Some rest_seqs => Some (seq :: rest_seqs)
                        | None => None
                        end
                      else None) possible_seqs
    end.

Definition _find_all_sequences (cards : list Card) : option (list (list Card)) :=
  _find_all_sequences_fuel (length cards) cards.

Definition _try_find_sequences_and_pair (cards : list Card)
  : option (list (list Card) * list Card) :=
  if bool_decide (length cards < 2)%nat then None
  else
    let pairs := PatternMatcher.find_pairs cards in
    first_some (λ pair_cards,
                  let remaining := PatternMatcher.remove_cards_from_list cards pair_cards in
                  if negb (bool_decide (length remaining `mod` 3 = 0)%nat) then None
                  else if _can_form_all_sequences remaining then
                    match _find_all_sequences remaining with
                    | Some (s :: ss) =>
                        let sequences := s :: ss in
                        if bool_decide (length sequences * 3 = length remaining)%nat
                        then Some (sequences, pair_cards) else None
                    | _ => None
                    end
                  else None) pairs.

(** The body of the loop over [Counter(cards).items()]: the state is
    [(forced_triplets, remaining)]. *)
Definition forced_step (state : list (list Card) * list Card)
    (item : Card * nat) : result (list (list Card) * list Card) :=
  let '(forced_triplets, remaining) := state in
  let '(card, count) := item in
  if bool_decide (count = 4%nat) then
    let card_list := filter (λ c, c = card) remaining in
    let forced_triplets := forced_triplets ++ [take 3 card_list] in
    remaining ← foldlM (λ remaining _, list_remove card remaining)
                       remaining (seq 0 3);
    Ok (forced_triplets, remaining)
  else if bool_decide (count = 3%nat) then
    let card_list := filter (λ c, c = card) remaining in
    let forced_triplets := forced_triplets ++ [card_list] in
    remaining ← foldlM (λ remaining c, list_remove c remaining)
                       remaining card_list;
    Ok (forced_triplets, remaining)
  else Ok (forced_triplets, remaining).

(** Step 1 of [_find_win_combination]: the forced triplets and what is
    left of the cards. *)
Definition forced_groups (cards : list Card)
  : result (list (list Card) * list Card) :=
  foldlM forced_step ([], cards) (Counter cards).

(** [_find_win_combination] after its size test. *)
Definition find_win_combination_body (cards : list Card)
  : result (option WinCombination) :=
  '(forced_triplets, remaining) ← forced_groups cards;
  if bool_decide (length remaining `mod` 3 = 2)%nat then
    match _try_find_sequences_and_pair remaining with
    | Some (sequences, pair_cards) =>
        Ok (Some (WinCombination.mk forced_triplets sequences pair_cards))
    | None => Ok None
    end
  else Ok None.

Definition _find_win_combination (cards : list Card)
  : result (option WinCombination) :=
  if bool_decide (length cards ≠ 21%nat) then Ok None
  else find_win_combination_body cards.

(** [all_cards] of [can_win]: the hand's cards and the drawn card. *)
Definition all_cards (hand : Hand) : list Card :=
  cards hand ++ match drawn_card hand with Some d => [d] | None => [] end.

(** What [can_win] returns once the search has answered. *)
Definition win_verdict (all_cards : list Card) (exposed_groups : list Group)
    (win_combination : option WinCombination)
  : result (bool * Z * option WinCombination) :=
  match win_combination with
  | None => Ok (false, 0, None)
  | Some combination =>
      huxi ← HuxiCalculator.calculate_win_huxi all_cards exposed_groups combination;
      if huxi <? Config.MIN_HUXI_TO_WIN then Ok (false, huxi, win_combination)
      else Ok (true, huxi, win_combination)
  end.

Definition can_win (hand : Hand) : result (bool * Z * option WinCombination) :=
  let all_cards := all_cards hand in
  win_combination ← _find_win_combination all_cards;
  win_verdict all_cards (exposed_groups hand) win_combination.

End WinChecker.

(** ** core/player.py *)

Record Player : Set := mkPlayer {
  player_id : Z;
  is_human : bool;
  hand : Hand;
  score : Z;
  is_dealer : bool }.

Module Player.

Definition set_hand (h : Hand) (self : Player) : Player :=
  mkPlayer (player_id self) (is_human self) h (score self) (is_dealer self).

(** A method of [self.hand] called from a method of the player. *)
Definition on_hand {A : Type} (m : st Hand A) : st Player A :=
  λ self, let '(r, h) := m (hand self) in (r, set_hand h self).

Definition draw_card (card : Card) : st Player unit :=
  on_hand (Hand.draw_card card).

Definition can_win (self : Player) : result (bool * Z * option WinCombination) :=
  WinChecker.can_win (hand self).

Definition can_wei (self : Player) : bool := Hand.can_wei (hand self).

Definition can_ti (self : Player) : bool := Hand.can_ti (hand self).

Definition can_peng (card : Card) (self : Player) : bool :=
  bool_decide (2 ≤ Hand.count_exact_card card false (hand self))%nat.

Definition can_pao (card : Card) (self : Player) : bool :=
  let hand_count := Hand.count_exact_card card false (hand self) in
  let wei_count :=
    match list_find (Hand.is_wei_of card) (exposed_groups (hand self)) with
    | Some (_, group) => length (Group.cards group)
    | None => 0%nat
    end in
  let total_count := (hand_count + wei_count)%nat in
  bool_decide (total_count = 3%nat).

Definition can_chi (card : Card) (self : Player) : list (list Card) :=
  let hand_cards := cards (hand self) in
  i ← seq 0 (length hand_cards);
  j ← seq (i + 1) (length hand_cards - (i + 1));
  match hand_cards !! i, hand_cards !! j with
  | Some card1, Some card2 =>
      let test_cards := [card; card1; card2] in
      if PatternMatcher.is_valid_sequence test_cards then [[card1; card2]] else []
  | _, _ => []
  end.

(** [for card in same_cards: self.hand.remove_card(card)] *)
Definition remove_same_cards (same_cards : list Card) : st Player unit :=
  for_each same_cards (λ card, _ ← on_hand (Hand.remove_card card); mret ()).

Definition do_wei : st Player unit :=
  self ← get;
  if negb (can_wei self) then raise ValueError
  else
    match drawn_card (hand self) with
    | None => raise ValueError
    | Some drawn_card =>
        let same_cards := take 2 (filter (λ c, c = drawn_card) (cards (hand self))) in
        _ ← remove_same_cards same_cards;
        let wei_cards := same_cards ++ [drawn_card] in
        _ ← on_hand (Hand.add_exposed_group wei wei_cards true);
        on_hand Hand.clear_drawn_card
    end.

Definition do_ti : st Player unit :=
  self ← get;
  if negb (can_ti self) then raise ValueError
  else
    match drawn_card (hand self) with
    | None => raise ValueError
    | Some drawn_card =>
        let wei_group_idx :=
          fst <$> list_find (Hand.is_wei_of drawn_card) (exposed_groups (hand self)) in
        ti_cards ←
          match wei_group_idx with
          | Some i =>
              match exposed_groups (hand self) !! i with
              | Some group =>
                  let wei_cards := Group.cards group in
                  let ti_cards := wei_cards ++ [drawn_card] in
                  _ ← on_hand (modify (λ h, Hand.set_exposed_groups
                                             (delete i (exposed_groups h)) h));
                  mret ti_cards
              | None => raise ValueError
              end
          | None =>
              let same_cards := take 3 (filter (λ c, c = drawn_card) (cards (hand self))) in
              _ ← remove_same_cards same_cards;
              mret (same_cards ++ [drawn_card])
          end;
        _ ← on_hand (Hand.add_exposed_group ti ti_cards false);
        on_hand Hand.clear_drawn_card
    end.

Definition do_peng (card : Card) : st Player unit :=
  self ← get;
  if negb (can_peng card self) then raise ValueError
  else
    let same_cards := take 2 (filter (λ c, c = card) (cards (hand self))) in
    _ ← remove_same_cards same_cards;
    let peng_cards := same_cards ++ [card] in
    on_hand (Hand.add_exposed_group peng peng_cards false).

Definition do_pao (card : Card) : st Player unit :=
  self ← get;
  if negb (can_pao card self) then raise ValueError
  else
    let wei_group_idx :=
      fst <$> list_find (Hand.is_wei_of card) (exposed_groups (hand self)) in
    pao_cards ←
      match wei_group_idx with
      | Some i =>
          match exposed_groups (hand self) !! i with
          | Some group =>
              let wei_cards := Group.cards group in
              let pao_cards := wei_cards ++ [card] in
              _ ← on_hand (modify (λ h, Hand.set_exposed_groups
                                         (delete i (exposed_groups h)) h));
              mret pao_cards
          | None => raise ValueError
          end
      | None =>
          let same_cards := take 3 (filter (λ c, c = card) (cards (hand self))) in
          _ ← remove_same_cards same_cards;
          mret (same_cards ++ [card])
      end;
    on_hand (Hand.add_exposed_group pao pao_cards false).

Definition do_chi (card : Card) (hand_cards : list Card) : st Player unit :=
  let test_cards := card :: hand_cards in
  if negb (PatternMatcher.is_valid_sequence test_cards) then raise ValueError
  else
    _ ← for_each hand_cards (λ card_to_remove,
          removed ← on_hand (Hand.remove_card card_to_remove);
          if negb removed then raise ValueError else mret ());
    let chi_cards := card :: hand_cards in
    on_hand (Hand.add_exposed_group chi chi_cards false).

Definition discard_card (card : Card) : st Player Card :=
  self ← get;
  if bool_decide (drawn_card (hand self) = Some card)
  then on_hand Hand.discard_drawn_card
  else if bool_decide (card ∈ cards (hand self))
  then on_hand (Hand.discard_hand_card card)
  else raise ValueError.

Definition get_total_cards (self : Player) : nat := Hand.get_total_count (hand self).

(** [Player.__init__]; the [name] is only printed. *)
Definition init (player_id : Z) (is_human : bool) : Player :=
  mkPlayer player_id is_human Hand.init 0 false.

Definition set_dealer (is_dealer : bool) : st Player unit :=
  modify (λ self, mkPlayer (player_id self) (is_human self) (hand self) (score self) is_dealer).

Definition add_score (points : Z) : st Player unit :=
  modify (λ self, mkPlayer (player_id self) (is_human self) (hand self)
                           (score self + points) (is_dealer self)).

Definition reset_hand : st Player unit :=
  _ ← on_hand Hand.clear;
  set_dealer false.

End Player.

(** ** core/deck.py *)

Module Deck.

Record t : Set := mk {
  cards : list Card;
  remaining_cards : list Card }.

Definition set_cards (l : list Card) (self : t) : t := mk l (remaining_cards self).
Definition set_remaining_cards (l : list Card) (self : t) : t := mk (cards self) l.

(** [self.cards.append(Card(value=value, is_uppercase=u))] *)
Definition append_card (v : Z) (u : bool) : st t unit :=
  card ← of_result (new_card v u);
  modify (λ self, set_cards (cards self ++ [card]) self).

Definition _create_cards : st t unit :=
  _ ← modify (set_cards []);
  _ ← for_each Config.CARD_VALUES (λ v,
         for_each (seq 0 4) (λ _,
           _ ← append_card v false;
           append_card v true));
  self ← get;
  if bool_decide (length (cards self) ≠ Config.TOTAL_CARDS) then raise ValueError
  else modify (λ self, set_remaining_cards (cards self) self).

(** [Deck()]: no object is built when [__init__] raises. *)
Definition init : result t :=
  match _create_cards (mk [] []) with
  | (Ok _, self) => Ok self
  | (Raise e, _) => Raise e
  end.

(** [random.shuffle] rearranges the list in place; the rearrangement it
    picks is the parameter [permute]. *)
Definition shuffle (permute : list Card → list Card) : st t unit :=
  modify (λ self, set_remaining_cards (permute (remaining_cards self)) self).

Definition deal (num : Z) : st t (list Card) :=
  self ← get;
  if bool_decide (num > Z.of_nat (length (remaining_cards self))) then raise ValueError
  else
    let dealt_cards := slice_to (remaining_cards self) num in
    _ ← modify (set_remaining_cards (slice_from (remaining_cards self) num));
    mret dealt_cards.

Definition draw : st t Card :=
  self ← get;
  match remaining_cards self with
  | [] => raise ValueError
  | card :: _ =>
      _ ← modify (set_remaining_cards (slice_from (remaining_cards self) 1));
      mret card
  end.

Definition get_remaining_count (self : t) : nat := length (remaining_cards self).

Definition is_empty (self : t) : bool :=
  bool_decide (length (remaining_cards self) = 0%nat).

Definition reset (permute : list Card → list Card) : st t unit :=
  _ ← modify (λ self, set_remaining_cards (cards self) self);
  shuffle permute.

End Deck.

(** ** Outcomes of the game layer *)

(** What a method of the game controller does: it returns, it lets an
    exception of the rule engine through, or it indexes a list out of
    range. *)
Inductive outcome (A : Type) : Type :=
| Returns (a : A)
| Raises (e : exn)
| RaisesIndexError.
Arguments Returns {A} a.
Arguments Raises {A} e.
Arguments RaisesIndexError {A}.

#[global] Instance outcome_ret : MRet outcome := λ A a, Returns a.
#[global] Instance outcome_bind : MBind outcome := λ A B f m,
  match m with
  | Returns a => f a
  | Raises e => Raises e
  | RaisesIndexError => RaisesIndexError
  end.

Definition gst (S A : Type) : Type := S → outcome A * S.

#[global] Instance gst_ret {S : Type} : MRet (gst S) := λ A a s, (Returns a, s).
#[global] Instance gst_bind {S : Type} : MBind (gst S) := λ A B f m s,
  match m s with
  | (Returns a, s') => f a s'
  | (Raises e, s') => (Raises e, s')
  | (RaisesIndexError, s') => (RaisesIndexError, s')
  end.

Definition gget {S : Type} : gst S S := λ s, (Returns s, s).
Definition gmodify {S : Type} (f : S → S) : gst S unit := λ s, (Returns (), f s).

Fixpoint gfor_each {S A : Type} (l : list A) (body : A → gst S unit) : gst S unit :=
  match l with
  | [] => mret ()
  | a :: l' => _ ← body a; gfor_each l' body
  end.

Definition outcome_of {A : Type} (r : result A) : outcome A :=
  match r with
  | Ok a => Returns a
  | Raise e => Raises e
  end.

(** An outcome inside a method. *)
Definition of_outcome {S A : Type} (o : outcome A) : gst S A := λ s, (o, s).

(** The position [l[i]] reads in a list of length [len]; a negative index
    counts from the end. *)
Definition list_index (len : nat) (i : Z) : option nat :=
  if bool_decide (0 ≤ i < Z.of_nat len) then Some (Z.to_nat i)
  else if bool_decide (- Z.of_nat len ≤ i < 0) then Some (Z.to_nat (Z.of_nat len + i))
  else None.

(** [l[k]] for a position [k] that is not negative *)
Definition index_nat {A : Type} (l : list A) (k : nat) : outcome A :=
  match l !! k with
  | Some a => Returns a
  | None => RaisesIndexError
  end.

(** [random.choice(l)]: the position it picks is [k] modulo the length;
    on an empty list it raises [IndexError]. *)
Definition random_choice {A : Type} (k : nat) (l : list A) : outcome A :=
  index_nat l (k `mod` length l)%nat.

(** [min(l)] *)
Definition list_min (l : list Z) : outcome Z :=
  match l with
  | [] => Raises ValueError
  | x :: l' => Returns (foldl Z.min x l')
  end.

(** What a decision method of a player answers: [(action, param)]. *)
Inductive Action : Set :=
| act_win
| act_ti
| act_wei
| act_discard (card : Card)
| act_pao
| act_peng
| act_chi (hand_cards : list Card)
| act_pass.

(** ** ai/ai_player.py *)

Module AIPlayer.

(** [AIPlayer.__init__]; the [difficulty] label is never read. *)
Definition init (player_id : Z) : Player := Player.init player_id false.

(** [any(c.value == other_values[k] and c.is_uppercase == card.is_uppercase
        for c in all_cards if c != card)]: [other_values[k]] is read once
    there is a card to test. *)
Definition has_other (other_values : list Z) (k : nat) (card : Card)
    (all_cards : list Card) : outcome bool :=
  match filter (λ c, c ≠ card) all_cards with
  | [] => Returns false
  | others =>
      v ← index_nat other_values k;
      Returns (existsb (λ c, bool_decide (value c = v) &&
                             bool_decide (is_uppercase c = is_uppercase card)) others)
  end.

Fixpoint special_loop (card : Card) (all_cards : list Card)
    (special_sequences : list (list Z)) : outcome bool :=
  match special_sequences with
  | [] => Returns false
  | special_seq :: rest =>
      if bool_decide (value card ∈ special_seq) then
        let other_values := filter (λ v, v ≠ value card) special_seq in
        has_first ← has_other other_values 0 card all_cards;
        has_second ← has_other other_values 1 card all_cards;
        if (has_first : bool) || (has_second : bool) then Returns true
        else special_loop card all_cards rest
      else special_loop card all_cards rest
  end.

Definition _can_form_special_sequence (card : Card) (all_cards : list Card)
  : outcome bool :=
  special_loop card all_cards Config.SPECIAL_SEQUENCES.

Definition _can_form_normal_sequence (card : Card) (all_cards : list Card) : bool :=
  existsb (λ offset,
             let target_value := value card + offset in
             bool_decide (1 ≤ target_value ≤ 10) &&
             existsb (λ c, bool_decide (value c = target_value) &&
                           bool_decide (is_uppercase c = is_uppercase card))
                     (filter (λ c, c ≠ card) all_cards))
          [-2; -1; 1; 2].

Definition _evaluate_card_value (card : Card) (all_cards : list Card) : outcome Z :=
  let v := 0 in
  let count := length (filter (λ c, c = card) all_cards) in
  let v := if bool_decide (2 ≤ count)%nat then v + 10 else v in
  let v := if bool_decide (3 ≤ count)%nat then v + 20 else v in
  special ← _can_form_special_sequence card all_cards;
  let v := if special : bool then v + 15 else v in
  let v := if _can_form_normal_sequence card all_cards then v + 5 else v in
  let v := if bool_decide (value card ∈ [1; 10]) then v - 3 else v in
  Returns v.

(** The loop that fills [card_values]. *)
Fixpoint evaluate_loop (all_cards todo : list Card) (card_values : list (Card * Z))
  : outcome (list (Card * Z)) :=
  match todo with
  | [] => Returns card_values
  | card :: todo' =>
      v ← _evaluate_card_value card all_cards;
      evaluate_loop all_cards todo' (dict_set card v card_values)
  end.

Definition _choose_discard_card (k : nat) (self : Player) : outcome Card :=
  let drawn := drawn_card (hand self) in
  let all_cards := cards (hand self) ++
                   match drawn with Some d => [d] | None => [] end in
  card_values ← evaluate_loop all_cards all_cards [];
  min_value ← list_min (snd <$> card_values);
  let candidates := fst <$> filter (λ cv, snd cv = min_value) card_values in
  random_choice k candidates.

Definition decide_after_draw (k : nat) (self : Player) : outcome Action :=
  '(can_win, huxi, combination) ← outcome_of (Player.can_win self);
  if can_win : bool then Returns act_win
  else if Player.can_ti self then Returns act_ti
  else if Player.can_wei self then Returns act_wei
  else
    card_to_discard ← _choose_discard_card k self;
    Returns (act_discard card_to_discard).

Definition _is_special_seq (cards : list Card) : bool :=
  PatternMatcher.is_special_sequence cards.

(** [coin] tells whether [random.random() < 0.3] holds, [k] is the draw of
    [random.choice]. *)
Definition decide_on_discard (coin : bool) (k : nat) (discarded_card : Card)
    (self : Player) : outcome Action :=
  if Player.can_pao discarded_card self then Returns act_pao
  else if Player.can_peng discarded_card self then Returns act_peng
  else
    let chi_options := Player.can_chi discarded_card self in
    match chi_options with
    | [] => Returns act_pass
    | _ =>
        match list_find (λ option, _is_special_seq ([discarded_card] ++ option) = true)
                        chi_options with
        | Some (_, option) => Returns (act_chi option)
        | None =>
            if coin then
              option ← random_choice k chi_options;
              Returns (act_chi option)
            else Returns act_pass
        end
    end.

End AIPlayer.

(** ** core/game.py *)

(** What the person at the keyboard is asked in [_handle_after_draw]. *)
Inductive Prompt : Set := ask_win | ask_ti | ask_wei.

(** What [_handle_after_draw] answers: ['win'] or ['continue']. *)
Inductive AfterDraw : Set := after_win | after_continue.

Module Game.

Record t : Set := mk {
  deck : Deck.t;
  players : list Player;
  current_player_idx : Z;
  dealer_idx : Z;
  last_discarded_card : option Card;
  last_discard_player_idx : option Z;
  game_over : bool;
  (** [winner] is one of the objects of [players]: its position there. *)
  winner : option nat;
  round_number : Z;
  just_responded : bool }.

Definition set_deck (d : Deck.t) (self : t) : t :=
  mk d (players self) (current_player_idx self) (dealer_idx self)
     (last_discarded_card self) (last_discard_player_idx self) (game_over self)
     (winner self) (round_number self) (just_responded self).
Definition set_players (ps : list Player) (self : t) : t :=
  mk (deck self) ps (current_player_idx self) (dealer_idx self)
     (last_discarded_card self) (last_discard_player_idx self) (game_over self)
     (winner self) (round_number self) (just_responded self).
Definition set_current_player_idx (i : Z) (self : t) : t :=
  mk (deck self) (players self) i (dealer_idx self)
     (last_discarded_card self) (last_discard_player_idx self) (game_over self)
     (winner self) (round_number self) (just_responded self).
Definition set_dealer_idx (i : Z) (self : t) : t :=
  mk (deck self) (players self) (current_player_idx self) i
     (last_discarded_card self) (last_discard_player_idx self) (game_over self)
     (winner self) (round_number self) (just_responded self).
Definition set_last_discarded_card (c : option Card) (self : t) : t :=
  mk (deck self) (players self) (current_player_idx self) (dealer_idx self)
     c (last_discard_player_idx self) (game_over self)
     (winner self) (round_number self) (just_responded self).
Definition set_game_over (b : bool) (self : t) : t :=
  mk (deck self) (players self) (current_player_idx self) (dealer_idx self)
     (last_discarded_card self) (last_discard_player_idx self) b
     (winner self) (round_number self) (just_responded self).
Definition set_winner (w : option nat) (self : t) : t :=
  mk (deck self) (players self) (current_player_idx self) (dealer_idx self)
     (last_discarded_card self) (last_discard_player_idx self) (game_over self)
     w (round_number self) (just_responded self).
Definition set_round_number (n : Z) (self : t) : t :=
  mk (deck self) (players self) (current_player_idx self) (dealer_idx self)
     (last_discarded_card self) (last_discard_player_idx self) (game_over self)
     (winner self) n (just_responded self).
Definition set_just_responded (b : bool) (self : t) : t :=
  mk (deck self) (players self) (current_player_idx self) (dealer_idx self)
     (last_discarded_card self) (last_discard_player_idx self) (game_over self)
     (winner self) (round_number self) b.

(** A method of [self.deck] called from a method of the game. *)
Definition on_deck {A : Type} (m : st Deck.t A) : gst t A :=
  λ self, let '(r, d) := m (deck self) in (outcome_of r, set_deck d self).

(** A method of the player object at position [i] of [self.players]. *)
Definition on_player_at {A : Type} (i : nat) (m : st Player A) : gst t A :=
  λ self,
    match players self !! i with
    | Some p => let '(r, p') := m p in
                (outcome_of r, set_players (<[i := p']> (players self)) self)
    | None => (RaisesIndexError, self)
    end.

(** A method of [self.players[i]]. *)
Definition on_player {A : Type} (i : Z) (m : st Player A) : gst t A :=
  λ self,
    match list_index (length (players self)) i with
    | Some k => on_player_at k m self
    | None => (RaisesIndexError, self)
    end.

(** [for player in self.players: body] *)
Definition for_each_player (body : nat → gst t unit) : gst t unit :=
  self ← gget; gfor_each (seq 0 (length (players self))) body.

Definition _init_players : list Player :=
  [Player.init 0 true] ++
  ((λ i : nat, AIPlayer.init (Z.of_nat i + 1)) <$> seq 0 Config.NUM_AI_PLAYERS).

(** [Game()] *)
Definition init : result t :=
  deck ← Deck.init;
  Ok (mk deck _init_players 0 0 None None false None 0 false).

Definition _deal_initial_cards : gst t unit :=
  for_each_player (λ i,
    cards ← on_deck (Deck.deal (Z.of_nat Config.INITIAL_HAND_SIZE));
    _ ← on_player_at i (Player.on_hand (Hand.add_cards cards));
    on_player_at i (Player.on_hand Hand.sort_cards)).

Definition start_new_round (permute : list Card → list Card) : gst t unit :=
  _ ← gmodify (λ self, set_round_number (round_number self + 1) self);
  _ ← on_deck (Deck.reset permute);
  _ ← for_each_player (λ i, on_player_at i Player.reset_hand);
  self ← gget;
  _ ← on_player (dealer_idx self) (Player.set_dealer true);
  _ ← gmodify (set_current_player_idx (dealer_idx self));
  _ ← _deal_initial_cards;
  self ← gget;
  match list_index (length (players self)) (dealer_idx self) with
  | None => λ self, (RaisesIndexError, self)
  | Some dealer =>
      first_card ← on_deck Deck.draw;
      _ ← on_player_at dealer (Player.draw_card first_card);
      _ ← gmodify (set_game_over false);
      _ ← gmodify (set_winner None);
      gmodify (set_last_discarded_card None)
  end.

(** A method of a player that may also index out of range, called on the
    player object at position [i] of [self.players]. *)
Definition on_player_at_g {A : Type} (i : nat) (m : gst Player A) : gst t A :=
  λ self,
    match players self !! i with
    | Some p => let '(r, p') := m p in
                (r, set_players (<[i := p']> (players self)) self)
    | None => (RaisesIndexError, self)
    end.

(** A method of the player inside [_handle_after_draw]. *)
Definition lift_player {A : Type} (m : st Player A) : gst Player A :=
  λ p, let '(r, p') := m p in (outcome_of r, p').

(** [player.hand.exposed_groups[-1]['cards'][0]], which the messages after
    a ti print. *)
Definition first_of_last_group (player : Player) : outcome Card :=
  match last (exposed_groups (hand player)) with
  | Some group =>
      match Group.cards group with
      | card :: _ => Returns card
      | [] => RaisesIndexError
      end
  | None => RaisesIndexError
  end.

(** [_handle_after_draw]. [yes prompt] tells whether the person answers
    [y] to the prompt; [k_ti] and [k_wei] are the random draws of the two
    calls of [decide_after_draw]. *)
Definition _handle_after_draw (yes : Prompt → bool) (k_ti k_wei : nat)
  : gst Player AfterDraw :=
  player ← gget;
  '(can_win, huxi, combination) ← of_outcome (outcome_of (Player.can_win player));
  if (can_win : bool) && (if is_human player then yes ask_win else true)
  then mret after_win
  else
    did_ti ←
      (if Player.can_ti player then
         if is_human player then
           if yes ask_ti then
             _ ← lift_player Player.do_ti;
             player ← gget;
             _ ← of_outcome (first_of_last_group player);
             mret true
           else mret false
         else
           action ← of_outcome (AIPlayer.decide_after_draw k_ti player);
           match action with
           | act_ti =>
               _ ← lift_player Player.do_ti;
               player ← gget;
               _ ← of_outcome (first_of_last_group player);
               mret true
           | _ => mret false
           end
       else mret false);
    if did_ti : bool then mret after_continue
    else
      player ← gget;
      if Player.can_wei player then
        if is_human player then
          if yes ask_wei then
            _ ← lift_player Player.do_wei;
            mret after_continue
          else mret after_continue
        else
          action ← of_outcome (AIPlayer.decide_after_draw k_wei player);
          match action with
          | act_wei =>
              _ ← lift_player Player.do_wei;
              mret after_continue
          | _ => mret after_continue
          end
      else mret after_continue.

(** [handle_player_turn]; [i] is the position of [player] in
    [self.players]. *)
Definition handle_player_turn (yes : Prompt → bool) (k_ti k_wei : nat) (i : nat)
  : gst t bool :=
  self ← gget;
  if just_responded self then
    _ ← gmodify (set_just_responded false);
    mret true
  else
    has_drawn ← on_player_at i (λ p, (Ok (Hand.has_drawn_card (hand p)), p));
    if negb has_drawn && Deck.is_empty (deck self) then mret false
    else
      _ ← (if negb has_drawn then
             card ← on_deck Deck.draw;
             on_player_at i (Player.draw_card card)
           else mret ());
      result ← on_player_at_g i (_handle_after_draw yes k_ti k_wei);
      match result with
      | after_win =>
          _ ← gmodify (set_winner (Some i));
          _ ← gmodify (set_game_over true);
          mret false
      | after_continue => mret true
      end.

Definition end_round : gst t unit :=
  self ← gget;
  match winner self with
  | Some w =>
      '(can_win, huxi, combination) ←
        on_player_at w (λ p, (Player.can_win p, p));
      let score := ScoreCalculator.calculate_score huxi in
      _ ← on_player_at w (Player.add_score score);
      self ← gget;
      match players self !! w with
      | Some winner =>
          if is_dealer winner then mret ()
          else gmodify (set_dealer_idx (player_id winner))
      | None => λ self, (RaisesIndexError, self)
      end
  | None =>
      gmodify (λ self,
        set_dealer_idx ((dealer_idx self + 1) `mod` Config.NUM_PLAYERS) self)
  end.

(** [priority.get(action, 0)] *)
Definition priority (action : Action) : Z :=
  match action with
  | act_pao => 3
  | act_peng => 2
  | act_chi _ => 1
  | _ => 0
  end.

(** [responses.sort(key=..., reverse=True)]: the sort is stable, so a
    response is put after those whose priority is not lower. *)
Fixpoint insert_response (r : nat * Action) (l : list (nat * Action))
  : list (nat * Action) :=
  match l with
  | [] => [r]
  | r' :: l' =>
      if priority r'.2 <? priority r.2 then r :: r' :: l'
      else r' :: insert_response r l'
  end.



End Game.

(** ** A store-passing model of [WinChecker.can_win]

    Python lists are objects: [hand.cards] and every [group['cards']] are
    references into a store of lists, and [copy], [append] and [remove]
    act on that store. The hand object itself is part of the state, so an
    assignment to one of its attributes would be visible too. Functions of
    [PatternMatcher] and [HuxiCalculator] only read their arguments and
    build new lists; they are run on the contents read from the store. *)

Module Store.

Definition loc : Set := nat.

Record GroupObj : Set := mkGroupObj {
  g_type : GroupType;
  g_cards : loc;
  g_is_concealed : bool }.

Record HandObj : Set := mkHandObj {
  h_cards : loc;
  h_drawn_card : option Card;
  h_exposed_groups : list GroupObj }.

Record state : Type := mkState {
  lists : gmap loc (list Card);
  self_hand : HandObj }.

Definition set_lists (m : gmap loc (list Card)) (σ : state) : state :=
  mkState m (self_hand σ).

(** Reading a list object. *)
Definition load (r : loc) : st state (list Card) :=
  σ ← get; mret (default [] (lists σ !! r)).

(** [r.copy()]: a new list object with the same contents. *)
Definition list_copy (r : loc) : st state loc :=
  σ ← get;
  let r' := fresh (dom (lists σ)) in
  _ ← modify (set_lists (<[r' := default [] (lists σ !! r)]> (lists σ)));
  mret r'.

(** [r.append(x)] *)
Definition list_append (r : loc) (x : Card) : st state unit :=
  σ ← get;
  modify (set_lists (<[r := default [] (lists σ !! r) ++ [x]]> (lists σ))).

(** [r.remove(x)] *)
Definition list_remove_in (r : loc) (x : Card) : st state unit :=
  σ ← get;
  match list_remove x (default [] (lists σ !! r)) with
  | Ok l => modify (set_lists (<[r := l]> (lists σ)))
  | Raise e => raise e
  end.

(** A pure computation that may raise. *)
Definition lift {A : Type} (m : result A) : st state A :=
  match m with
  | Ok a => mret a
  | Raise e => raise e
  end.

(** A [for] loop that updates a local variable and the store. *)
Fixpoint fold_st {A B : Type} (f : B → A → st state B) (b : B) (l : list A)
  : st state B :=
  match l with
  | [] => mret b
  | a :: l' => b' ← f b a; fold_st f b' l'
  end.

(** The loop body of [_find_win_combination]; [remaining] is a list
    object that is updated in place, [forced_triplets] a local list. *)
Definition forced_step (remaining : loc) (forced_triplets : list (list Card))
    (item : Card * nat) : st state (list (list Card)) :=
  let '(card, count) := item in
  if bool_decide (count = 4%nat) then
    cs ← load remaining;
    let card_list := filter (λ c, c = card) cs in
    let forced_triplets := forced_triplets ++ [take 3 card_list] in
    _ ← for_each (seq 0 3) (λ _, list_remove_in remaining card);
    mret forced_triplets
  else if bool_decide (count = 3%nat) then
    cs ← load remaining;
    let card_list := filter (λ c, c = card) cs in
    let forced_triplets := forced_triplets ++ [card_list] in
    _ ← for_each card_list (λ c, list_remove_in remaining c);
    mret forced_triplets
  else mret forced_triplets.

Definition _find_win_combination (cards : loc) : st state (option WinCombination) :=
  cs ← load cards;
  if bool_decide (length cs ≠ 21%nat) then mret None
  else
    remaining ← list_copy cards;
    let card_count := Counter cs in
    forced_triplets ← fold_st (forced_step remaining) [] card_count;
    rem ← load remaining;
    if bool_decide (length rem `mod` 3 = 2)%nat then
      match WinChecker._try_find_sequences_and_pair rem with
      | Some (sequences, pair_cards) =>
          mret (Some (WinCombination.mk forced_triplets sequences pair_cards))
      | None => mret None
      end
    else mret None.

(** The groups as [calculate_win_huxi] reads them. *)
Definition read_group (σ : state) (g : GroupObj) : Group :=
  Group.mk (g_type g) (default [] (lists σ !! g_cards g)) (g_is_concealed g).

Definition load_groups (gs : list GroupObj) : st state (list Group) :=
  σ ← get; mret (read_group σ <$> gs).

Definition can_win : st state (bool * Z * option WinCombination) :=
  σ ← get;
  let hand := self_hand σ in
  all_cards ← list_copy (h_cards hand);
  _ ← match h_drawn_card hand with
      | Some d => list_append all_cards d
      | None => mret ()
      end;
  win_combination ← _find_win_combination all_cards;
  match win_combination with
  | None => mret (false, 0, None)
  | Some combination =>
      cs ← load all_cards;
      groups ← load_groups (h_exposed_groups hand);
      huxi ← lift (HuxiCalculator.calculate_win_huxi cs groups combination);
      if huxi <? Config.MIN_HUXI_TO_WIN then mret (false, huxi, win_combination)
      else mret (true, huxi, win_combination)
  end.

(** The hand a state denotes. *)
Definition hand_of (σ : state) : Hand :=
  mkHand (default [] (lists σ !! h_cards (self_hand σ)))
         (h_drawn_card (self_hand σ))
         (read_group σ <$> h_exposed_groups (self_hand σ)).

(** Every reference of the hand points to a list object. *)
Definition well_formed (σ : state) : Prop :=
  is_Some (lists σ !! h_cards (self_hand σ)) ∧
  Forall (λ g, is_Some (lists σ !! g_cards g)) (h_exposed_groups (self_hand σ)).

(** The state with the list at [r] replaced. *)
Definition with_list (r : loc) (l : list Card) (σ : state) : state :=
  set_lists (<[r := l]> (lists σ)) σ.

(** What a run may change: nothing of the hand object, and no list that
    existed before. *)
Definition preserves (σ σ' : state) : Prop :=
  self_hand σ' = self_hand σ ∧
  ∀ r, is_Some (lists σ !! r) → lists σ' !! r = lists σ !! r.

(** The local list of forced triplets, without the pool. *)
Definition forget_pool (res : result (list (list Card) * list Card))
  : result (list (list Card)) :=
  match res with
  | Ok (forced_triplets, _) => Ok forced_triplets
  | Raise e => Raise e
  end.

End Store.

(** ** Vocabulary of the statements *)

(** The number of cards of a list equal to [c] in value and case. *)
Definition count_card (c : Card) (l : list Card) : nat :=
  length (filter (λ x, x = c) l).

(** A class of three or four equal cards is forced. *)
Definition is_forced (n : nat) : bool := bool_decide (n = 3 ∨ n = 4)%nat.

(** The forced triplets of a counter, in its order. *)
Definition forced_of (items : list (Card * nat)) : list (list Card) :=
  omap (λ '(c, n), if is_forced n then Some (replicate 3 c) else None) items.

(** A committed triplet holds three equal cards, a committed quadruplet
    four. *)
Definition well_formed_group (g : Group) : Prop :=
  match Group.type g with
  | peng | wei => ∃ c, Group.cards g = [c; c; c]
  | pao | ti => ∃ c, Group.cards g = [c; c; c; c]
  | chi => True
  end.

(** The index pairs behind the answers of [Player.can_chi], in the order
    of its two loops. *)
Definition chi_positions (card : Card) (hand_cards : list Card) : list (nat * nat) :=
  i ← seq 0 (length hand_cards);
  j ← seq (i + 1) (length hand_cards - (i + 1));
  match hand_cards !! i, hand_cards !! j with
  | Some card1, Some card2 =>
      if PatternMatcher.is_valid_sequence [card; card1; card2] then [(i, j)] else []
  | _, _ => []
  end.

(** A valid sequence as the specification words it. *)
Module Spec.

(** The sorted values of a sequence: three consecutive integers within
    1..10, or exactly 1, 2, 3, or exactly 2, 7, 10. *)
Definition sequence_values (v0 v1 v2 : Z) : Prop :=
  (1 ≤ v0 ∧ v1 = v0 + 1 ∧ v2 = v1 + 1 ∧ v2 ≤ 10) ∨
  (v0 = 1 ∧ v1 = 2 ∧ v2 = 3) ∨
  (v0 = 2 ∧ v1 = 7 ∧ v2 = 10).

(** Three tiles of one rank whose values, put in increasing order, are
    sequence values. *)
Definition valid_sequence (t0 t1 t2 : Card) : Prop :=
  is_uppercase t1 = is_uppercase t0 ∧ is_uppercase t2 = is_uppercase t0 ∧
  ∃ v0 v1 v2, [value t0; value t1; value t2] ≡ₚ [v0; v1; v2] ∧
              sequence_values v0 v1 v2.

End Spec.

(** Every tile a hand holds: concealed, drawn and committed. *)
Definition hand_tiles (h : Hand) : list Card :=
  cards h ++ match drawn_card h with Some d => [d] | None => [] end ++
  concat (Group.cards <$> exposed_groups h).

(** The part [do_ti] and [do_pao] share: the four cards of the new group,
    the concealed cards and the committed groups that are left, either
    from a wei of the card or from three concealed copies. *)
Definition upgrade_or_take (c : Card) (h : Hand) : list Card * list Card * list Group :=
  match list_find (Hand.is_wei_of c) (exposed_groups h) with
  | Some (i, g) => (Group.cards g ++ [c], cards h, delete i (exposed_groups h))
  | None =>
      let same_cards := take 3 (filter (λ x, x = c) (cards h)) in
      (same_cards ++ [c], PatternMatcher.remove_cards_from_list (cards h) same_cards,
       exposed_groups h)
  end.

(** [a] may stand before [b] in a sorted list: [b < a] does not hold. *)
Definition card_le (a b : Card) : Prop := card_lt b a = false.

(** The player after [reset_hand]. *)
Definition after_reset (dealer : bool) (p : Player) : Player :=
  mkPlayer (player_id p) (is_human p) Hand.init (score p) dealer.

(** The player after [l] was dealt to them: appended, then sorted. *)
Definition dealt_to (l : list Card) (p : Player) : Player :=
  Player.set_hand (Hand.set_cards (cards_sort (cards (hand p) ++ l)) (hand p)) p.

(** The response a scan of the responses keeps: the first of the highest
    priority. *)
Definition better (b r : nat * Action) : nat * Action :=
  if Game.priority b.2 <? Game.priority r.2 then r else b.

(** ** Example hands *)

(** Minor and major tiles. *)
Definition minor (v : Z) : Card := mkCard v false.
Definition major (v : Z) : Card := mkCard v true.

(** Seventeen tiles: three minor 1, four runs and a pair of minor 9. *)
Definition seventeen_tiles : list Card :=
  [minor 1; minor 1; minor 1; minor 2; minor 3; minor 4; minor 5; minor 6;
   minor 7; major 1; major 2; major 3; major 6; major 7; major 8; minor 9;
   minor 9].

Definition seventeen_combination : WinCombination :=
  WinCombination.mk
    [[minor 1; minor 1; minor 1]]
    [[minor 2; minor 3; minor 4]; [minor 5; minor 6; minor 7];
     [major 1; major 2; major 3]; [major 6; major 7; major 8]]
    [minor 9; minor 9].

(** A hand of 21 tiles: a committed ti of major 5, sixteen concealed tiles
    and a drawn minor 9. *)
Definition committed_ti_hand : Hand :=
  mkHand
    [minor 1; minor 1; minor 1; minor 2; minor 3; minor 4; minor 5; minor 6;
     minor 7; major 1; major 2; major 3; major 6; major 7; major 8; minor 9]
    (Some (minor 9))
    [Group.mk ti [major 5; major 5; major 5; major 5] false].

(** A hand of 21 tiles: a committed pao of minor 10, sixteen concealed tiles
    and a drawn minor 9. Its seventeen free tiles are five runs and a pair of
    minor 9; the pao is its only huxi. *)
Definition complete_low_hand : Hand :=
  mkHand
    [minor 2; minor 3; minor 4; minor 4; minor 5; minor 5; minor 6; minor 6;
     minor 7; minor 9; major 2; major 3; major 4; major 5; major 6; major 7]
    (Some (minor 9))
    [Group.mk pao [minor 10; minor 10; minor 10; minor 10] false].

Definition low_combination : WinCombination :=
  WinCombination.mk
    []
    [[minor 2; minor 3; minor 4]; [minor 4; minor 5; minor 6];
     [minor 5; minor 6; minor 7]; [major 2; major 3; major 4];
     [major 5; major 6; major 7]]
    [minor 9; minor 9].

(** A hand of 24 tiles: twenty concealed tiles, a drawn minor 1 and a
    committed peng of major 1. *)
Definition overfull_hand : Hand :=
  mkHand
    [minor 1; minor 2; minor 3; minor 4; minor 5; minor 6; minor 7; minor 8;
     minor 9; minor 10; major 1; major 2; major 3; major 4; major 5; major 6;
     major 7; major 8; major 9; major 10]
    (Some (minor 1))
    [Group.mk peng [major 1; major 1; major 1] false].


(** A player who has drawn the fourth major 5 of a committed wei. *)
Definition wei_upgrade_player : Player :=
  mkPlayer 0 true
    (mkHand [minor 1; minor 2; minor 3; minor 3; major 2; minor 4] (Some (major 5))
            [Group.mk chi [minor 4; minor 5; minor 6] false;
             Group.mk wei [major 5; major 5; major 5] true])
    0 false.

(** A store in which the hand's cards are list 0 and a committed peng is
    list 1. *)
Definition example_store : Store.state :=
  Store.mkState
    (<[0%nat := [minor 1; minor 2; minor 3]]> (<[1%nat := [major 4; major 4; major 4]]> ∅))
    (Store.mkHandObj 0%nat (Some (minor 4)) [Store.mkGroupObj peng 1%nat false]).

(** The eighty tiles in the order [Deck._create_cards] builds them. *)
Definition full_deck : list Card :=
  v ← Config.CARD_VALUES; _ ← seq 0 4; [mkCard v false; mkCard v true].

(** The game [Game()] builds. *)
Definition new_game : Game.t :=
  Game.mk (Deck.mk full_deck full_deck)
          [Player.init 0 true; AIPlayer.init 1; AIPlayer.init 2]
          0 0 None None false None 0 false.

(** * Properties *)

(** ** The result and state monads *)

Lemma bind_Ok {A B} (a : A) (f : A → result B) : (Ok a ≫= f) = f a.
Proof. done. Qed.

Lemma bind_Raise {A B} e (f : A → result B) : (Raise e ≫= f) = Raise e.
Proof. done. Qed.

Lemma st_bind_run {S A B : Type} (f : A → st S B) (c : st S A) (s : S) :
  (c ≫= f) s = match c s with
               | (Ok a, s') => f a s'
               | (Raise e, s') => (Raise e, s')
               end.
Proof. done. Qed.

(** Evaluating the huxi of a group of equal cards: the length and
    equality tests of the scorer all succeed. *)
Ltac huxi_eval :=
  unfold HuxiCalculator.group_huxi, HuxiCalculator.calculate_triplet_huxi,
    HuxiCalculator.calculate_quadruplet_huxi;
  cbn; rewrite ?bool_decide_eq_true_2 by done; cbn.

(** ** Lists *)

Section list_facts.
Implicit Types (c x : Card) (l : list Card).

Lemma count_card_cons c x l :
  count_card c (x :: l) = (if decide (x = c) then S (count_card c l) else count_card c l).
Proof. unfold count_card. rewrite filter_cons. by destruct (decide (x = c)). Qed.

Lemma count_card_app c l1 l2 :
  count_card c (l1 ++ l2) = (count_card c l1 + count_card c l2)%nat.
Proof. unfold count_card. by rewrite filter_app, length_app. Qed.

Lemma count_card_pos c l : c ∈ l ↔ (0 < count_card c l)%nat.
Proof.
  induction l as [|x l IH]; [rewrite elem_of_nil; cbn; lia|].
  rewrite count_card_cons, elem_of_cons.
  destruct (decide (x = c)) as [->|Hne].
  - split; [lia|]. by left.
  - rewrite <- IH. split; [by intros [->|]|by right].
Qed.

Lemma filter_eq_replicate c l :
  filter (λ x, x = c) l = replicate (count_card c l) c.
Proof.
  induction l as [|x l IH]; [done|].
  rewrite count_card_cons, filter_cons.
  destruct (decide (x = c)); subst; cbn; by rewrite ?IH.
Qed.

Lemma remove_first_length c l :
  c ∈ l → S (length (remove_first c l)) = length l.
Proof.
  induction l as [|x l IH]; [by rewrite elem_of_nil|].
  rewrite elem_of_cons. intros Hin. cbn.
  destruct (decide (x = c)) as [->|Hne]; [done|]. cbn. rewrite IH; [done|].
  by destruct Hin as [->|].
Qed.

Lemma remove_first_count_eq c l :
  c ∈ l → S (count_card c (remove_first c l)) = count_card c l.
Proof.
  induction l as [|x l IH]; [by rewrite elem_of_nil|].
  rewrite elem_of_cons. intros Hin. cbn [remove_first].
  destruct (decide (x = c)) as [->|Hne].
  - rewrite count_card_cons. by rewrite decide_True.
  - rewrite !count_card_cons, !decide_False by done. apply IH.
    by destruct Hin as [->|].
Qed.

Lemma remove_first_count_ne c x l :
  x ≠ c → count_card x (remove_first c l) = count_card x l.
Proof.
  intros Hne. induction l as [|y l IH]; [done|]. cbn [remove_first].
  destruct (decide (y = c)) as [->|Hyc].
  - rewrite count_card_cons. by rewrite decide_False.
  - rewrite !count_card_cons, IH. done.
Qed.

Lemma list_remove_elem c l : c ∈ l → list_remove c l = Ok (remove_first c l).
Proof. intros. unfold list_remove. by case_decide. Qed.

Lemma list_remove_not_elem c l : c ∉ l → list_remove c l = Raise ValueError.
Proof. intros. unfold list_remove. by case_decide. Qed.

(** Removing [c] as many times as it occurs (at least) succeeds. *)
Lemma remove_many_ok {A} c (js : list A) l :
  (length js ≤ count_card c l)%nat →
  ∃ l', foldlM (λ remaining _, list_remove c remaining) l js = Ok l' ∧
        (length l' + length js = length l)%nat ∧
        (count_card c l' + length js = count_card c l)%nat ∧
        ∀ x, x ≠ c → count_card x l' = count_card x l.
Proof.
  revert l. induction js as [|j js IH]; intros l Hle.
  - exists l. cbn. repeat split; lia.
  - cbn in Hle. assert (c ∈ l) as Hin by (apply count_card_pos; lia).
    cbn [foldlM]. rewrite (list_remove_elem c l Hin). cbn.
    pose proof (remove_first_length c l Hin).
    pose proof (remove_first_count_eq c l Hin).
    destruct (IH (remove_first c l)) as (l' & -> & Hlen & Hcnt & Hoth); [lia|].
    exists l'. cbn. repeat split; try lia.
    intros x Hx. rewrite Hoth by done. by apply remove_first_count_ne.
Qed.

Lemma foldlM_const_replicate n c l :
  foldlM (λ remaining x, list_remove x remaining) l (replicate n c) =
  foldlM (λ remaining (_ : nat), list_remove c remaining) l (seq 0 n).
Proof.
  generalize 0%nat. revert l. induction n as [|n IH]; intros l k; [done|].
  cbn. destruct (list_remove c l); cbn; [apply IH|done].
Qed.
End list_facts.

(** ** Insertion-ordered dictionaries *)

Section dict_facts.
Context {K V : Type} `{EqDecision K}.
Implicit Types (k : K) (v : V) (d : list (K * list V)).

Lemma dict_get_elem {W} k (w : W) (d : list (K * W)) :
  NoDup d.*1 → (k, w) ∈ d → dict_get k d = Some w.
Proof.
  induction d as [|[k' w'] d IH]; [by intros _ ?%elem_of_nil|].
  rewrite fmap_cons, NoDup_cons, elem_of_cons. cbn.
  intros [Hk Hd] [Heq|Hin].
  - inversion Heq; subst. by rewrite decide_True.
  - rewrite decide_False; [by apply IH|].
    intros ->. apply Hk. apply list_elem_of_fmap. by exists (k, w).
Qed.

Lemma dict_get_Some_elem {W} k (w : W) (d : list (K * W)) :
  dict_get k d = Some w → (k, w) ∈ d.
Proof.
  induction d as [|[k' w'] d IH]; [done|]. cbn.
  case_decide as Hk; [intros [= ->]; subst; apply list_elem_of_here|].
  intros Hget. by apply list_elem_of_further, IH.
Qed.

Lemma dict_get_dict_append_eq k v d :
  dict_get k (dict_append k v d) = Some (default [] (dict_get k d) ++ [v]).
Proof.
  induction d as [|[k' vs] d IH]; cbn.
  - by rewrite decide_True.
  - destruct (decide (k' = k)) as [->|Hne]; cbn.
    + by rewrite decide_True.
    + by rewrite decide_False.
Qed.

Lemma dict_get_dict_append_ne k k' v d :
  k' ≠ k → dict_get k' (dict_append k v d) = dict_get k' d.
Proof.
  intros Hne. induction d as [|[k0 vs] d IH]; cbn.
  - by rewrite decide_False.
  - destruct (decide (k0 = k)) as [->|Hk]; cbn.
    + by rewrite !decide_False.
    + by rewrite IH.
Qed.

Lemma dict_append_keys k v d :
  (dict_append k v d).*1 = if decide (k ∈ d.*1) then d.*1 else d.*1 ++ [k].
Proof.
  induction d as [|[k' vs] d IH]; cbn.
  - rewrite decide_False; [done|]. apply not_elem_of_nil.
  - destruct (decide (k' = k)) as [->|Hk]; cbn.
    + rewrite decide_True; [done|]. apply list_elem_of_here.
    + rewrite IH. destruct (decide (k ∈ d.*1)).
      * rewrite decide_True; [done|]. by apply list_elem_of_further.
      * rewrite decide_False; [done|]. apply not_elem_of_cons. by split.
Qed.

Lemma dict_append_NoDup k v d : NoDup d.*1 → NoDup (dict_append k v d).*1.
Proof.
  intros Hd. rewrite dict_append_keys. case_decide; [done|].
  apply NoDup_app. split_and!; [done| |apply NoDup_singleton].
  intros x Hx. rewrite list_elem_of_singleton. by intros ->.
Qed.

Lemma dict_get_None {W} k (d : list (K * W)) : k ∉ d.*1 → dict_get k d = None.
Proof.
  induction d as [|[k' w'] d IH]; [done|].
  rewrite fmap_cons, not_elem_of_cons. cbn. intros [Hne Hk].
  rewrite decide_False by done. by apply IH.
Qed.
End dict_facts.

Section counter_facts.
Implicit Types (c x : Card) (l : list Card) (d : list (Card * nat)).

Lemma dict_get_counter_incr_eq c d :
  dict_get c (counter_incr c d) = Some (S (default 0%nat (dict_get c d))).
Proof.
  induction d as [|[c' n] d IH]; cbn.
  - by rewrite decide_True.
  - destruct (decide (c' = c)) as [->|Hne]; cbn.
    + by rewrite decide_True.
    + by rewrite decide_False.
Qed.

Lemma dict_get_counter_incr_ne c x d :
  x ≠ c → dict_get x (counter_incr c d) = dict_get x d.
Proof.
  intros Hne. induction d as [|[c' n] d IH]; cbn.
  - by rewrite decide_False.
  - destruct (decide (c' = c)) as [->|Hc]; cbn.
    + by rewrite !decide_False.
    + by rewrite IH.
Qed.

Lemma counter_incr_keys c d :
  (counter_incr c d).*1 = if decide (c ∈ d.*1) then d.*1 else d.*1 ++ [c].
Proof.
  induction d as [|[c' n] d IH]; cbn.
  - rewrite decide_False; [done|]. apply not_elem_of_nil.
  - destruct (decide (c' = c)) as [->|Hc]; cbn.
    + rewrite decide_True; [done|]. apply list_elem_of_here.
    + rewrite IH. destruct (decide (c ∈ d.*1)).
      * rewrite decide_True; [done|]. by apply list_elem_of_further.
      * rewrite decide_False; [done|]. apply not_elem_of_cons. by split.
Qed.

Lemma counter_incr_NoDup c d : NoDup d.*1 → NoDup (counter_incr c d).*1.
Proof.
  intros Hd. rewrite counter_incr_keys. case_decide; [done|].
  apply NoDup_app. split_and!; [done| |apply NoDup_singleton].
  intros x Hx. rewrite list_elem_of_singleton. by intros ->.
Qed.

Lemma Counter_snoc l c : Counter (l ++ [c]) = counter_incr c (Counter l).
Proof. unfold Counter. by rewrite fold_left_app. Qed.

Lemma Counter_spec l :
  NoDup (Counter l).*1 ∧
  ∀ c, dict_get c (Counter l) =
       if decide (count_card c l = 0%nat) then None else Some (count_card c l).
Proof.
  induction l as [|x l [IH1 IH2]] using rev_ind.
  - split; [constructor|]. intros c. done.
  - rewrite Counter_snoc. split; [by apply counter_incr_NoDup|].
    intros c. rewrite count_card_app. destruct (decide (c = x)) as [->|Hne].
    + rewrite dict_get_counter_incr_eq, IH2.
      replace (count_card x [x]) with 1%nat by (unfold count_card; cbn; by rewrite decide_True).
      destruct (decide (count_card x l = 0%nat)) as [Hz|Hz];
        (rewrite decide_False by lia); cbn; f_equal; lia.
    + rewrite dict_get_counter_incr_ne, IH2 by done.
      replace (count_card c [x]) with 0%nat by (unfold count_card; cbn; by rewrite decide_False).
      by rewrite Nat.add_0_r.
Qed.

Lemma Counter_NoDup l : NoDup (Counter l).*1.
Proof. apply Counter_spec. Qed.

Lemma Counter_elem_of l c n : (c, n) ∈ Counter l → n = count_card c l.
Proof.
  intros Hin. apply dict_get_elem in Hin; [|apply Counter_NoDup].
  rewrite (proj2 (Counter_spec l)) in Hin. case_decide; congruence.
Qed.

Lemma Counter_keys l c : c ∈ (Counter l).*1 ↔ c ∈ l.
Proof.
  rewrite (count_card_pos c l). split.
  - intros ([c' n] & -> & Hin)%list_elem_of_fmap. cbn.
    pose proof (Counter_elem_of _ _ _ Hin) as ->.
    apply dict_get_elem in Hin; [|apply Counter_NoDup].
    rewrite (proj2 (Counter_spec l)) in Hin. case_decide; [done|lia].
  - intros Hpos. destruct (decide (c ∈ (Counter l).*1)) as [|Hn]; [done|].
    apply dict_get_None in Hn. rewrite (proj2 (Counter_spec l)) in Hn.
    case_decide; [lia|done].
Qed.
End counter_facts.

Section group_by_facts.
Context {K : Type} `{EqDecision K} (key : Card → K).

Lemma group_by_snoc l c :
  group_by key (l ++ [c]) = dict_append (key c) c (group_by key l).
Proof. unfold group_by. by rewrite fold_left_app. Qed.

Lemma group_by_spec l :
  NoDup (group_by key l).*1 ∧
  ∀ k, dict_get k (group_by key l) =
       match filter (λ c, key c = k) l with
       | [] => None
       | vs => Some vs
       end.
Proof.
  induction l as [|x l [IH1 IH2]] using rev_ind; [split; [constructor|done]|].
  rewrite group_by_snoc. split; [by apply dict_append_NoDup|].
  intros k. rewrite filter_app. destruct (decide (key x = k)) as [<-|Hne].
  - rewrite dict_get_dict_append_eq, IH2.
    rewrite (filter_cons_True _ x []) by done. rewrite filter_nil.
    destruct (filter (λ c, key c = key x) l); done.
  - rewrite dict_get_dict_append_ne, IH2 by done.
    rewrite (filter_cons_False _ x []) by done. by rewrite filter_nil, app_nil_r.
Qed.

Lemma group_by_NoDup l : NoDup (group_by key l).*1.
Proof. apply group_by_spec. Qed.

Lemma group_by_elem_of l k vs :
  (k, vs) ∈ group_by key l ↔ vs ≠ [] ∧ vs = filter (λ c, key c = k) l.
Proof.
  split.
  - intros Hin%dict_get_elem; [|apply group_by_NoDup].
    rewrite (proj2 (group_by_spec l)) in Hin.
    destruct (filter _ l) eqn:Hf; [done|]. inversion Hin; subst. done.
  - intros [Hne ->]. apply dict_get_Some_elem.
    rewrite (proj2 (group_by_spec l)). by destruct (filter _ l).
Qed.
End group_by_facts.

Lemma filter_omap_nil {A G : Type} (f : A → option G) (P : G → Prop)
    `{∀ g, Decision (P g)} (items : list A) :
  (∀ a g, a ∈ items → f a = Some g → ¬ P g) →
  filter P (omap f items) = [].
Proof.
  intros Hno. induction items as [|a items IH]; [done|]. cbn [omap list_omap].
  assert (filter P (omap f items) = []) as IH'.
  { apply IH. intros a' g Hin. apply Hno. by apply list_elem_of_further. }
  destruct (f a) as [g|] eqn:Hf; [|done].
  rewrite filter_cons_False; [done|]. eapply Hno; [apply list_elem_of_here|done].
Qed.

(** In a dictionary, the entries selected by [f] whose image satisfies
    [P], when [P] singles out one key. *)
Lemma filter_omap_single {K V G : Type} (f : K * V → option G) (P : G → Prop)
    `{∀ g, Decision (P g)} (items : list (K * V)) (k0 : K) (v0 : V) (g0 : G) :
  NoDup items.*1 →
  (k0, v0) ∈ items →
  f (k0, v0) = Some g0 →
  P g0 →
  (∀ k v g, (k, v) ∈ items → k ≠ k0 → f (k, v) = Some g → ¬ P g) →
  filter P (omap f items) = [g0].
Proof.
  intros Hnd Hin Hf HP Hother.
  induction items as [|[k v] items IH]; [by apply elem_of_nil in Hin|].
  rewrite fmap_cons in Hnd. apply NoDup_cons in Hnd as [Hk Hnd]. cbn in Hk.
  assert (∀ k' v', (k', v') ∈ items → k' ≠ k) as Hfresh.
  { intros k' v' Hin' ->. apply Hk. apply list_elem_of_fmap. by exists (k, v'). }
  cbn [omap list_omap].
  apply elem_of_cons in Hin as [Heq|Hin].
  - inversion Heq; subst k v. rewrite Hf, filter_cons_True by done.
    f_equal. apply filter_omap_nil. intros [k v] g Hin Hg.
    apply (Hother k v g); [by apply list_elem_of_further|by eapply Hfresh|done].
  - assert (k ≠ k0) as Hne by (intros ->; by eapply Hfresh).
    assert (filter P (omap f items) = [g0]) as IH'.
    { apply IH; [done|done|]. intros k' v' g Hin'. apply Hother. by apply list_elem_of_further. }
    destruct (f (k, v)) as [g|] eqn:Hg; [|done].
    rewrite filter_cons_False; [done|]. apply (Hother k v g); [apply list_elem_of_here|done..].
Qed.

(** ** The forced groups of [_find_win_combination] *)

Section forced_groups_facts.
Implicit Types (c x : Card) (l rem : list Card) (items : list (Card * nat)).

Lemma forced_of_cons c n items :
  forced_of ((c, n) :: items) =
  (if is_forced n then [replicate 3 c] else []) ++ forced_of items.
Proof. unfold forced_of. cbn. by destruct (is_forced n). Qed.

Lemma forced_step_ok ft rem c n :
  count_card c rem = n →
  ∃ rem', WinChecker.forced_step (ft, rem) (c, n) =
            Ok (ft ++ (if is_forced n then [replicate 3 c] else []), rem') ∧
          (length rem' + (if is_forced n then 3 else 0) = length rem)%nat ∧
          count_card c rem' = (if is_forced n then n - 3 else n)%nat ∧
          ∀ x, x ≠ c → count_card x rem' = count_card x rem.
Proof.
  intros Hn. unfold WinChecker.forced_step, is_forced.
  destruct (decide (n = 4%nat)) as [->|H4].
  - rewrite bool_decide_eq_true_2 by done.
    rewrite (bool_decide_eq_true_2 (_ ∨ _)) by lia.
    destruct (remove_many_ok c (seq 0 3) rem) as (rem' & Hrm & Hlen & Hcnt & Hoth);
      [cbn; lia|].
    rewrite Hrm. exists rem'. cbn in Hlen, Hcnt. split_and!; [|lia|lia|done].
    cbn. rewrite filter_eq_replicate, Hn. done.
  - rewrite (bool_decide_eq_false_2 (n = 4%nat)) by done.
    destruct (decide (n = 3%nat)) as [->|H3].
    + rewrite bool_decide_eq_true_2 by done.
      rewrite (bool_decide_eq_true_2 (_ ∨ _)) by lia.
      rewrite filter_eq_replicate, Hn, foldlM_const_replicate.
      destruct (remove_many_ok c (seq 0 3) rem) as (rem' & Hrm & Hlen & Hcnt & Hoth);
        [cbn; lia|].
      rewrite Hrm. exists rem'. cbn in Hlen, Hcnt. split_and!; [done|lia|lia|done].
    + rewrite (bool_decide_eq_false_2 (n = 3%nat)) by done.
      rewrite (bool_decide_eq_false_2 (_ ∨ _)) by lia.
      exists rem. rewrite app_nil_r. split_and!; [done|lia|done|done].
Qed.

Lemma forced_loop_ok items ft rem :
  NoDup items.*1 →
  (∀ c n, (c, n) ∈ items → count_card c rem = n) →
  ∃ rem', foldlM WinChecker.forced_step (ft, rem) items =
            Ok (ft ++ forced_of items, rem') ∧
          (length rem' + 3 * length (forced_of items) = length rem)%nat ∧
          (∀ c n, (c, n) ∈ items →
                  count_card c rem' = (if is_forced n then n - 3 else n)%nat) ∧
          ∀ x, x ∉ items.*1 → count_card x rem' = count_card x rem.
Proof.
  revert ft rem. induction items as [|[c n] items IH]; intros ft rem Hnd Hcnt.
  - exists rem. cbn. rewrite app_nil_r. split_and!; [done|lia| |done].
    intros c n Hin. by apply elem_of_nil in Hin.
  - rewrite fmap_cons in Hnd. apply NoDup_cons in Hnd as [Hc Hnd]. cbn in Hc.
    destruct (forced_step_ok ft rem c n) as (rem1 & Hstep & Hlen1 & Hc1 & Hoth1).
    { apply Hcnt. apply list_elem_of_here. }
    destruct (IH (ft ++ (if is_forced n then [replicate 3 c] else [])) rem1 Hnd)
      as (rem' & Hloop & Hlen & Hin' & Hout').
    { intros c' n' Hin. rewrite Hoth1.
      - apply Hcnt. by apply list_elem_of_further.
      - intros ->. apply Hc. apply list_elem_of_fmap. by exists (c, n'). }
    exists rem'. cbn [foldlM]. rewrite Hstep, bind_Ok, Hloop.
    split_and!.
    + by rewrite forced_of_cons, app_assoc.
    + rewrite forced_of_cons, length_app. destruct (is_forced n); cbn [length]; lia.
    + intros c' n' [Heq|Hin]%elem_of_cons.
      * inversion Heq; subst. rewrite Hout' by done. done.
      * by apply Hin'.
    + intros x Hx. rewrite fmap_cons in Hx. apply not_elem_of_cons in Hx as [Hxc Hx].
      rewrite Hout' by done. by apply Hoth1.
Qed.

(** The forced-group extraction never raises; it commits [c, c, c] for
    every class of three or four cards, in the order of first occurrence,
    and takes exactly these cards out of the pool. *)
Lemma forced_groups_ok l :
  ∃ rem, WinChecker.forced_groups l = Ok (forced_of (Counter l), rem) ∧
         (length rem + 3 * length (forced_of (Counter l)) = length l)%nat ∧
         ∀ c, count_card c rem =
              (if is_forced (count_card c l) then count_card c l - 3
               else count_card c l)%nat.
Proof.
  destruct (forced_loop_ok (Counter l) [] l (Counter_NoDup l))
    as (rem & Hloop & Hlen & Hin & Hout).
  { intros c n Hin. symmetry. by apply Counter_elem_of. }
  exists rem. split_and!; [done|done|].
  intros c. destruct (decide (c ∈ (Counter l).*1)) as [Hc|Hc].
  - apply list_elem_of_fmap in Hc as ([c' n] & -> & Hcn). cbn.
    rewrite (Hin _ _ Hcn). by rewrite (Counter_elem_of _ _ _ Hcn).
  - rewrite (Hout _ Hc). rewrite Counter_keys, count_card_pos in Hc.
    assert (count_card c l = 0%nat) as -> by lia. done.
Qed.

(** No list of 21 cards gets past the test [len(remaining) % 3 == 2]:
    the pool shrinks by three cards at a time. *)
Lemma find_win_combination_None l :
  WinChecker._find_win_combination l = Ok None.
Proof.
  unfold WinChecker._find_win_combination. case_bool_decide as Hlen; [done|].
  unfold WinChecker.find_win_combination_body.
  destruct (forced_groups_ok l) as (rem & -> & Hrem & _). rewrite bind_Ok.
  rewrite bool_decide_eq_false_2; [done|].
  rewrite Hlen in Hrem.
  intros Hmod. pose proof (Nat.div_mod_eq (length rem) 3) as Hdm.
  rewrite Hmod in Hdm. revert Hdm. generalize (length rem `div` 3)%nat. lia.
Qed.

Lemma forced_of_lengths items : Forall (λ g, length g = 3%nat) (forced_of items).
Proof.
  apply Forall_forall. intros g ([c n] & _ & Hf)%list_elem_of_omap.
  destruct (is_forced n); [|done]. by inversion Hf.
Qed.

Lemma forced_of_class l c :
  is_forced (count_card c l) = true →
  filter (λ g, c ∈ g) (forced_of (Counter l)) = [[c; c; c]].
Proof.
  intros Hforced. unfold forced_of.
  apply (filter_omap_single _ _ _ c (count_card c l)).
  - apply Counter_NoDup.
  - assert (c ∈ (Counter l).*1) as ([c' n] & -> & Hin)%list_elem_of_fmap.
    { apply Counter_keys, count_card_pos.
      unfold is_forced in Hforced. apply bool_decide_eq_true in Hforced. lia. }
    cbn. by rewrite <- (Counter_elem_of _ _ _ Hin).
  - by rewrite Hforced.
  - apply list_elem_of_here.
  - intros k n g _ Hne Hg Hin. destruct (is_forced n); [|done].
    inversion Hg; subst. apply (elem_of_replicate_inv c 3 k) in Hin. done.
Qed.

Lemma forced_of_triples items : Forall (λ g, ∃ c, g = [c; c; c]) (forced_of items).
Proof.
  apply Forall_forall. intros g ([c n] & _ & Hf)%list_elem_of_omap.
  destruct (is_forced n); [|done]. inversion Hf. by exists c.
Qed.
End forced_groups_facts.

Section find_triplets_facts.
Lemma card_key_inj x y : PatternMatcher.card_key x = PatternMatcher.card_key y ↔ x = y.
Proof.
  destruct x, y. unfold PatternMatcher.card_key. cbn. split; intros H; by inversion H.
Qed.

Lemma filter_card_key l c :
  filter (λ x, PatternMatcher.card_key x = PatternMatcher.card_key c) l =
  replicate (count_card c l) c.
Proof.
  rewrite <- filter_eq_replicate. apply list_filter_iff. intros x. apply card_key_inj.
Qed.

Lemma find_triplets_class l c :
  (3 ≤ count_card c l)%nat →
  filter (λ g, c ∈ g) (PatternMatcher.find_triplets l) = [[c; c; c]].
Proof.
  intros Hc. unfold PatternMatcher.find_triplets.
  apply (filter_omap_single _ _ _ (PatternMatcher.card_key c) (replicate (count_card c l) c)).
  - apply group_by_NoDup.
  - apply group_by_elem_of. rewrite filter_card_key. split; [|done].
    destruct (count_card c l); [lia|done].
  - rewrite bool_decide_eq_true_2 by (rewrite length_replicate; lia).
    rewrite take_replicate. by replace (3 `min` count_card c l)%nat with 3%nat by lia.
  - apply list_elem_of_here.
  - intros k vs g [_ ->]%group_by_elem_of Hne Hg Hin.
    case_bool_decide; [|done]. inversion Hg; subst g.
    apply subseteq_take, list_elem_of_filter in Hin as [Hk _]. done.
Qed.

Lemma find_triplets_lengths l :
  Forall (λ g, length g = 3%nat) (PatternMatcher.find_triplets l).
Proof.
  apply Forall_forall. intros g ([k vs] & _ & Hf)%list_elem_of_omap.
  case_bool_decide; [|done]. inversion Hf. rewrite length_take. lia.
Qed.
End find_triplets_facts.

(** C4. In the forced-group extraction of [_find_win_combination], a class
    of exactly four equal tiles commits exactly three of them as one forced
    triplet and leaves exactly one of them in the pool, and a class of exactly
    three is committed whole; every forced group has three tiles, so there
    is no four-tile group and no two-tile remnant. [PatternMatcher.find_triplets]
    likewise yields one three-tile triplet for such a class. *)
Theorem forced_groups_of_three_or_four (l : list Card) (c : Card) :
  (count_card c l = 3 ∨ count_card c l = 4)%nat →
  ∃ forced_triplets remaining,
    WinChecker.forced_groups l = Ok (forced_triplets, remaining) ∧
    Forall (λ g, length g = 3%nat) forced_triplets ∧
    filter (λ g, c ∈ g) forced_triplets = [[c; c; c]] ∧
    (count_card c l = 4%nat → count_card c remaining = 1%nat) ∧
    (count_card c l = 3%nat → count_card c remaining = 0%nat) ∧
    Forall (λ g, length g = 3%nat) (PatternMatcher.find_triplets l) ∧
    filter (λ g, c ∈ g) (PatternMatcher.find_triplets l) = [[c; c; c]].
Proof.
  intros Hc. destruct (forced_groups_ok l) as (rem & Hrun & _ & Hcount).
  assert (is_forced (count_card c l) = true) as Hforced
    by (by apply bool_decide_eq_true).
  specialize (Hcount c). rewrite Hforced in Hcount.
  exists (forced_of (Counter l)), rem. split_and!.
  - done.
  - apply forced_of_lengths.
  - by apply forced_of_class.
  - lia.
  - lia.
  - apply find_triplets_lengths.
  - apply find_triplets_class. lia.
Qed.

Lemma forced_groups_of_three_or_four_witness :
  ∃ forced_triplets remaining,
    WinChecker.forced_groups
      [minor 4; major 2; minor 4; minor 4; major 2; minor 4; major 2] =
      Ok (forced_triplets, remaining) ∧
    filter (λ g, minor 4 ∈ g) forced_triplets = [[minor 4; minor 4; minor 4]] ∧
    count_card (minor 4) remaining = 1%nat.
Proof.
  destruct (forced_groups_of_three_or_four
              [minor 4; major 2; minor 4; minor 4; major 2; minor 4; major 2] (minor 4))
    as (ft & rem & Hrun & _ & Hft & Hrem & _).
  - right. reflexivity.
  - exists ft, rem. split_and!; [exact Hrun|exact Hft|apply Hrem; reflexivity].
Defined.

(** ** The win query *)

(** X1. [can_win] answers [(False, 0, None)] on every hand:
    [_find_win_combination] demands 21 cards, and 21 cards less a multiple
    of three never leave a pool of two more than a multiple of three. *)
Theorem can_win_always_rejects (hand : Hand) :
  WinChecker.can_win hand = Ok (false, 0, None).
Proof. unfold WinChecker.can_win. by rewrite find_win_combination_None. Qed.

(** C1. The size test of the win query counts the concealed tiles and the
    drawn tile only, not the tiles of committed groups. A hand of 21 tiles
    of which four sit in a committed group is turned down by that test
    (17 is not 21), although the search that follows the test decomposes
    its 17 free tiles and the verdict on that decomposition, the committed
    group included, is a win with 21 huxi. A hand of 24 tiles of which 21
    are free passes the test. *)
Theorem can_win_ignores_committed_tiles :
  (Hand.get_total_count committed_ti_hand = 21%nat ∧
   WinChecker.all_cards committed_ti_hand = seventeen_tiles ∧
   bool_decide (length (WinChecker.all_cards committed_ti_hand) ≠ 21%nat) = true ∧
   WinChecker.can_win committed_ti_hand = Ok (false, 0, None) ∧
   (win_combination ← WinChecker.find_win_combination_body
                         (WinChecker.all_cards committed_ti_hand);
    WinChecker.win_verdict (WinChecker.all_cards committed_ti_hand)
                           (exposed_groups committed_ti_hand) win_combination) =
     Ok (true, 21, Some seventeen_combination)) ∧
  (Hand.get_total_count overfull_hand = 24%nat ∧
   bool_decide (length (WinChecker.all_cards overfull_hand) ≠ 21%nat) = false).
Proof. split_and!; by vm_compute. Qed.

(** ** The search for sequences *)

Section search_facts.
Implicit Types (cards seq : list Card).

Lemma remove_first_length_le c l : (length (remove_first c l) ≤ length l)%nat.
Proof.
  induction l as [|x l IH]; [done|]. cbn. case_decide; cbn; lia.
Qed.

Lemma remove_cards_from_list_length_le cards seq :
  (length (PatternMatcher.remove_cards_from_list cards seq) ≤ length cards)%nat.
Proof.
  unfold PatternMatcher.remove_cards_from_list. revert cards.
  induction seq as [|c seq IH]; intros cards; [done|]. cbn [fold_left].
  etrans; [apply IH|]. case_decide; [apply remove_first_length_le|done].
Qed.

Lemma remove_cards_from_list_length_lt cards seq :
  seq ≠ [] → WinChecker.all_in cards seq = true →
  (length (PatternMatcher.remove_cards_from_list cards seq) < length cards)%nat.
Proof.
  destruct seq as [|c seq]; [done|]. intros _ Hall.
  unfold WinChecker.all_in in Hall. cbn in Hall.
  apply andb_true_iff in Hall as [Hc%bool_decide_eq_true _].
  unfold PatternMatcher.remove_cards_from_list. cbn [fold_left].
  rewrite decide_True by done.
  pose proof (remove_cards_from_list_length_le (remove_first c cards) seq) as Hle.
  unfold PatternMatcher.remove_cards_from_list in Hle.
  pose proof (remove_first_length c cards Hc). lia.
Qed.

Lemma find_sequences_nonempty cards seq :
  seq ∈ PatternMatcher.find_sequences cards → seq ≠ [].
Proof.
  unfold PatternMatcher.find_sequences, PatternMatcher.find_sequences_case.
  rewrite !elem_of_app, !list_elem_of_omap.
  intros [[(sp & Hsp & Hm)|([[v1 v2] v3] & _ & Hm)]|[(sp & Hsp & Hm)|([[v1 v2] v3] & _ & Hm)]];
    repeat case_match; try done;
    apply length_mapM in Hm; intros ->; cbn in Hm;
    try lia.
  all: unfold Config.SPECIAL_SEQUENCES in Hsp;
    apply elem_of_cons in Hsp as [->|Hsp%list_elem_of_singleton]; subst; cbn in Hm; lia.
Qed.

Lemma existsb_ext_in {A} (f g : A → bool) (l : list A) :
  (∀ x, x ∈ l → f x = g x) → existsb f l = existsb g l.
Proof.
  induction l as [|a l IH]; [done|]. intros Hfg. cbn.
  rewrite (Hfg a) by apply list_elem_of_here.
  rewrite IH; [done|]. intros x Hx. by apply Hfg, list_elem_of_further.
Qed.

Lemma first_some_ext_in {A B} (f g : A → option B) (l : list A) :
  (∀ x, x ∈ l → f x = g x) → first_some f l = first_some g l.
Proof.
  induction l as [|a l IH]; [done|]. intros Hfg. cbn.
  rewrite (Hfg a) by apply list_elem_of_here.
  rewrite IH; [done|]. intros x Hx. by apply Hfg, list_elem_of_further.
Qed.

(** Fuel beyond the length of the list changes nothing. *)
Lemma try_form_sequences_fuel n m cards :
  (length cards ≤ n)%nat → (length cards ≤ m)%nat →
  WinChecker._try_form_sequences_recursive_fuel n cards =
  WinChecker._try_form_sequences_recursive_fuel m cards.
Proof.
  revert m cards. induction n as [|n IH]; intros m cards Hn Hm.
  - destruct cards; [|cbn in Hn; lia]. by destruct m.
  - destruct m as [|m].
    { destruct cards; [done|cbn in Hm; lia]. }
    cbn [WinChecker._try_form_sequences_recursive_fuel].
    case_bool_decide; [done|]. case_bool_decide; [|done]. cbn [negb].
    apply existsb_ext_in. intros seq Hseq.
    destruct (WinChecker.all_in cards seq) eqn:Hall; [|done].
    pose proof (remove_cards_from_list_length_lt cards seq
                  (find_sequences_nonempty _ _ Hseq) Hall).
    apply IH; lia.
Qed.

Lemma find_all_sequences_fuel n m cards :
  (length cards ≤ n)%nat → (length cards ≤ m)%nat →
  WinChecker._find_all_sequences_fuel n cards =
  WinChecker._find_all_sequences_fuel m cards.
Proof.
  revert m cards. induction n as [|n IH]; intros m cards Hn Hm.
  - destruct cards; [|cbn in Hn; lia]. by destruct m.
  - destruct m as [|m].
    { destruct cards; [done|cbn in Hm; lia]. }
    cbn [WinChecker._find_all_sequences_fuel].
    case_bool_decide; [done|]. case_bool_decide; [|done]. cbn [negb].
    apply first_some_ext_in. intros seq Hseq.
    destruct (WinChecker.all_in cards seq) eqn:Hall; [|done].
    pose proof (remove_cards_from_list_length_lt cards seq
                  (find_sequences_nonempty _ _ Hseq) Hall).
    rewrite (IH m); [done|lia..].
Qed.

(** [_try_form_sequences_recursive] satisfies the equation its Python
    body states. *)
Lemma try_form_sequences_recursive_eq cards :
  WinChecker._try_form_sequences_recursive cards =
  if bool_decide (length cards = 0%nat) then true
  else if negb (bool_decide (length cards `mod` 3 = 0)%nat) then false
  else existsb (λ seq,
                  if WinChecker.all_in cards seq then
                    WinChecker._try_form_sequences_recursive
                      (PatternMatcher.remove_cards_from_list cards seq)
                  else false) (PatternMatcher.find_sequences cards).
Proof.
  unfold WinChecker._try_form_sequences_recursive.
  destruct cards as [|c cards]; [done|]. cbn [length].
  cbn [WinChecker._try_form_sequences_recursive_fuel length].
  case_bool_decide; [done|]. case_bool_decide; [|done]. cbn [negb].
  apply existsb_ext_in. intros seq Hseq.
  destruct (WinChecker.all_in (c :: cards) seq) eqn:Hall; [|done].
  pose proof (remove_cards_from_list_length_lt (c :: cards) seq
                (find_sequences_nonempty _ _ Hseq) Hall) as Hlt.
  cbn [length] in Hlt. apply try_form_sequences_fuel; lia.
Qed.

Lemma find_all_sequences_eq cards :
  WinChecker._find_all_sequences cards =
  if bool_decide (length cards = 0%nat) then Some []
  else if negb (bool_decide (length cards `mod` 3 = 0)%nat) then None
  else first_some (λ seq,
                     if WinChecker.all_in cards seq then
                       match WinChecker._find_all_sequences
                               (PatternMatcher.remove_cards_from_list cards seq) with
                       | Some rest_seqs => Some (seq :: rest_seqs)
                       | None => None
                       end
                     else None) (PatternMatcher.find_sequences cards).
Proof.
  unfold WinChecker._find_all_sequences.
  destruct cards as [|c cards]; [done|]. cbn [length].
  cbn [WinChecker._find_all_sequences_fuel length].
  case_bool_decide; [done|]. case_bool_decide; [|done]. cbn [negb].
  apply first_some_ext_in. intros seq Hseq.
  destruct (WinChecker.all_in (c :: cards) seq) eqn:Hall; [|done].
  pose proof (remove_cards_from_list_length_lt (c :: cards) seq
                (find_sequences_nonempty _ _ Hseq) Hall) as Hlt.
  cbn [length] in Hlt.
  rewrite (find_all_sequences_fuel (length cards)
             (length (PatternMatcher.remove_cards_from_list (c :: cards) seq)));
    [done|lia..].
Qed.
End search_facts.

(** ** The verdict *)

Section verdict_facts.
Lemma calculate_triplet_huxi_ok c exposed :
  ∃ x, HuxiCalculator.calculate_triplet_huxi [c; c; c] exposed = Ok x.
Proof.
  huxi_eval. destruct exposed; eauto.
Qed.

Lemma calculate_quadruplet_huxi_ok c exposed :
  ∃ x, HuxiCalculator.calculate_quadruplet_huxi [c; c; c; c] exposed = Ok x.
Proof.
  huxi_eval. destruct exposed; eauto.
Qed.

Lemma group_huxi_ok g : well_formed_group g → ∃ x, HuxiCalculator.group_huxi g = Ok x.
Proof.
  unfold well_formed_group, HuxiCalculator.group_huxi.
  destruct (Group.type g); try intros [c ->];
    eauto using calculate_triplet_huxi_ok, calculate_quadruplet_huxi_ok.
Qed.

Lemma exposed_huxi_ok t gs :
  Forall well_formed_group gs → ∃ h, HuxiCalculator.exposed_huxi t gs = Ok h.
Proof.
  intros Hwf. revert t. induction Hwf as [|g gs Hg _ IH]; intros t; [by exists t|].
  destruct (group_huxi_ok g Hg) as [x Hx].
  unfold HuxiCalculator.exposed_huxi in *. cbn [foldlM]. rewrite Hx, !bind_Ok. apply IH.
Qed.
End verdict_facts.

(** C3. On a hand of 21 tiles that has a structurally complete decomposition
    (well-formed committed groups, and the free tiles rearranged into
    triplets, valid sequences and one pair), [can_win] returns
    [(false, 0, None)], not the huxi and the combination: with 6 huxi, where
    the verdict on the decomposition is [(false, 6, combination)], and with
    21 huxi, where it is [(true, 21, combination)]. The search that follows
    the size test of [_find_win_combination] finds both decompositions, and
    [calculate_win_huxi] computes both totals without raising. *)
Theorem can_win_loses_found_decomposition :
  (Hand.get_total_count complete_low_hand = 21%nat ∧
   Forall well_formed_group (exposed_groups complete_low_hand) ∧
   WinChecker.all_cards complete_low_hand ≡ₚ
     concat (WinCombination.triplets low_combination) ++
     concat (WinCombination.sequences low_combination) ++
     WinCombination.pair low_combination ∧
   Forall (λ seq, PatternMatcher.is_valid_sequence seq = true)
          (WinCombination.sequences low_combination) ∧
   WinChecker.find_win_combination_body (WinChecker.all_cards complete_low_hand) =
     Ok (Some low_combination) ∧
   HuxiCalculator.calculate_win_huxi (WinChecker.all_cards complete_low_hand)
     (exposed_groups complete_low_hand) low_combination = Ok 6 ∧
   WinChecker.win_verdict (WinChecker.all_cards complete_low_hand)
     (exposed_groups complete_low_hand) (Some low_combination) =
     Ok (false, 6, Some low_combination) ∧
   WinChecker.can_win complete_low_hand = Ok (false, 0, None)) ∧
  (Hand.get_total_count committed_ti_hand = 21%nat ∧
   Forall well_formed_group (exposed_groups committed_ti_hand) ∧
   WinChecker.all_cards committed_ti_hand ≡ₚ
     concat (WinCombination.triplets seventeen_combination) ++
     concat (WinCombination.sequences seventeen_combination) ++
     WinCombination.pair seventeen_combination ∧
   Forall (λ seq, PatternMatcher.is_valid_sequence seq = true)
          (WinCombination.sequences seventeen_combination) ∧
   WinChecker.find_win_combination_body (WinChecker.all_cards committed_ti_hand) =
     Ok (Some seventeen_combination) ∧
   HuxiCalculator.calculate_win_huxi (WinChecker.all_cards committed_ti_hand)
     (exposed_groups committed_ti_hand) seventeen_combination = Ok 21 ∧
   WinChecker.win_verdict (WinChecker.all_cards committed_ti_hand)
     (exposed_groups committed_ti_hand) (Some seventeen_combination) =
     Ok (true, 21, Some seventeen_combination) ∧
   WinChecker.can_win committed_ti_hand = Ok (false, 0, None)).
Proof.
  assert (∀ seqs, forallb PatternMatcher.is_valid_sequence seqs = true →
            Forall (λ seq, PatternMatcher.is_valid_sequence seq = true) seqs) as Hvalid.
  { intros seqs Hall. apply Forall_forall. intros seq Hin%list_elem_of_In.
    by apply (proj1 (forallb_forall _ _) Hall). }
  assert (∀ hand, WinChecker.can_win hand = Ok (false, 0, None)) as Hrejects.
  { intros hand. unfold WinChecker.can_win. by rewrite find_win_combination_None. }
  split; split_and!.
  - vm_compute. reflexivity.
  - repeat constructor. by exists (minor 10).
  - apply (bool_decide_unpack _). vm_compute. exact I.
  - apply Hvalid. vm_compute. reflexivity.
  - vm_compute. reflexivity.
  - vm_compute. reflexivity.
  - vm_compute. reflexivity.
  - apply Hrejects.
  - vm_compute. reflexivity.
  - repeat constructor. by exists (major 5).
  - apply (bool_decide_unpack _). vm_compute. exact I.
  - apply Hvalid. vm_compute. reflexivity.
  - vm_compute. reflexivity.
  - vm_compute. reflexivity.
  - vm_compute. reflexivity.
  - apply Hrejects.
Qed.

(** ** Scores *)

(** C5. The huxi of a triplet is 3 (minor) or 6 (major) when concealed and
    1 or 3 when exposed; that of a quadruplet is 9 or 12 when concealed and
    6 or 9 when exposed. A total below 15 huxi scores 0 points, and from 15
    on it scores 1 plus the floor of (huxi - 15) / 3: 15 gives 1, 18 gives 2
    and 27 gives 5. *)
Theorem huxi_table_and_score (c : Card) :
  HuxiCalculator.calculate_triplet_huxi [c; c; c] false =
    Ok (if is_uppercase c then 6 else 3) ∧
  HuxiCalculator.calculate_triplet_huxi [c; c; c] true =
    Ok (if is_uppercase c then 3 else 1) ∧
  HuxiCalculator.calculate_quadruplet_huxi [c; c; c; c] false =
    Ok (if is_uppercase c then 12 else 9) ∧
  HuxiCalculator.calculate_quadruplet_huxi [c; c; c; c] true =
    Ok (if is_uppercase c then 9 else 6) ∧
  (∀ h, h < 15 → ScoreCalculator.calculate_score h = 0) ∧
  (∀ h, 15 ≤ h → ScoreCalculator.calculate_score h = 1 + (h - 15) `div` 3) ∧
  ScoreCalculator.calculate_score 15 = 1 ∧
  ScoreCalculator.calculate_score 18 = 2 ∧
  ScoreCalculator.calculate_score 27 = 5.
Proof.
  huxi_eval. split_and!; try done.
  - intros h Hh. unfold ScoreCalculator.calculate_score, Config.MIN_HUXI_TO_WIN.
    by rewrite (proj2 (Z.ltb_lt _ _)).
  - intros h Hh. unfold ScoreCalculator.calculate_score, Config.MIN_HUXI_TO_WIN.
    by rewrite (proj2 (Z.ltb_ge _ _)).
Qed.

Section huxi_sums.
Lemma exposed_huxi_cons t g gs :
  HuxiCalculator.exposed_huxi t (g :: gs) =
  h ← HuxiCalculator.group_huxi g; HuxiCalculator.exposed_huxi (t + h) gs.
Proof.
  unfold HuxiCalculator.exposed_huxi. cbn [foldlM].
  destruct (HuxiCalculator.group_huxi g); reflexivity.
Qed.

Lemma exposed_huxi_app t gs1 gs2 :
  HuxiCalculator.exposed_huxi t (gs1 ++ gs2) =
  t' ← HuxiCalculator.exposed_huxi t gs1; HuxiCalculator.exposed_huxi t' gs2.
Proof.
  revert t. induction gs1 as [|g gs1 IH]; intros t; [done|].
  rewrite <- app_comm_cons, !exposed_huxi_cons.
  destruct (HuxiCalculator.group_huxi g); [|done]. rewrite !bind_Ok. apply IH.
Qed.

Lemma exposed_huxi_shift k t gs h :
  HuxiCalculator.exposed_huxi t gs = Ok h →
  HuxiCalculator.exposed_huxi (t + k) gs = Ok (h + k).
Proof.
  revert t. induction gs as [|g gs IH]; intros t.
  - cbn. by intros [= ->].
  - rewrite !exposed_huxi_cons. destruct (HuxiCalculator.group_huxi g) as [x|]; [|done].
    rewrite !bind_Ok. intros Hh. replace (t + k + x) with (t + x + k) by lia. by apply IH.
Qed.

Lemma triplets_huxi_shift k t ts h :
  foldlM (λ total triplet, x ← HuxiCalculator.calculate_triplet_huxi triplet false; Ok (total + x)) t ts = Ok h →
  foldlM (λ total triplet, x ← HuxiCalculator.calculate_triplet_huxi triplet false; Ok (total + x)) (t + k) ts = Ok (h + k).
Proof.
  revert t. induction ts as [|g gs IH]; intros t.
  - cbn. by intros [= ->].
  - cbn [foldlM]. destruct (HuxiCalculator.calculate_triplet_huxi g false) as [x|]; [|done].
    rewrite !bind_Ok. intros Hh. replace (t + k + x) with (t + x + k) by lia. by apply IH.
Qed.

Lemma sequences_huxi_shift k t ss :
  fold_left (λ total sequence, total + HuxiCalculator.calculate_sequence_huxi sequence) ss (t + k) =
  fold_left (λ total sequence, total + HuxiCalculator.calculate_sequence_huxi sequence) ss t + k.
Proof.
  revert t. induction ss as [|s ss IH]; intros t; [done|].
  cbn. rewrite <- IH. f_equal. lia.
Qed.

(** Replacing one committed group by another moves the win huxi by the
    difference of their values. *)
Lemma calculate_win_huxi_replace all_cards gs1 g gs2 g' w x x' h :
  HuxiCalculator.group_huxi g = Ok x →
  HuxiCalculator.group_huxi g' = Ok x' →
  HuxiCalculator.calculate_win_huxi all_cards (gs1 ++ g :: gs2) w = Ok h →
  HuxiCalculator.calculate_win_huxi all_cards (gs1 ++ gs2 ++ [g']) w = Ok (h - x + x').
Proof.
  intros Hg Hg'. unfold HuxiCalculator.calculate_win_huxi.
  rewrite !exposed_huxi_app.
  destruct (HuxiCalculator.exposed_huxi 0 gs1) as [t1|] eqn:H1; [|done].
  rewrite !bind_Ok, exposed_huxi_cons, Hg, bind_Ok.
  destruct (HuxiCalculator.exposed_huxi (t1 + x) gs2) as [t2|] eqn:H2; [|done].
  rewrite !bind_Ok.
  apply (exposed_huxi_shift (- x)) in H2.
  replace (t1 + x + - x) with t1 in H2 by lia.
  rewrite exposed_huxi_app, H2, bind_Ok.
  rewrite exposed_huxi_cons, Hg', bind_Ok. cbn [HuxiCalculator.exposed_huxi foldlM].
  rewrite bind_Ok.
  destruct (foldlM _ t2 _) as [t3|] eqn:H3; [|done]. rewrite bind_Ok. intros [= <-].
  apply (triplets_huxi_shift (- x + x')) in H3.
  replace (t2 + - x + x') with (t2 + (- x + x')) by lia. rewrite H3, bind_Ok.
  f_equal. rewrite sequences_huxi_shift. lia.
Qed.
End huxi_sums.

(** ** Upgrading a wei *)

(** C6. When the drawn tile matches a committed wei of three equal tiles,
    [do_ti] removes that group and appends one ti group of four tiles, the
    three of the wei and the drawn one, and clears the drawn tile; the
    concealed tiles stay. The new group is worth the concealed-quadruplet
    huxi (12 major, 9 minor), and in a win the total moves from the wei's
    value to the ti's: the three tiles are not scored a second time. *)
Theorem do_ti_upgrades_wei (self : Player) (d : Card) (i : nat) (g : Group) :
  drawn_card (hand self) = Some d →
  list_find (Hand.is_wei_of d) (exposed_groups (hand self)) = Some (i, g) →
  Group.cards g = [d; d; d] →
  let ti_group := Group.mk ti [d; d; d; d] false in
  ∃ self',
    Player.do_ti self = (Ok (), self') ∧
    exposed_groups (hand self') = delete i (exposed_groups (hand self)) ++ [ti_group] ∧
    drawn_card (hand self') = None ∧
    cards (hand self') = cards (hand self) ∧
    HuxiCalculator.group_huxi ti_group = Ok (if is_uppercase d then 12 else 9) ∧
    ∀ all_cards w h,
      HuxiCalculator.calculate_win_huxi all_cards (exposed_groups (hand self)) w = Ok h →
      HuxiCalculator.calculate_win_huxi all_cards (exposed_groups (hand self')) w =
        Ok (h - (if is_uppercase d then 6 else 3) + (if is_uppercase d then 12 else 9)).
Proof.
  intros Hd Hfind Hg ti_group.
  pose proof Hfind as (Hi & Hwei & _)%list_find_Some.
  assert (Player.can_ti self = true) as Hcan.
  { unfold Player.can_ti, Hand.can_ti. rewrite Hd. case_bool_decide; [done|].
    apply existsb_exists. exists g. split; [|by apply bool_decide_eq_true].
    apply list_elem_of_In. by eapply list_elem_of_lookup_2. }
  destruct self as [pid hum [cs dr gs] sc dl]. cbn in *. subst dr.
  eexists. split.
  { unfold Player.do_ti. unfold mbind, st_bind, get. cbn [hand]. rewrite Hcan. cbn.
    rewrite Hfind. cbn. rewrite Hi. cbn. rewrite Hg. reflexivity. }
  cbn. split_and!; try done.
  - by huxi_eval.
  - intros all_cards w h Hh.
    rewrite delete_take_drop, <- app_assoc.
    rewrite <- (take_drop_middle gs i g Hi) in Hh.
    apply (calculate_win_huxi_replace all_cards (take i gs) g (drop (S i) gs) ti_group w
             (if is_uppercase d then 6 else 3) (if is_uppercase d then 12 else 9) h);
      [| |exact Hh].
    + destruct g as [ty gc co]. destruct Hwei as [Hty _]. cbn in *. subst.
      by huxi_eval.
    + by huxi_eval.
Qed.

Lemma do_ti_upgrades_wei_witness :
  ∃ self',
    Player.do_ti wei_upgrade_player = (Ok (), self') ∧
    exposed_groups (hand self') =
      [Group.mk chi [minor 4; minor 5; minor 6] false;
       Group.mk ti [major 5; major 5; major 5; major 5] false] ∧
    drawn_card (hand self') = None ∧
    HuxiCalculator.group_huxi (Group.mk ti [major 5; major 5; major 5; major 5] false) =
      Ok 12.
Proof.
  destruct (do_ti_upgrades_wei wei_upgrade_player (major 5) 1
              (Group.mk wei [major 5; major 5; major 5] true))
    as (self' & Hrun & Hgroups & Hdrawn & _ & Hhuxi & _).
  - reflexivity.
  - reflexivity.
  - reflexivity.
  - exists self'. split_and!; [exact Hrun|exact Hgroups|exact Hdrawn|exact Hhuxi].
Defined.

(** ** Legality of pao *)

Section can_pao_facts.
Implicit Types (d : Card) (g : Group) (gs : list Group).


End can_pao_facts.



(** ** Sequences and chi *)

Section sorting_facts.
Implicit Types (x y : Z) (l : list Z).

Lemma sorted_cons x l : sorted (x :: l) = sorted_insert x (sorted l).
Proof. done. Qed.

Lemma sorted_insert_perm x l : sorted_insert x l ≡ₚ x :: l.
Proof.
  induction l as [|y l IH]; [done|]. cbn.
  destruct (x <=? y); [done|]. rewrite IH. apply Permutation_swap.
Qed.

Lemma sorted_perm l : sorted l ≡ₚ l.
Proof.
  induction l as [|x l IH]; [done|]. by rewrite sorted_cons, sorted_insert_perm, IH.
Qed.

Lemma sorted_insert_comm x y l :
  sorted_insert x (sorted_insert y l) = sorted_insert y (sorted_insert x l).
Proof.
  induction l as [|z l IH]; cbn;
    repeat (match goal with
            | |- context [?a <=? ?b] => destruct (Z.leb_spec a b); cbn
            end);
    first [lia | by rewrite IH | repeat f_equal; lia].
Qed.

Lemma sorted_proper l1 l2 : l1 ≡ₚ l2 → sorted l1 = sorted l2.
Proof.
  induction 1 as [|x l1 l2 _ IH|x y l|l1 l2 l3 _ IH1 _ IH2].
  - done.
  - by rewrite !sorted_cons, IH.
  - rewrite !sorted_cons. apply sorted_insert_comm.
  - congruence.
Qed.

Lemma sorted_three v0 v1 v2 : v0 ≤ v1 → v1 ≤ v2 → sorted [v0; v1; v2] = [v0; v1; v2].
Proof.
  intros H01 H12. cbn.
  rewrite (proj2 (Z.leb_le v1 v2)) by done. cbn.
  by rewrite (proj2 (Z.leb_le v0 v1)).
Qed.
End sorting_facts.

Lemma sequence_values_sorted v0 v1 v2 : Spec.sequence_values v0 v1 v2 → v0 ≤ v1 ∧ v1 ≤ v2.
Proof. unfold Spec.sequence_values. lia. Qed.

Lemma is_valid_sequence_spec (t0 t1 t2 : Card) :
  valid_card t0 → valid_card t1 → valid_card t2 →
  PatternMatcher.is_valid_sequence [t0; t1; t2] = true ↔ Spec.valid_sequence t0 t1 t2.
Proof.
  intros Hv0 Hv1 Hv2. unfold PatternMatcher.is_valid_sequence, Spec.valid_sequence.
  rewrite bool_decide_eq_true_2 by done. cbn [negb length].
  unfold PatternMatcher.same_case. cbn [forallb].
  rewrite (bool_decide_eq_true_2 (is_uppercase t0 = _)) by done. cbn [andb].
  rewrite andb_true_r.
  destruct (decide (is_uppercase t1 = is_uppercase t0)) as [E1|E1];
    [rewrite (bool_decide_eq_true_2 _ E1)|rewrite (bool_decide_eq_false_2 _ E1)];
    cbn [andb negb]; [|split; [done|by intros (? & ? & _)]].
  destruct (decide (is_uppercase t2 = is_uppercase t0)) as [E2|E2];
    [rewrite (bool_decide_eq_true_2 _ E2)|rewrite (bool_decide_eq_false_2 _ E2)];
    cbn [andb negb]; [|split; [done|by intros (? & ? & _)]].
  change (value <$> [t0; t1; t2]) with [value t0; value t1; value t2].
  pose proof (sorted_perm [value t0; value t1; value t2]) as Hperm.
  split.
  - intros Hcode. split_and!; [done..|].
    destruct (sorted [value t0; value t1; value t2]) as [|v0 [|v1 [|v2 [|? ?]]]] eqn:Hs;
      try (apply Permutation_length in Hperm; cbn in Hperm; lia).
    exists v0, v1, v2. split; [done|].
    case_bool_decide as Hsp.
    + unfold Config.SPECIAL_SEQUENCES in Hsp.
      apply elem_of_cons in Hsp as [Hsp|Hsp%list_elem_of_singleton];
        inversion Hsp; subst; unfold Spec.sequence_values; lia.
    + apply andb_true_iff in Hcode as [H1%bool_decide_eq_true H2%bool_decide_eq_true].
      left. assert (Forall (λ v, 1 ≤ v ≤ 10) [v0; v1; v2]) as Hrange.
      { rewrite Hperm. repeat constructor; [apply Hv0|apply Hv0|apply Hv1|apply Hv1|apply Hv2|apply Hv2]. }
      inversion Hrange as [|? ? Hr0 Hrange']; subst.
      inversion Hrange' as [|? ? Hr1 Hrange'']; subst.
      inversion Hrange'' as [|? ? Hr2 _]; subst. lia.
  - intros (_ & _ & v0 & v1 & v2 & Hp & Hsv).
    destruct (sequence_values_sorted _ _ _ Hsv) as [H01 H12].
    rewrite (sorted_proper _ _ Hp), sorted_three by done.
    case_bool_decide as Hsp; [done|].
    destruct Hsv as [(_ & -> & -> & _)|[(-> & -> & ->)|(-> & -> & ->)]].
    + by rewrite !bool_decide_eq_true_2.
    + destruct Hsp. unfold Config.SPECIAL_SEQUENCES. apply list_elem_of_here.
    + destruct Hsp. unfold Config.SPECIAL_SEQUENCES. apply list_elem_of_further, list_elem_of_here.
Qed.

Section can_chi_facts.
Context (d : Card) (cs : list Card).

Lemma chi_positions_elem_of i j :
  (i, j) ∈ chi_positions d cs ↔
  (i < j)%nat ∧ ∃ c1 c2, cs !! i = Some c1 ∧ cs !! j = Some c2 ∧
                         PatternMatcher.is_valid_sequence [d; c1; c2] = true.
Proof.
  unfold chi_positions. rewrite list_elem_of_bind. split.
  - intros (i' & (j' & Hin & Hj)%list_elem_of_bind & Hi).
    apply elem_of_seq in Hi, Hj.
    destruct (cs !! i') as [c1|] eqn:H1; [|by apply elem_of_nil in Hin].
    destruct (cs !! j') as [c2|] eqn:H2; [|by apply elem_of_nil in Hin].
    destruct (PatternMatcher.is_valid_sequence [d; c1; c2]) eqn:Hv;
      [|by apply elem_of_nil in Hin].
    apply list_elem_of_singleton in Hin. inversion Hin; subst.
    split; [lia|]. by exists c1, c2.
  - intros (Hij & c1 & c2 & H1 & H2 & Hv).
    pose proof (lookup_lt_Some _ _ _ H1). pose proof (lookup_lt_Some _ _ _ H2).
    exists i. split; [|apply elem_of_seq; lia].
    apply list_elem_of_bind. exists j. split; [|apply elem_of_seq; lia].
    rewrite H1, H2, Hv. apply list_elem_of_here.
Qed.

Lemma chi_positions_NoDup : NoDup (chi_positions d cs).
Proof.
  unfold chi_positions. apply NoDup_bind; [| |apply NoDup_seq].
  - intros i1 i2 [i j] _ _ (j1 & Hin1 & _)%list_elem_of_bind (j2 & Hin2 & _)%list_elem_of_bind.
    repeat case_match; try (by apply elem_of_nil in Hin1); try (by apply elem_of_nil in Hin2).
    apply list_elem_of_singleton in Hin1, Hin2. congruence.
  - intros i _. apply NoDup_bind; [| |apply NoDup_seq].
    + intros j1 j2 [i' j] _ _ Hin1 Hin2.
      repeat case_match; try (by apply elem_of_nil in Hin1); try (by apply elem_of_nil in Hin2).
      apply list_elem_of_singleton in Hin1, Hin2. congruence.
    + intros j _. repeat case_match; try apply NoDup_nil_2. apply NoDup_singleton.
Qed.

Lemma can_chi_positions (self : Player) :
  cards (hand self) = cs →
  Forall2 (λ '(i, j) response,
             ∃ c1 c2, cs !! i = Some c1 ∧ cs !! j = Some c2 ∧ response = [c1; c2])
          (chi_positions d cs) (Player.can_chi d self).
Proof.
  intros <-. unfold chi_positions, Player.can_chi.
  apply Forall2_bind, Forall_Forall2_diag, Forall_forall. intros i _.
  apply Forall2_bind, Forall_Forall2_diag, Forall_forall. intros j _.
  destruct (cards (hand self) !! i) as [c1|] eqn:H1; [|constructor].
  destruct (cards (hand self) !! j) as [c2|] eqn:H2; [|constructor].
  destruct (PatternMatcher.is_valid_sequence [d; c1; c2]); constructor; [|constructor].
  by exists c1, c2.
Qed.
End can_chi_facts.

(** C7. The answers of [can_chi] correspond one to one, in order, to the
    pairs of positions [i < j] of the concealed tiles whose two tiles form a
    valid sequence with the discarded tile: same rank, and sorted values
    either three consecutive integers within 1..10, or 1, 2, 3, or 2, 7, 10.
    No position pair occurs twice, no answer takes one position twice, and
    every tile of an answer has the rank of the discarded tile. *)
Theorem can_chi_exact (d : Card) (self : Player) :
  valid_card d →
  Forall valid_card (cards (hand self)) →
  ∃ positions : list (nat * nat),
    NoDup positions ∧
    (∀ i j, (i, j) ∈ positions ↔
            (i < j)%nat ∧
            ∃ c1 c2, cards (hand self) !! i = Some c1 ∧
                     cards (hand self) !! j = Some c2 ∧
                     Spec.valid_sequence d c1 c2) ∧
    Forall2 (λ '(i, j) response,
               ∃ c1 c2, cards (hand self) !! i = Some c1 ∧
                        cards (hand self) !! j = Some c2 ∧
                        response = [c1; c2])
            positions (Player.can_chi d self) ∧
    ∀ response c, response ∈ Player.can_chi d self → c ∈ response →
                  is_uppercase c = is_uppercase d.
Proof.
  intros Hd Hcs. rewrite Forall_forall in Hcs.
  assert (∀ i c, cards (hand self) !! i = Some c → valid_card c) as Hlk.
  { intros i c Hi. apply Hcs. by eapply list_elem_of_lookup_2. }
  exists (chi_positions d (cards (hand self))). split_and!.
  - apply chi_positions_NoDup.
  - intros i j. rewrite chi_positions_elem_of. split.
    + intros (Hij & c1 & c2 & H1 & H2 & Hv). split; [done|]. exists c1, c2.
      split_and!; [done..|]. apply is_valid_sequence_spec; eauto.
    + intros (Hij & c1 & c2 & H1 & H2 & Hv). split; [done|]. exists c1, c2.
      split_and!; [done..|]. apply is_valid_sequence_spec; eauto.
  - by apply can_chi_positions.
  - intros response c Hin Hc.
    pose proof (can_chi_positions d (cards (hand self)) self eq_refl) as HF.
    apply list_elem_of_lookup in Hin as [k Hk].
    destruct (Forall2_lookup_r _ _ _ _ _ HF Hk) as ([i j] & Hpos & c1 & c2 & H1 & H2 & ->).
    apply list_elem_of_lookup_2 in Hpos. apply chi_positions_elem_of in Hpos
      as (_ & c1' & c2' & H1' & H2' & Hv).
    assert (c1' = c1) as -> by congruence. assert (c2' = c2) as -> by congruence.
    apply is_valid_sequence_spec in Hv as (E1 & E2 & _); eauto.
    apply elem_of_cons in Hc as [->|Hc]; [done|].
    apply list_elem_of_singleton in Hc as ->. done.
Qed.

Lemma can_chi_exact_witness :
  Player.can_chi (minor 2) wei_upgrade_player =
    [[minor 1; minor 3]; [minor 1; minor 3]; [minor 3; minor 4]; [minor 3; minor 4]] ∧
  ∀ response c, response ∈ Player.can_chi (minor 2) wei_upgrade_player →
                c ∈ response → is_uppercase c = false.
Proof.
  destruct (can_chi_exact (minor 2) wei_upgrade_player)
    as (positions & _ & _ & _ & Hrank).
  - unfold valid_card. cbn. lia.
  - repeat constructor; unfold valid_card; cbn; lia.
  - split; [reflexivity|exact Hrank].
Defined.

(** ** The win query on the store *)

Section store_facts.
Import Store.
Implicit Types (σ : state) (r : loc) (m : gmap loc (list Card)).

Lemma load_run r σ : load r σ = (Ok (default [] (lists σ !! r)), σ).
Proof. done. Qed.

Lemma list_copy_run r σ :
  list_copy r σ =
  (Ok (fresh (dom (lists σ))),
   set_lists (<[fresh (dom (lists σ)) := default [] (lists σ !! r)]> (lists σ)) σ).
Proof. done. Qed.

Lemma list_append_run r x σ :
  list_append r x σ =
  (Ok (), set_lists (<[r := default [] (lists σ !! r) ++ [x]]> (lists σ)) σ).
Proof. done. Qed.

Lemma fresh_loc_None m : m !! fresh (dom m) = None.
Proof. apply not_elem_of_dom, is_fresh. Qed.

Lemma with_list_id r l σ : lists σ !! r = Some l → with_list r l σ = σ.
Proof.
  intros Hr. destruct σ as [m h]. unfold with_list, set_lists. cbn in *.
  by rewrite insert_id.
Qed.

Lemma with_list_with_list r l l' σ : with_list r l' (with_list r l σ) = with_list r l' σ.
Proof. unfold with_list, set_lists. cbn. by rewrite insert_insert_eq. Qed.

Lemma with_list_lookup r l σ : lists (with_list r l σ) !! r = Some l.
Proof. unfold with_list. cbn. apply lookup_insert_eq. Qed.

Lemma list_remove_in_run r x σ l :
  lists σ !! r = Some l →
  list_remove_in r x σ =
  match list_remove x l with
  | Ok l' => (Ok (), with_list r l' σ)
  | Raise e => (Raise e, σ)
  end.
Proof.
  intros Hr. unfold list_remove_in, mbind, st_bind, get. rewrite Hr.
  change (default [] (Some l)) with l. by destruct (list_remove x l).
Qed.

(** A loop of in-place removals on the list at [r] computes what the
    same removals compute on its contents. *)
Lemma remove_loop_run {A} (g : A → Card) (xs : list A) r σ l :
  lists σ !! r = Some l →
  ∃ l', for_each xs (λ x, list_remove_in r (g x)) σ =
          (match foldlM (λ rem x, list_remove (g x) rem) l xs with
           | Ok _ => Ok ()
           | Raise e => Raise e
           end, with_list r l' σ) ∧
        ∀ l'', foldlM (λ rem x, list_remove (g x) rem) l xs = Ok l'' → l' = l''.
Proof.
  revert σ l. induction xs as [|x xs IH]; intros σ l Hr.
  - exists l. cbn. rewrite with_list_id by done. split; [done|]. by intros ? [= ->].
  - cbn [for_each foldlM]. rewrite st_bind_run, (list_remove_in_run r (g x) σ l Hr).
    destruct (list_remove (g x) l) as [l1|e].
    + rewrite bind_Ok.
      destruct (IH (with_list r l1 σ) l1 (with_list_lookup _ _ _)) as (l' & -> & Hl').
      exists l'. by rewrite with_list_with_list.
    + exists l. rewrite with_list_id by done. split; [done|]. done.
Qed.

Lemma forced_step_run r ft item σ rem :
  lists σ !! r = Some rem →
  ∃ rem', forced_step r ft item σ =
            (forget_pool (WinChecker.forced_step (ft, rem) item), with_list r rem' σ) ∧
          ∀ ft' rem'', WinChecker.forced_step (ft, rem) item = Ok (ft', rem'') →
                       rem' = rem''.
Proof.
  intros Hr. destruct item as [card count].
  unfold forced_step, WinChecker.forced_step.
  case_bool_decide; [|case_bool_decide].
  - rewrite st_bind_run, load_run, Hr. change (default [] (Some rem)) with rem.
    rewrite st_bind_run.
    destruct (remove_loop_run (λ _ : nat, card) (seq 0 3) r σ rem Hr) as (rem' & -> & Hrem').
    exists rem'. destruct (foldlM _ rem (seq 0 3)) as [rem1|e]; cbn.
    + split; [done|]. intros ft' rem'' [= <- <-]. by apply Hrem'.
    + done.
  - rewrite st_bind_run, load_run, Hr. change (default [] (Some rem)) with rem.
    rewrite st_bind_run.
    destruct (remove_loop_run (λ c, c) (filter (λ c, c = card) rem) r σ rem Hr)
      as (rem' & -> & Hrem').
    exists rem'.
    destruct (foldlM _ rem (filter _ rem)) as [rem1|e]; cbn.
    + split; [done|]. intros ft' rem'' [= <- <-]. by apply Hrem'.
    + done.
  - exists rem. rewrite with_list_id by done. split; [done|]. by intros ? ? [= <- <-].
Qed.

Lemma forced_loop_run r items ft σ rem :
  lists σ !! r = Some rem →
  ∃ rem', fold_st (forced_step r) ft items σ =
            (forget_pool (foldlM WinChecker.forced_step (ft, rem) items),
             with_list r rem' σ) ∧
          ∀ ft' rem'', foldlM WinChecker.forced_step (ft, rem) items = Ok (ft', rem'') →
                       rem' = rem''.
Proof.
  revert ft σ rem. induction items as [|item items IH]; intros ft σ rem Hr.
  - exists rem. cbn. rewrite with_list_id by done. split; [done|]. by intros ? ? [= <- <-].
  - cbn [fold_st foldlM]. rewrite st_bind_run.
    destruct (forced_step_run r ft item σ rem Hr) as (rem1 & -> & Hrem1).
    destruct (WinChecker.forced_step (ft, rem) item) as [[ft1 rem1']|e]; cbn [forget_pool].
    + rewrite (Hrem1 _ _ eq_refl), bind_Ok.
      destruct (IH ft1 (with_list r rem1' σ) rem1' (with_list_lookup _ _ _))
        as (rem' & -> & Hrem').
      exists rem'. by rewrite with_list_with_list.
    + exists rem1. done.
Qed.

Lemma preserves_refl σ : preserves σ σ.
Proof. by split. Qed.

Lemma preserves_trans σ1 σ2 σ3 : preserves σ1 σ2 → preserves σ2 σ3 → preserves σ1 σ3.
Proof.
  intros [Hh1 Hl1] [Hh2 Hl2]. split; [congruence|].
  intros r Hr. rewrite Hl2, Hl1; [done..|]. by rewrite Hl1.
Qed.

Lemma preserves_with_list_fresh r l σ : lists σ !! r = None → preserves σ (with_list r l σ).
Proof.
  intros Hr. split; [done|]. intros r' [l' Hr']. cbn.
  rewrite lookup_insert_ne; [done|]. congruence.
Qed.

Lemma find_win_combination_run r σ cs :
  lists σ !! r = Some cs →
  ∃ σ', _find_win_combination r σ = (WinChecker._find_win_combination cs, σ') ∧
        preserves σ σ'.
Proof.
  intros Hr. unfold _find_win_combination, WinChecker._find_win_combination.
  rewrite st_bind_run, load_run, Hr. change (default [] (Some cs)) with cs.
  case_bool_decide; [exists σ; split; [done|apply preserves_refl]|].
  rewrite st_bind_run, list_copy_run, Hr. change (default [] (Some cs)) with cs.
  set (r2 := fresh (dom (lists σ))).
  assert (lists σ !! r2 = None) as Hfresh by apply fresh_loc_None.
  fold (with_list r2 cs σ). rewrite st_bind_run.
  destruct (forced_loop_run r2 (Counter cs) [] (with_list r2 cs σ) cs
              (with_list_lookup _ _ _)) as (rem' & -> & Hrem').
  rewrite with_list_with_list.
  exists (with_list r2 rem' σ). split; [|by apply preserves_with_list_fresh].
  unfold WinChecker.find_win_combination_body, WinChecker.forced_groups.
  destruct (foldlM WinChecker.forced_step ([], cs) (Counter cs)) as [[ft rem]|e];
    cbn [forget_pool]; [|done].
  rewrite (Hrem' _ _ eq_refl), bind_Ok, st_bind_run, load_run, with_list_lookup.
  change (default [] (Some rem)) with rem.
  case_bool_decide; [|done].
  by destruct (WinChecker._try_find_sequences_and_pair rem) as [[ss p]|].
Qed.

Lemma read_group_preserved σ σ' g :
  preserves σ σ' → is_Some (lists σ !! g_cards g) → read_group σ' g = read_group σ g.
Proof. intros [_ Hl] Hg. unfold read_group. by rewrite Hl. Qed.

Lemma read_groups_preserved σ σ' gs :
  preserves σ σ' → Forall (λ g, is_Some (lists σ !! g_cards g)) gs →
  read_group σ' <$> gs = read_group σ <$> gs.
Proof.
  intros Hp Hgs. induction Hgs as [|g gs Hg _ IH]; [done|].
  rewrite !fmap_cons, IH. f_equal. by apply read_group_preserved.
Qed.

Lemma hand_of_preserved σ σ' : well_formed σ → preserves σ σ' → hand_of σ' = hand_of σ.
Proof.
  intros [Hc Hgs] Hp. pose proof Hp as [Hh Hl]. unfold hand_of. rewrite Hh.
  rewrite (Hl _ Hc). f_equal. by apply read_groups_preserved.
Qed.

Lemma well_formed_preserved σ σ' : well_formed σ → preserves σ σ' → well_formed σ'.
Proof.
  intros [Hc Hgs] [Hh Hl]. unfold well_formed. rewrite Hh. split.
  - by rewrite Hl.
  - eapply Forall_impl; [exact Hgs|]. intros g Hg. cbn beta. by rewrite Hl.
Qed.

(** The store-passing [can_win] returns what the function on hands
    returns, and changes neither the hand object nor an existing list. *)
Lemma can_win_run σ :
  well_formed σ →
  ∃ σ', can_win σ = (WinChecker.can_win (hand_of σ), σ') ∧ preserves σ σ'.
Proof.
  intros [[cs Hcs] Hgs]. unfold can_win. rewrite st_bind_run. cbn [get].
  rewrite st_bind_run, list_copy_run, Hcs. change (default [] (Some cs)) with cs.
  set (r1 := fresh (dom (lists σ))).
  assert (lists σ !! r1 = None) as Hfresh by apply fresh_loc_None.
  fold (with_list r1 cs σ). rewrite st_bind_run.
  set (all := WinChecker.all_cards (hand_of σ)).
  assert (match h_drawn_card (self_hand σ) with
          | Some d => list_append r1 d
          | None => mret ()
          end (with_list r1 cs σ) = (Ok (), with_list r1 all σ)) as ->.
  { unfold all, WinChecker.all_cards, hand_of. cbn [cards drawn_card]. rewrite Hcs.
    change (default [] (Some cs)) with cs.
    destruct (h_drawn_card (self_hand σ)) as [d|].
    - rewrite list_append_run, with_list_lookup.
      change (default [] (Some cs)) with cs. f_equal. apply with_list_with_list.
    - by rewrite app_nil_r. }
  rewrite st_bind_run.
  destruct (find_win_combination_run r1 (with_list r1 all σ) all (with_list_lookup _ _ _))
    as (σ2 & -> & Hp2).
  assert (preserves σ σ2) as Hp.
  { eapply preserves_trans; [|exact Hp2]. by apply preserves_with_list_fresh. }
  exists σ2. split; [|done].
  unfold WinChecker.can_win. fold all.
  destruct (WinChecker._find_win_combination all) as [[w|]|e]; [| done..].
  rewrite bind_Ok. unfold WinChecker.win_verdict.
  rewrite st_bind_run, load_run.
  rewrite (proj2 Hp2 r1) by (rewrite with_list_lookup; eauto). rewrite with_list_lookup.
  change (default [] (Some all)) with all.
  rewrite st_bind_run. unfold load_groups. rewrite st_bind_run. cbn [get mret st_ret].
  rewrite (read_groups_preserved σ σ2) by done.
  change (exposed_groups (hand_of σ)) with (read_group σ <$> h_exposed_groups (self_hand σ)).
  destruct (HuxiCalculator.calculate_win_huxi _ _ w) as [huxi|e]; [|done].
  rewrite bind_Ok. cbn [lift]. rewrite st_bind_run. unfold mret, st_ret. cbn beta iota.
  by destruct (huxi <? Config.MIN_HUXI_TO_WIN).
Qed.
End store_facts.

(** C8. On the store of list objects, [can_win] returns what the function
    on the hand returns and leaves the hand as it was: the hand object, the
    list of concealed tiles, the drawn tile and the lists of the committed
    groups are unchanged (only new lists are allocated); a second call
    returns the same answer and again leaves the hand unchanged. *)
Theorem can_win_non_mutating (σ : Store.state) :
  Store.well_formed σ →
  ∃ σ' σ'',
    Store.can_win σ = (WinChecker.can_win (Store.hand_of σ), σ') ∧
    Store.self_hand σ' = Store.self_hand σ ∧
    (∀ r, is_Some (Store.lists σ !! r) → Store.lists σ' !! r = Store.lists σ !! r) ∧
    Store.hand_of σ' = Store.hand_of σ ∧
    Store.can_win σ' = (WinChecker.can_win (Store.hand_of σ), σ'') ∧
    Store.hand_of σ'' = Store.hand_of σ.
Proof.
  intros Hwf. destruct (can_win_run σ Hwf) as (σ' & Hrun & Hp).
  pose proof (well_formed_preserved _ _ Hwf Hp) as Hwf'.
  pose proof (hand_of_preserved _ _ Hwf Hp) as Hhand.
  destruct (can_win_run σ' Hwf') as (σ'' & Hrun' & Hp').
  exists σ', σ''. rewrite Hhand in Hrun'. split_and!; try done.
  - apply Hp.
  - apply Hp.
  - rewrite <- Hhand. by apply hand_of_preserved.
Qed.

Lemma can_win_non_mutating_witness :
  ∃ σ',
    Store.can_win example_store = (WinChecker.can_win (Store.hand_of example_store), σ') ∧
    Store.hand_of σ' = Store.hand_of example_store.
Proof.
  destruct (can_win_non_mutating example_store) as (σ' & _ & Hrun & _ & _ & Hhand & _).
  - split.
    + exists [minor 1; minor 2; minor 3]. reflexivity.
    + repeat constructor. exists [major 4; major 4; major 4]. reflexivity.
  - exists σ'. split; [exact Hrun|exact Hhand].
Defined.

(** ** Drawing and discarding *)

(** C9. On a hand without a drawn tile, drawing [t] and discarding the drawn
    tile at once gives [t] back and leaves the concealed tiles (as a
    multiset, and in fact as a list), no drawn tile and the committed
    groups as before. *)
Theorem draw_then_discard_restores (self : Hand) (t : Card) :
  drawn_card self = None →
  ∃ self',
    (_ ← Hand.draw_card t; Hand.discard_drawn_card) self = (Ok t, self') ∧
    cards self' ≡ₚ cards self ∧
    drawn_card self' = None ∧
    self' = self.
Proof.
  intros Hnone. destruct self as [cs d gs]. cbn in Hnone. subst d.
  eexists. split_and!; reflexivity.
Qed.

Lemma draw_then_discard_restores_witness :
  ∃ self',
    (_ ← Hand.draw_card (major 3); Hand.discard_drawn_card)
      (mkHand [minor 1; minor 1] None []) = (Ok (major 3), self') ∧
    cards self' ≡ₚ [minor 1; minor 1] ∧
    drawn_card self' = None ∧
    self' = mkHand [minor 1; minor 1] None [].
Proof.
  apply (draw_then_discard_restores (mkHand [minor 1; minor 1] None []) (major 3)).
  reflexivity.
Defined.

(** ** Removing several tiles *)

(** C10. [remove_cards] tests each requested tile for presence, not for
    multiplicity: asked to remove minor 5 twice from a hand that holds it
    once, it removes that one tile and then raises; it neither returns
    [False] with the hand unchanged nor removes both. *)
Theorem remove_cards_partial_removal :
  Hand.remove_cards [minor 5; minor 5] (mkHand [minor 5; minor 6] None []) =
  (Raise ValueError, mkHand [minor 6] None []).
Proof. reflexivity. Qed.

Section remove_cards_facts.
Implicit Types (c : Card) (l : list Card) (self : Hand).

Lemma remove_first_perm c l : c ∈ l → l ≡ₚ c :: remove_first c l.
Proof.
  induction l as [|x l IH]; [by intros ?%elem_of_nil|].
  intros Hin. cbn. destruct (decide (x = c)) as [->|Hne]; [done|].
  apply elem_of_cons in Hin as [->|Hin]; [done|].
  rewrite (IH Hin) at 1. apply Permutation_swap.
Qed.

Lemma cards_remove_run c self :
  c ∈ cards self →
  Hand.cards_remove c self = (Ok (), Hand.set_cards (remove_first c (cards self)) self).
Proof.
  intros Hin. unfold Hand.cards_remove. rewrite st_bind_run. cbn [get].
  by rewrite list_remove_elem.
Qed.

Lemma for_each_cards_remove to_remove self :
  to_remove ⊆+ cards self →
  ∃ l', for_each to_remove Hand.cards_remove self = (Ok (), Hand.set_cards l' self) ∧
        to_remove ++ l' ≡ₚ cards self.
Proof.
  revert self. induction to_remove as [|c rest IH]; intros self Hsub.
  - exists (cards self). by destruct self.
  - apply submseteq_cons_l in Hsub as (k' & Hk & Hrest).
    assert (c ∈ cards self) as Hin by (rewrite Hk; apply list_elem_of_here).
    assert (remove_first c (cards self) ≡ₚ k') as Hk'.
    { apply (Permutation_cons_inv (a := c)). by rewrite <- remove_first_perm. }
    destruct (IH (Hand.set_cards (remove_first c (cards self)) self)) as (l' & Hrun & Hperm).
    { cbn. by rewrite Hk'. }
    exists l'. cbn [for_each]. rewrite st_bind_run, cards_remove_run by done.
    rewrite Hrun. split; [done|]. cbn in Hperm.
    rewrite (remove_first_perm c (cards self) Hin), <- Hperm. done.
Qed.
End remove_cards_facts.

(** X2. When every requested tile is held, multiplicity included,
    [remove_cards] returns [True] and removes exactly the requested tiles;
    the drawn tile and the committed groups stay. *)
Theorem remove_cards_all_present (to_remove : list Card) (self : Hand) :
  to_remove ⊆+ cards self →
  ∃ self',
    Hand.remove_cards to_remove self = (Ok true, self') ∧
    to_remove ++ cards self' ≡ₚ cards self ∧
    drawn_card self' = drawn_card self ∧
    exposed_groups self' = exposed_groups self.
Proof.
  intros Hsub. destruct (for_each_cards_remove to_remove self Hsub) as (l' & Hrun & Hperm).
  exists (Hand.set_cards l' self). split_and!; [|done..].
  unfold Hand.remove_cards. rewrite st_bind_run. cbn [get].
  assert (forallb (λ card, bool_decide (card ∈ cards self)) to_remove = true) as ->.
  { apply forallb_forall. intros c Hc%list_elem_of_In. apply bool_decide_eq_true.
    eapply elem_of_submseteq; [exact Hc|exact Hsub]. }
  cbn [negb]. by rewrite st_bind_run, Hrun.
Qed.

Lemma remove_cards_all_present_witness :
  ∃ self',
    Hand.remove_cards [minor 5; minor 5] (mkHand [minor 5; minor 6; minor 5] None []) =
      (Ok true, self') ∧
    cards self' = [minor 6].
Proof.
  destruct (remove_cards_all_present [minor 5; minor 5]
              (mkHand [minor 5; minor 6; minor 5] None [])) as (self' & Hrun & _).
  - cbn. apply (submseteq_skip (minor 5)), submseteq_cons, (submseteq_skip (minor 5)).
    apply submseteq_nil_l.
  - exists self'. split; [exact Hrun|].
    assert ((Ok true, self') = (Ok true, mkHand [minor 6] None [])) as Heq
      by (rewrite <- Hrun; reflexivity).
    by inversion Heq.
Defined.

(** X3. When some requested tile is not held at all, [remove_cards] returns
    [False] and leaves the hand unchanged. *)
Theorem remove_cards_some_absent (to_remove : list Card) (self : Hand) (c : Card) :
  c ∈ to_remove → c ∉ cards self →
  Hand.remove_cards to_remove self = (Ok false, self).
Proof.
  intros Hc Habs. unfold Hand.remove_cards. rewrite st_bind_run. cbn [get].
  assert (forallb (λ card, bool_decide (card ∈ cards self)) to_remove = false) as ->; [|done].
  apply not_true_is_false. intros Hall. rewrite forallb_forall in Hall.
  apply list_elem_of_In, Hall, bool_decide_eq_true in Hc. done.
Qed.

Lemma remove_cards_some_absent_witness :
  Hand.remove_cards [minor 5; minor 7] (mkHand [minor 5; minor 6] None []) =
  (Ok false, mkHand [minor 5; minor 6] None []).
Proof.
  apply (remove_cards_some_absent _ _ (minor 7)).
  - apply list_elem_of_further, list_elem_of_here.
  - intros Hin. by repeat (apply elem_of_cons in Hin as [Hin|Hin]; [by inversion Hin|]);
      apply elem_of_nil in Hin.
Defined.

(** ** Candidates and removal *)

Section remove_cards_from_list_facts.
Implicit Types (c : Card) (l cards to_remove : list Card).

Lemma submseteq_remove_first c rest l :
  c :: rest ⊆+ l → c ∈ l ∧ rest ⊆+ remove_first c l.
Proof.
  intros (k' & Hk & Hrest)%submseteq_cons_l.
  assert (c ∈ l) as Hin by (rewrite Hk; apply list_elem_of_here).
  split; [done|].
  assert (remove_first c l ≡ₚ k') as ->; [|done].
  apply (Permutation_cons_inv (a := c)). by rewrite <- remove_first_perm.
Qed.

Lemma remove_cards_from_list_perm cards to_remove :
  to_remove ⊆+ cards →
  to_remove ++ PatternMatcher.remove_cards_from_list cards to_remove ≡ₚ cards.
Proof.
  unfold PatternMatcher.remove_cards_from_list. revert cards.
  induction to_remove as [|c rest IH]; intros cards Hsub; [done|].
  apply submseteq_remove_first in Hsub as [Hin Hrest].
  cbn [fold_left]. rewrite decide_True by done. cbn.
  rewrite (IH _ Hrest). by rewrite <- remove_first_perm.
Qed.

Lemma remove_first_submseteq c l : remove_first c l ⊆+ l.
Proof.
  induction l as [|x l IH]; [done|]. cbn. case_decide.
  - by apply submseteq_cons.
  - by apply submseteq_skip.
Qed.

Lemma remove_cards_from_list_submseteq cards to_remove :
  PatternMatcher.remove_cards_from_list cards to_remove ⊆+ cards.
Proof.
  unfold PatternMatcher.remove_cards_from_list. revert cards.
  induction to_remove as [|c rest IH]; intros cards; [done|].
  cbn [fold_left]. etrans; [apply IH|]. case_decide; [apply remove_first_submseteq|done].
Qed.
End remove_cards_from_list_facts.

Section find_sequences_facts.
Implicit Types (c : Card) (cards seq : list Card).

Lemma first_of_Some (l : list Card) v c :
  PatternMatcher.first_of (group_by value l) v = Some c → c ∈ l ∧ value c = v.
Proof.
  unfold PatternMatcher.first_of. rewrite (proj2 (group_by_spec value l)).
  destruct (filter (λ c, value c = v) l) as [|c' vs] eqn:Hf; [done|].
  cbn. intros [= ->].
  assert (c ∈ filter (λ c, value c = v) l) as Hin by (rewrite Hf; apply list_elem_of_here).
  apply list_elem_of_filter in Hin as [Hv Hin]. done.
Qed.

Lemma mapM_first_of_three cards upper v1 v2 v3 seq :
  mapM (PatternMatcher.first_of
          (group_by value (filter (λ c, is_uppercase c = upper) cards))) [v1; v2; v3] =
    Some seq →
  ∃ c1 c2 c3, seq = [c1; c2; c3] ∧
    (c1 ∈ cards ∧ c2 ∈ cards ∧ c3 ∈ cards) ∧
    (value c1 = v1 ∧ value c2 = v2 ∧ value c3 = v3) ∧
    (is_uppercase c1 = upper ∧ is_uppercase c2 = upper ∧ is_uppercase c3 = upper).
Proof.
  intros Hm%mapM_Some_1.
  inversion Hm as [|? c1 ? ? H1 Hm1]; subst.
  inversion Hm1 as [|? c2 ? ? H2 Hm2]; subst.
  inversion Hm2 as [|? c3 ? ? H3 Hm3]; subst.
  inversion Hm3; subst.
  apply first_of_Some in H1 as [[? ?]%list_elem_of_filter ?].
  apply first_of_Some in H2 as [[? ?]%list_elem_of_filter ?].
  apply first_of_Some in H3 as [[? ?]%list_elem_of_filter ?].
  exists c1, c2, c3. done.
Qed.

Lemma is_valid_sequence_sorted_values c1 c2 c3 :
  is_uppercase c2 = is_uppercase c1 → is_uppercase c3 = is_uppercase c1 →
  ([value c1; value c2; value c3] ∈ Config.SPECIAL_SEQUENCES ∨
   (value c2 = value c1 + 1 ∧ value c3 = value c2 + 1)) →
  PatternMatcher.is_valid_sequence [c1; c2; c3] = true.
Proof.
  intros E2 E3 Hv. unfold PatternMatcher.is_valid_sequence.
  rewrite bool_decide_eq_true_2 by done. cbn [negb].
  unfold PatternMatcher.same_case. cbn [forallb].
  rewrite !bool_decide_eq_true_2 by done. cbn [andb negb].
  change (value <$> [c1; c2; c3]) with [value c1; value c2; value c3].
  assert (sorted [value c1; value c2; value c3] = [value c1; value c2; value c3]) as ->.
  { apply sorted_three.
    - destruct Hv as [Hsp|?]; [|lia]. unfold Config.SPECIAL_SEQUENCES in Hsp.
      apply elem_of_cons in Hsp as [Hsp|Hsp%list_elem_of_singleton]; inversion Hsp; lia.
    - destruct Hv as [Hsp|?]; [|lia]. unfold Config.SPECIAL_SEQUENCES in Hsp.
      apply elem_of_cons in Hsp as [Hsp|Hsp%list_elem_of_singleton]; inversion Hsp; lia. }
  case_bool_decide as Hsp; [done|]. destruct Hv as [?|[-> ->]]; [done|].
  by rewrite !bool_decide_eq_true_2.
Qed.

Lemma find_sequences_case_sound cards upper seq :
  seq ∈ PatternMatcher.find_sequences_case cards upper →
  ∃ c1 c2 c3, seq = [c1; c2; c3] ∧
    (c1 ∈ cards ∧ c2 ∈ cards ∧ c3 ∈ cards) ∧
    (value c1 < value c2 ∧ value c2 < value c3) ∧
    PatternMatcher.is_valid_sequence seq = true.
Proof.
  unfold PatternMatcher.find_sequences_case.
  rewrite elem_of_app, !list_elem_of_omap.
  intros [(sp & Hsp & Hm)|([[v1 v2] v3] & _ & Hm)].
  - case_match; [|done]. unfold Config.SPECIAL_SEQUENCES in Hsp.
    apply elem_of_cons in Hsp as [->|Hsp%list_elem_of_singleton]; subst;
      apply mapM_first_of_three in Hm
        as (c1 & c2 & c3 & -> & (I1 & I2 & I3) & (V1 & V2 & V3) & (U1 & U2 & U3));
      exists c1, c2, c3; (split_and!; [done..|lia|lia|]);
      (apply is_valid_sequence_sorted_values; [congruence|congruence|]);
      left; rewrite V1, V2, V3; unfold Config.SPECIAL_SEQUENCES.
    + apply list_elem_of_here.
    + apply list_elem_of_further, list_elem_of_here.
  - cbn beta iota zeta in Hm.
    destruct (bool_decide (v2 = v1 + 1) && bool_decide (v3 = v2 + 1)) eqn:Hc; [|done].
    destruct (negb (bool_decide ([v1; v2; v3] ∈ Config.SPECIAL_SEQUENCES))); [|done].
    apply andb_true_iff in Hc as [->%bool_decide_eq_true ->%bool_decide_eq_true].
    apply mapM_first_of_three in Hm
      as (c1 & c2 & c3 & -> & (I1 & I2 & I3) & (V1 & V2 & V3) & (U1 & U2 & U3)).
    exists c1, c2, c3. split_and!; [done..|lia|lia|].
    apply is_valid_sequence_sorted_values; [congruence|congruence|]. right. lia.
Qed.

Lemma find_sequences_sound cards seq :
  seq ∈ PatternMatcher.find_sequences cards →
  PatternMatcher.is_valid_sequence seq = true ∧ seq ⊆+ cards.
Proof.
  unfold PatternMatcher.find_sequences. rewrite elem_of_app.
  intros [H|H]; apply find_sequences_case_sound in H
    as (c1 & c2 & c3 & -> & (H1 & H2 & H3) & Hlt & Hv); (split; [done|]).
  all: apply NoDup_submseteq.
  all: try (intros x Hx; repeat (apply elem_of_cons in Hx as [->|Hx]; [done|]);
            by apply elem_of_nil in Hx).
  all: repeat (apply NoDup_cons; split;
               [rewrite ?elem_of_cons, ?elem_of_nil; intros ?; destruct_or?; subst; lia|]);
       apply NoDup_nil_2.
Qed.
End find_sequences_facts.

(** ** Soundness of the search *)

Section search_soundness.
Implicit Types (c : Card) (cards seq : list Card) (seqs : list (list Card)).

Lemma first_some_Some {A B} (f : A → option B) (l : list A) b :
  first_some f l = Some b → ∃ a, a ∈ l ∧ f a = Some b.
Proof.
  induction l as [|a l IH]; [done|]. cbn.
  destruct (f a) as [b'|] eqn:Hfa.
  - intros [= <-]. exists a. split; [apply list_elem_of_here|done].
  - intros (a' & Hin & Ha')%IH. exists a'. split; [by apply list_elem_of_further|done].
Qed.

Lemma first_some_is_Some {A B} (f : A → option B) (l : list A) :
  is_Some (first_some f l) ↔ ∃ a, a ∈ l ∧ is_Some (f a).
Proof.
  induction l as [|a l IH]; cbn.
  - split; [by intros [? ?]|]. by intros (a & ?%elem_of_nil & _).
  - destruct (f a) as [b|] eqn:Hfa.
    + split; [|by eexists]. intros _. exists a.
      split; [apply list_elem_of_here|by rewrite Hfa].
    + rewrite IH. split.
      * intros (a' & Hin & Ha'). exists a'. split; [by apply list_elem_of_further|done].
      * intros (a' & [->|Hin]%elem_of_cons & Ha').
        -- rewrite Hfa in Ha'. by destruct Ha'.
        -- by exists a'.
Qed.

Lemma existsb_True {A} (f : A → bool) (l : list A) :
  existsb f l = true ↔ ∃ a, a ∈ l ∧ f a = true.
Proof.
  rewrite existsb_exists. by setoid_rewrite list_elem_of_In.
Qed.

Lemma find_all_sequences_fuel_sound n cards seqs :
  WinChecker._find_all_sequences_fuel n cards = Some seqs →
  concat seqs ≡ₚ cards ∧
  Forall (λ seq, PatternMatcher.is_valid_sequence seq = true) seqs.
Proof.
  revert cards seqs. induction n as [|n IH]; intros cards seqs; cbn.
  - case_bool_decide as Hl.
    + intros [= <-]. destruct cards; [done|discriminate].
    + by destruct (negb _).
  - case_bool_decide as Hl.
    + intros [= <-]. destruct cards; [done|discriminate].
    + destruct (negb _); [done|].
      intros (seq & Hin & Hseq)%first_some_Some.
      destruct (WinChecker.all_in cards seq); [|done].
      destruct (WinChecker._find_all_sequences_fuel n _) as [rest|] eqn:Hrest; [|done].
      injection Hseq as <-.
      apply find_sequences_sound in Hin as [Hvalid Hsub].
      apply IH in Hrest as [Hperm Hall]. split; [|by constructor].
      cbn. rewrite Hperm. by apply remove_cards_from_list_perm.
Qed.

Lemma try_form_find_all_fuel n cards :
  WinChecker._try_form_sequences_recursive_fuel n cards = true ↔
  is_Some (WinChecker._find_all_sequences_fuel n cards).
Proof.
  revert cards. induction n as [|n IH]; intros cards; cbn.
  - case_bool_decide; [by split; [eexists|]|].
    destruct (negb _); (split; [done|by intros [? ?]]).
  - case_bool_decide; [by split; [eexists|]|].
    destruct (negb _); [split; [done|by intros [? ?]]|].
    rewrite existsb_True, first_some_is_Some.
    apply exist_proper. intros seq. apply and_iff_compat_l.
    destruct (WinChecker.all_in cards seq); [|split; [done|by intros [? ?]]].
    rewrite IH. destruct (WinChecker._find_all_sequences_fuel n _).
    + split; by eexists.
    + split; by intros [? ?].
Qed.
End search_soundness.

Section exact_cover.
Implicit Types (c : Card) (cards seq l : list Card) (seqs : list (list Card)).

Lemma count_card_Permutation l1 l2 :
  (∀ c, count_card c l1 = count_card c l2) → l1 ≡ₚ l2.
Proof.
  revert l2. induction l1 as [|x l1 IH]; intros l2 Hc.
  - destruct l2 as [|y l2]; [done|]. specialize (Hc y).
    rewrite count_card_cons, decide_True in Hc by done. cbn in Hc. lia.
  - assert (x ∈ l2) as Hin.
    { apply count_card_pos. rewrite <- Hc, count_card_cons, decide_True by done. lia. }
    rewrite (remove_first_perm x l2 Hin). apply Permutation_skip, IH.
    intros c. specialize (Hc c). rewrite count_card_cons in Hc.
    destruct (decide (x = c)) as [->|Hne].
    + pose proof (remove_first_count_eq c l2 Hin). lia.
    + by rewrite remove_first_count_ne.
Qed.

Lemma find_pairs_elem_of cards p :
  p ∈ PatternMatcher.find_pairs cards →
  ∃ c, p = [c; c] ∧ (2 ≤ count_card c cards)%nat.
Proof.
  intros ([k vs] & Hin & Hp)%list_elem_of_omap. cbn beta iota in Hp.
  case_bool_decide as Hlen; [|done]. injection Hp as <-.
  apply group_by_elem_of in Hin as [Hne Hvs].
  destruct vs as [|c vs]; [done|].
  assert (c ∈ filter (λ x, PatternMatcher.card_key x = k) cards) as Hc
    by (rewrite <- Hvs; apply list_elem_of_here).
  apply list_elem_of_filter in Hc as [<- _].
  rewrite filter_card_key in Hvs. exists c.
  rewrite Hvs in Hlen. rewrite length_replicate in Hlen. split; [|done].
  rewrite Hvs, take_replicate.
  by replace (2 `min` count_card c cards)%nat with 2%nat by lia.
Qed.

Lemma pair_submseteq c cards : (2 ≤ count_card c cards)%nat → [c; c] ⊆+ cards.
Proof.
  intros Hc. assert (c ∈ cards) as Hin by (apply count_card_pos; lia).
  rewrite (remove_first_perm c cards Hin). apply submseteq_skip.
  apply singleton_submseteq_l, count_card_pos.
  pose proof (remove_first_count_eq c cards Hin). lia.
Qed.

Lemma find_all_sequences_sound cards seqs :
  WinChecker._find_all_sequences cards = Some seqs →
  concat seqs ≡ₚ cards ∧
  Forall (λ seq, PatternMatcher.is_valid_sequence seq = true) seqs.
Proof. apply find_all_sequences_fuel_sound. Qed.

Lemma try_find_sequences_and_pair_sound cards seqs p :
  WinChecker._try_find_sequences_and_pair cards = Some (seqs, p) →
  (∃ c, p = [c; c]) ∧
  Forall (λ seq, PatternMatcher.is_valid_sequence seq = true) seqs ∧
  concat seqs ++ p ≡ₚ cards.
Proof.
  unfold WinChecker._try_find_sequences_and_pair.
  case_bool_decide; [done|].
  intros (p' & Hin & Hp)%first_some_Some. cbn zeta in Hp.
  destruct (negb _); [done|].
  destruct (WinChecker._can_form_all_sequences _); [|done].
  destruct (WinChecker._find_all_sequences _) as [[|s ss]|] eqn:Hfind; [done| |done].
  case_bool_decide; [|done]. injection Hp as <- <-.
  apply find_pairs_elem_of in Hin as (c & -> & Hc).
  apply find_all_sequences_sound in Hfind as [Hperm Hvalid].
  split_and!; [by exists c|done|].
  rewrite Hperm, (comm (++)).
  by apply remove_cards_from_list_perm, pair_submseteq.
Qed.
End exact_cover.

Lemma valid_sequence_length seq :
  PatternMatcher.is_valid_sequence seq = true → length seq = 3%nat.
Proof.
  unfold PatternMatcher.is_valid_sequence. by case_bool_decide.
Qed.

(** X4. Every candidate that [find_sequences] returns is a valid sequence made
    of cards of the list, each taken once; so the membership test the search
    makes on a candidate ([all_in]) always passes. *)
Theorem find_sequences_valid (cards seq : list Card) :
  seq ∈ PatternMatcher.find_sequences cards →
  PatternMatcher.is_valid_sequence seq = true ∧
  seq ⊆+ cards ∧
  WinChecker.all_in cards seq = true.
Proof.
  intros [Hvalid Hsub]%find_sequences_sound. split_and!; [done..|].
  unfold WinChecker.all_in. apply forallb_forall.
  intros c Hc%list_elem_of_In. apply bool_decide_eq_true. by eapply elem_of_submseteq.
Qed.

Lemma find_sequences_valid_witness :
  PatternMatcher.is_valid_sequence [minor 2; minor 7; minor 10] = true.
Proof.
  apply (find_sequences_valid [minor 10; major 7; minor 2; minor 7; minor 2]).
  vm_compute. apply list_elem_of_here.
Defined.

(** X5. When [_find_all_sequences] answers, its sequences are valid, use every
    card of the list exactly once, and number a third of the cards: the count
    test that follows in [_try_find_sequences_and_pair] cannot fail. *)
Theorem find_all_sequences_exact_cover (cards : list Card) (seqs : list (list Card)) :
  WinChecker._find_all_sequences cards = Some seqs →
  concat seqs ≡ₚ cards ∧
  Forall (λ seq, PatternMatcher.is_valid_sequence seq = true) seqs ∧
  (length seqs * 3 = length cards)%nat.
Proof.
  intros [Hperm Hvalid]%find_all_sequences_sound. split_and!; [done..|].
  rewrite <- Hperm. clear Hperm. induction Hvalid as [|s ss Hs _ IH]; [done|].
  cbn. rewrite length_app, (valid_sequence_length s Hs). lia.
Qed.

Lemma find_all_sequences_exact_cover_witness :
  concat [[minor 1; minor 2; minor 3]; [minor 2; minor 3; minor 4]] ≡ₚ
  [minor 3; minor 2; minor 4; minor 1; minor 3; minor 2].
Proof.
  apply (find_all_sequences_exact_cover
           [minor 3; minor 2; minor 4; minor 1; minor 3; minor 2]).
  vm_compute. reflexivity.
Defined.

(** X6. [_can_form_all_sequences] holds exactly when [_find_all_sequences] finds
    sequences: the search that answers yes or no and the search that builds the
    sequences agree. *)
Theorem can_form_iff_find_all (cards : list Card) :
  WinChecker._can_form_all_sequences cards = true ↔
  is_Some (WinChecker._find_all_sequences cards).
Proof.
  unfold WinChecker._can_form_all_sequences, WinChecker._try_form_sequences_recursive,
    WinChecker._find_all_sequences.
  rewrite <- try_form_find_all_fuel.
  assert (∀ n, WinChecker._try_form_sequences_recursive_fuel n cards =
               if bool_decide (length cards = 0%nat) then true
               else if negb (bool_decide (length cards `mod` 3 = 0)%nat) then false
               else WinChecker._try_form_sequences_recursive_fuel n cards) as Hguard.
  { intros [|n]; cbn [WinChecker._try_form_sequences_recursive_fuel];
      case_bool_decide; try done; by destruct (negb _). }
  by rewrite <- Hguard.
Qed.

(** X7. What [_try_find_sequences_and_pair] returns covers its cards exactly:
    the pair is two equal cards, each sequence is valid, the sequences and
    the pair together are a rearrangement of the cards, and the cards number
    three for each sequence and two for the pair. *)
Theorem sequences_and_pair_exact_cover (cards : list Card) (sequences : list (list Card))
    (pair_cards : list Card) :
  WinChecker._try_find_sequences_and_pair cards = Some (sequences, pair_cards) →
  (∃ c, pair_cards = [c; c]) ∧
  Forall (λ seq, PatternMatcher.is_valid_sequence seq = true) sequences ∧
  concat sequences ++ pair_cards ≡ₚ cards ∧
  (length sequences * 3 + 2 = length cards)%nat.
Proof.
  intros (Hpair & Hvalid & Hperm)%try_find_sequences_and_pair_sound.
  split_and!; [done..|].
  rewrite <- Hperm, length_app. destruct Hpair as [c ->]. cbn [length].
  clear Hperm. induction Hvalid as [|s ss Hs _ IH]; [done|].
  cbn [concat length]. rewrite length_app, (valid_sequence_length s Hs). lia.
Qed.

Lemma sequences_and_pair_exact_cover_witness :
  (∃ c, [minor 9; minor 9] = [c; c]) ∧
  Forall (λ seq, PatternMatcher.is_valid_sequence seq = true)
         [[minor 2; minor 3; minor 4]; [major 5; major 6; major 7]] ∧
  concat [[minor 2; minor 3; minor 4]; [major 5; major 6; major 7]] ++ [minor 9; minor 9] ≡ₚ
    [minor 9; minor 2; minor 3; minor 4; minor 9; major 5; major 6; major 7] ∧
  (length [[minor 2; minor 3; minor 4]; [major 5; major 6; major 7]] * 3 + 2 =
   length [minor 9; minor 2; minor 3; minor 4; minor 9; major 5; major 6; major 7])%nat.
Proof.
  apply (sequences_and_pair_exact_cover
           [minor 9; minor 2; minor 3; minor 4; minor 9; major 5; major 6; major 7]).
  vm_compute. reflexivity.
Defined.

(** ** Committing groups *)

Section player_facts.
Implicit Types (c d card : Card) (l : list Card) (self : Player).

Lemma remove_same_cards_run same_cards self :
  Player.remove_same_cards same_cards self =
  (Ok (), Player.set_hand
            (Hand.set_cards
               (PatternMatcher.remove_cards_from_list (cards (hand self)) same_cards)
               (hand self)) self).
Proof.
  unfold Player.remove_same_cards, PatternMatcher.remove_cards_from_list.
  revert self. induction same_cards as [|c rest IH]; intros self.
  - by destruct self as [? ? [? ? ?] ? ?].
  - destruct self as [pid hum [cs dr gs] sc dl].
    cbn [for_each fold_left]. rewrite st_bind_run.
    unfold Player.on_hand at 1, Hand.remove_card. cbn.
    unfold mbind, st_bind, get. cbn.
    destruct (decide (c ∈ cs)) as [Hin|Hin].
    + rewrite bool_decide_eq_true_2 by done. cbn. by rewrite IH.
    + rewrite bool_decide_eq_false_2 by done. cbn. by rewrite IH.
Qed.

Lemma filter_ne_remove_first c l :
  filter (λ x, x ≠ c) (remove_first c l) = filter (λ x, x ≠ c) l.
Proof.
  induction l as [|y l IH]; [done|]. cbn [remove_first].
  destruct (decide (y = c)) as [->|Hne].
  - by rewrite filter_cons_False by (by intros ?).
  - by rewrite !filter_cons_True, IH by done.
Qed.

Lemma filter_ne_id c l : c ∉ l → filter (λ x, x ≠ c) l = l.
Proof.
  induction l as [|y l IH]; [done|]. intros [Hne Hnin]%not_elem_of_cons.
  rewrite filter_cons_True by done. by rewrite IH.
Qed.

Lemma remove_all_copies c l k :
  count_card c l = k →
  PatternMatcher.remove_cards_from_list l (replicate k c) = filter (λ x, x ≠ c) l.
Proof.
  unfold PatternMatcher.remove_cards_from_list.
  revert l. induction k as [|k IH]; intros l Hk.
  - cbn. symmetry. apply filter_ne_id. rewrite count_card_pos. lia.
  - assert (c ∈ l) as Hin by (apply count_card_pos; lia).
    cbn [replicate fold_left]. rewrite decide_True by done.
    rewrite IH; [apply filter_ne_remove_first|].
    pose proof (remove_first_count_eq c l Hin). lia.
Qed.

Lemma take_filter_replicate c l k :
  (k ≤ count_card c l)%nat → take k (filter (λ x, x = c) l) = replicate k c.
Proof.
  intros Hk. rewrite filter_eq_replicate, take_replicate. f_equal. lia.
Qed.

End player_facts.


Lemma count_exact_card_false c h :
  Hand.count_exact_card c false h = count_card c (cards h).
Proof. done. Qed.


Lemma count_card_nil (c : Card) : count_card c [] = 0%nat.
Proof. done. Qed.

Ltac count_norm :=
  repeat first [progress cbn [replicate app hand cards drawn_card exposed_groups]
               | rewrite count_card_app | rewrite count_card_cons | rewrite count_card_nil].
Ltac count_norm_in H :=
  repeat first [rewrite count_card_app in H | rewrite count_card_cons in H
               | rewrite count_card_nil in H].

Section commit_facts.
Implicit Types (c d card : Card) (l cs : list Card) (gs : list Group) (self : Player).

Lemma count_card_perm_eq l1 l2 c : l1 ≡ₚ l2 → count_card c l1 = count_card c l2.
Proof. unfold count_card. by intros ->. Qed.

Lemma take_filter_submseteq c l k : take k (filter (λ x, x = c) l) ⊆+ l.
Proof.
  apply sublist_submseteq. etrans; [apply sublist_take|apply sublist_filter].
Qed.

Lemma sum_lengths_concat (ls : list (list Card)) :
  sum_list (length <$> ls) = length (concat ls).
Proof.
  induction ls as [|x ls IH]; [done|]. cbn. rewrite length_app. by rewrite <- IH.
Qed.

Lemma get_total_count_hand_tiles (h : Hand) :
  Hand.get_total_count h = length (hand_tiles h).
Proof.
  unfold Hand.get_total_count, hand_tiles. rewrite !length_app.
  rewrite <- sum_lengths_concat, <- list_fmap_compose.
  change (length ∘ Group.cards) with (λ group : Group, length (Group.cards group)).
  destruct (drawn_card h); cbn; lia.
Qed.

Lemma concat_delete_perm gs i g :
  gs !! i = Some g →
  Group.cards g ++ concat (Group.cards <$> delete i gs) ≡ₚ concat (Group.cards <$> gs).
Proof.
  intros Hi. rewrite <- (take_drop_middle gs i g Hi) at 2.
  rewrite delete_take_drop, !fmap_app, !concat_app, fmap_cons. cbn [concat].
  rewrite !(assoc (++)). f_equiv. apply (comm (++)).
Qed.

Lemma valid_sequence_values_NoDup c0 c1 c2 :
  PatternMatcher.is_valid_sequence [c0; c1; c2] = true →
  NoDup [value c0; value c1; value c2].
Proof.
  unfold PatternMatcher.is_valid_sequence.
  destruct (negb (bool_decide _)); [done|]. destruct (negb (PatternMatcher.same_case _)); [done|].
  change (value <$> [c0; c1; c2]) with [value c0; value c1; value c2].
  intros Hv. rewrite <- (sorted_perm [value c0; value c1; value c2]).
  destruct (sorted [value c0; value c1; value c2]) as [|v0 [|v1 [|v2 [|? ?]]]] eqn:Hs.
  all: case_bool_decide as Hsp;
    [unfold Config.SPECIAL_SEQUENCES in Hsp;
     apply elem_of_cons in Hsp as [Hsp|Hsp%list_elem_of_singleton]; try done;
     inversion Hsp; subst|try done].
  all: try (apply andb_true_iff in Hv as [->%bool_decide_eq_true ->%bool_decide_eq_true]).
  all: repeat (apply NoDup_cons; split;
               [rewrite ?elem_of_cons, ?elem_of_nil; intros ?; destruct_or?; lia|]);
       apply NoDup_nil_2.
Qed.

Lemma do_wei_run self d :
  drawn_card (hand self) = Some d →
  Player.can_wei self = true →
  let same_cards := take 2 (filter (λ c, c = d) (cards (hand self))) in
  Player.do_wei self =
  (Ok (), Player.set_hand
            (mkHand (PatternMatcher.remove_cards_from_list (cards (hand self)) same_cards)
                    None
                    (exposed_groups (hand self) ++ [Group.mk wei (same_cards ++ [d]) true]))
            self).
Proof.
  intros Hd Hcan same_cards. unfold Player.do_wei. rewrite st_bind_run. cbn [get].
  rewrite Hcan. cbn [negb]. rewrite Hd.
  rewrite st_bind_run, remove_same_cards_run. fold same_cards.
  by destruct self as [pid hum [cs dr gs] sc dl].
Qed.

Lemma do_peng_run self c :
  Player.can_peng c self = true →
  let same_cards := take 2 (filter (λ x, x = c) (cards (hand self))) in
  Player.do_peng c self =
  (Ok (), Player.set_hand
            (mkHand (PatternMatcher.remove_cards_from_list (cards (hand self)) same_cards)
                    (drawn_card (hand self))
                    (exposed_groups (hand self) ++ [Group.mk peng (same_cards ++ [c]) false]))
            self).
Proof.
  intros Hcan same_cards. unfold Player.do_peng. rewrite st_bind_run. cbn [get].
  rewrite Hcan. cbn [negb].
  rewrite st_bind_run, remove_same_cards_run. fold same_cards.
  by destruct self as [pid hum [cs dr gs] sc dl].
Qed.

Lemma do_ti_run self d :
  drawn_card (hand self) = Some d →
  Player.can_ti self = true →
  let '(four, cs', gs') := upgrade_or_take d (hand self) in
  Player.do_ti self =
  (Ok (), Player.set_hand (mkHand cs' None (gs' ++ [Group.mk ti four false])) self).
Proof.
  intros Hd Hcan. unfold upgrade_or_take, Player.do_ti. rewrite st_bind_run. cbn [get].
  rewrite Hcan. cbn [negb]. rewrite Hd.
  destruct (list_find _ _) as [[i g]|] eqn:Hfind.
  - pose proof Hfind as (Hi & _)%list_find_Some. cbn [fmap option_fmap option_map fst].
    rewrite Hi. by destruct self as [pid hum [cs dr gs] sc dl].
  - cbn [fmap option_fmap option_map]. rewrite !st_bind_run, remove_same_cards_run.
    by destruct self as [pid hum [cs dr gs] sc dl].
Qed.

Lemma do_pao_run self c :
  Player.can_pao c self = true →
  let '(four, cs', gs') := upgrade_or_take c (hand self) in
  Player.do_pao c self =
  (Ok (), Player.set_hand
            (mkHand cs' (drawn_card (hand self)) (gs' ++ [Group.mk pao four false])) self).
Proof.
  intros Hcan. unfold upgrade_or_take, Player.do_pao. rewrite st_bind_run. cbn [get].
  rewrite Hcan. cbn [negb].
  destruct (list_find _ _) as [[i g]|] eqn:Hfind.
  - pose proof Hfind as (Hi & _)%list_find_Some. cbn [fmap option_fmap option_map fst].
    rewrite Hi. by destruct self as [pid hum [cs dr gs] sc dl].
  - cbn [fmap option_fmap option_map]. rewrite !st_bind_run, remove_same_cards_run.
    by destruct self as [pid hum [cs dr gs] sc dl].
Qed.

Lemma upgrade_or_take_perm c h four cs' gs' :
  upgrade_or_take c h = (four, cs', gs') →
  cs' ++ four ++ concat (Group.cards <$> gs') ≡ₚ
    c :: cards h ++ concat (Group.cards <$> exposed_groups h).
Proof.
  unfold upgrade_or_take. destruct (list_find _ _) as [[i g]|] eqn:Hfind.
  - apply list_find_Some in Hfind as (Hi & _). intros [= <- <- <-].
    pose proof (concat_delete_perm _ i g Hi) as Hperm.
    apply count_card_Permutation. intros x.
    apply (count_card_perm_eq _ _ x) in Hperm.
    count_norm_in Hperm. count_norm. destruct (decide (c = x)); lia.
  - intros [= <- <- <-].
    pose proof (remove_cards_from_list_perm (cards h) _ (take_filter_submseteq c (cards h) 3))
      as Hperm.
    apply count_card_Permutation. intros x.
    apply (count_card_perm_eq _ _ x) in Hperm.
    count_norm_in Hperm. count_norm. destruct (decide (c = x)); lia.
Qed.

Lemma concat_snoc_group gs ty four co :
  concat (Group.cards <$> gs ++ [Group.mk ty four co]) =
  concat (Group.cards <$> gs) ++ four.
Proof. rewrite fmap_app, concat_app. cbn. by rewrite app_nil_r. Qed.
End commit_facts.

Section chi_loop_facts.
Implicit Types (c d card : Card) (l cs : list Card) (gs : list Group) (self : Player).

Lemma can_wei_drawn self :
  Player.can_wei self = true →
  ∃ d, drawn_card (hand self) = Some d ∧ count_card d (cards (hand self)) = 2%nat.
Proof.
  unfold Player.can_wei, Hand.can_wei. destruct (drawn_card (hand self)) as [d|]; [|done].
  intros Hc%bool_decide_eq_true. by exists d.
Qed.

Lemma can_ti_drawn self :
  Player.can_ti self = true → ∃ d, drawn_card (hand self) = Some d.
Proof.
  unfold Player.can_ti, Hand.can_ti. destruct (drawn_card (hand self)) as [d|]; [|done].
  by exists d.
Qed.

Lemma total_cards_perm self self' extra :
  hand_tiles (hand self') ≡ₚ extra ++ hand_tiles (hand self) →
  Player.get_total_cards self' = (length extra + Player.get_total_cards self)%nat.
Proof.
  intros Hperm. unfold Player.get_total_cards.
  by rewrite !get_total_count_hand_tiles, Hperm, length_app.
Qed.

(** The removal loop of [do_chi]. *)
Lemma do_chi_loop_run (hand_cards : list Card) self :
  let body := λ card_to_remove,
    removed ← Player.on_hand (Hand.remove_card card_to_remove);
    if negb removed then raise ValueError else mret () in
  (hand_cards ⊆+ cards (hand self) ∧
   for_each hand_cards body self =
     (Ok (), Player.set_hand
               (Hand.set_cards
                  (PatternMatcher.remove_cards_from_list (cards (hand self)) hand_cards)
                  (hand self)) self)) ∨
  (¬ hand_cards ⊆+ cards (hand self) ∧
   ∃ self', for_each hand_cards body self = (Raise ValueError, self')).
Proof.
  intros body. revert self. induction hand_cards as [|c rest IH]; intros self.
  - left. split; [apply submseteq_nil_l|]. by destruct self as [? ? [? ? ?] ? ?].
  - cbn [for_each]. rewrite st_bind_run.
    unfold PatternMatcher.remove_cards_from_list. cbn [fold_left].
    destruct (decide (c ∈ cards (hand self))) as [Hin|Hin].
    + assert (body c self =
              (Ok (), Player.set_hand
                        (Hand.set_cards (remove_first c (cards (hand self))) (hand self))
                        self)) as ->.
      { unfold body. rewrite st_bind_run. unfold Player.on_hand, Hand.remove_card.
        rewrite st_bind_run. cbn [get]. rewrite bool_decide_eq_true_2 by done.
        by destruct self as [? ? [? ? ?] ? ?]. }
      destruct (IH (Player.set_hand
                      (Hand.set_cards (remove_first c (cards (hand self))) (hand self))
                      self)) as [[Hsub Hrun]|[Hsub [self' Hrun]]].
      * left. split.
        { rewrite (remove_first_perm c _ Hin). apply submseteq_skip.
          by destruct self as [? ? [? ? ?] ? ?]. }
        rewrite Hrun. by destruct self as [? ? [? ? ?] ? ?].
      * right. split; [|by exists self'].
        intros [_ Hrest]%submseteq_remove_first. apply Hsub.
        by destruct self as [? ? [? ? ?] ? ?].
    + right. split.
      { intros Hsub. apply Hin. eapply elem_of_submseteq; [|exact Hsub].
        apply list_elem_of_here. }
      exists self. unfold body. rewrite st_bind_run. unfold Player.on_hand, Hand.remove_card.
      rewrite st_bind_run. cbn [get]. rewrite bool_decide_eq_false_2 by done.
      by destruct self as [? ? [? ? ?] ? ?].
Qed.

Lemma do_chi_run c hand_cards self :
  PatternMatcher.is_valid_sequence (c :: hand_cards) = true →
  hand_cards ⊆+ cards (hand self) →
  Player.do_chi c hand_cards self =
  (Ok (), Player.set_hand
            (mkHand (PatternMatcher.remove_cards_from_list (cards (hand self)) hand_cards)
                    (drawn_card (hand self))
                    (exposed_groups (hand self) ++ [Group.mk chi (c :: hand_cards) false]))
            self).
Proof.
  intros Hvalid Hsub. unfold Player.do_chi. rewrite Hvalid. cbn [negb].
  rewrite st_bind_run.
  destruct (do_chi_loop_run hand_cards self) as [[_ ->]|[Hn _]]; [|done].
  by destruct self as [? ? [? ? ?] ? ?].
Qed.
End chi_loop_facts.

(** X8. With a drawn tile of which exactly two copies are concealed, [do_wei]
    succeeds: the two copies leave the concealed tiles (the others keep their
    order), a concealed wei of the three tiles is appended to the committed
    groups, the drawn tile is cleared and the total number of tiles is
    unchanged. *)
Theorem do_wei_commits_three (self : Player) (d : Card) :
  drawn_card (hand self) = Some d →
  count_card d (cards (hand self)) = 2%nat →
  ∃ self',
    Player.do_wei self = (Ok (), self') ∧
    cards (hand self') = filter (λ c, c ≠ d) (cards (hand self)) ∧
    drawn_card (hand self') = None ∧
    exposed_groups (hand self') =
      exposed_groups (hand self) ++ [Group.mk wei [d; d; d] true] ∧
    Player.get_total_cards self' = Player.get_total_cards self.
Proof.
  intros Hd Hc.
  assert (Player.can_wei self = true) as Hcan.
  { unfold Player.can_wei, Hand.can_wei. rewrite Hd, count_exact_card_false.
    by apply bool_decide_eq_true. }
  pose proof (do_wei_run self d Hd Hcan) as Hrun. cbv zeta in Hrun.
  rewrite take_filter_replicate in Hrun by lia.
  rewrite (remove_all_copies d _ 2 Hc) in Hrun.
  eexists. split; [exact Hrun|].
  cbn [hand Player.set_hand cards drawn_card exposed_groups].
  split_and!; [done..|].
  apply (total_cards_perm _ _ []). cbn [app]. unfold hand_tiles. cbn [hand Player.set_hand cards drawn_card exposed_groups].
  rewrite concat_snoc_group.
  rewrite ?Hd.
  pose proof (filter_app_complement (λ x, x = d) (cards (hand self))) as Hperm.
  rewrite filter_eq_replicate, Hc in Hperm.
  apply count_card_Permutation. intros x. apply (count_card_perm_eq _ _ x) in Hperm.
  cbn [replicate] in Hperm. count_norm_in Hperm. count_norm.
  destruct (decide (d = x)); lia.
Qed.

Lemma do_wei_commits_three_witness :
  ∃ self',
    Player.do_wei (mkPlayer 0 true (mkHand [minor 3; major 9; minor 3] (Some (minor 3)) [])
                            0 false) = (Ok (), self') ∧
    cards (hand self') = [major 9] ∧
    exposed_groups (hand self') = [Group.mk wei [minor 3; minor 3; minor 3] true].
Proof.
  destruct (do_wei_commits_three
              (mkPlayer 0 true (mkHand [minor 3; major 9; minor 3] (Some (minor 3)) [])
                        0 false) (minor 3))
    as (self' & Hrun & Hcards & _ & Hgroups & _).
  - reflexivity.
  - reflexivity.
  - exists self'. split_and!; [exact Hrun|exact Hcards|exact Hgroups].
Defined.

(** X9. With at least two concealed copies of the discarded tile, [do_peng]
    succeeds: the first two copies leave the concealed tiles, an exposed peng of
    three tiles is appended, the drawn tile is untouched and the total number of
    tiles grows by one. *)
Theorem do_peng_commits_three (self : Player) (c : Card) :
  (2 ≤ count_card c (cards (hand self)))%nat →
  ∃ self',
    Player.do_peng c self = (Ok (), self') ∧
    cards (hand self') = remove_first c (remove_first c (cards (hand self))) ∧
    S (S (count_card c (cards (hand self')))) = count_card c (cards (hand self)) ∧
    drawn_card (hand self') = drawn_card (hand self) ∧
    exposed_groups (hand self') =
      exposed_groups (hand self) ++ [Group.mk peng [c; c; c] false] ∧
    Player.get_total_cards self' = S (Player.get_total_cards self).
Proof.
  intros Hc.
  assert (Player.can_peng c self = true) as Hcan.
  { unfold Player.can_peng. rewrite count_exact_card_false. by apply bool_decide_eq_true. }
  pose proof (do_peng_run self c Hcan) as Hrun. cbv zeta in Hrun.
  rewrite take_filter_replicate in Hrun by lia.
  assert (c ∈ cards (hand self)) as Hin by (apply count_card_pos; lia).
  pose proof (remove_first_count_eq c _ Hin) as Hc1.
  assert (c ∈ remove_first c (cards (hand self))) as Hin' by (apply count_card_pos; lia).
  pose proof (remove_first_count_eq c _ Hin') as Hc2.
  assert (PatternMatcher.remove_cards_from_list (cards (hand self)) (replicate 2 c) =
          remove_first c (remove_first c (cards (hand self)))) as Hrem.
  { unfold PatternMatcher.remove_cards_from_list. cbn [replicate fold_left].
    rewrite (decide_True (P := c ∈ cards (hand self))) by done. by rewrite decide_True by done. }
  rewrite Hrem in Hrun.
  eexists. split; [exact Hrun|].
  cbn [hand Player.set_hand cards drawn_card exposed_groups].
  split_and!; [done|lia|done|done|].
  apply (total_cards_perm _ _ [c]). unfold hand_tiles.
  cbn [hand Player.set_hand cards drawn_card exposed_groups].
  rewrite concat_snoc_group.
  pose proof (remove_first_perm c _ Hin) as P1. pose proof (remove_first_perm c _ Hin') as P2.
  apply count_card_Permutation. intros x.
  apply (count_card_perm_eq _ _ x) in P1, P2.
  count_norm_in P1. count_norm_in P2. count_norm. cbn [replicate]. count_norm.
  destruct (decide (c = x)); lia.
Qed.

Lemma do_peng_commits_three_witness :
  ∃ self',
    Player.do_peng (major 4)
      (mkPlayer 1 false (mkHand [major 4; minor 4; major 4; major 4] None []) 0 false) =
      (Ok (), self') ∧
    cards (hand self') = [minor 4; major 4] ∧
    exposed_groups (hand self') = [Group.mk peng [major 4; major 4; major 4] false].
Proof.
  destruct (do_peng_commits_three
              (mkPlayer 1 false (mkHand [major 4; minor 4; major 4; major 4] None []) 0 false)
              (major 4))
    as (self' & Hrun & Hcards & _ & _ & Hgroups & _).
  - vm_compute. lia.
  - exists self'. split_and!; [exact Hrun|exact Hcards|exact Hgroups].
Defined.

(** X10. With a drawn tile of which exactly three copies are concealed and no
    wei of it committed, [do_ti] succeeds: the three copies leave the concealed
    tiles, a ti of the four tiles is appended, the drawn tile is cleared and the
    total number of tiles is unchanged. *)
Theorem do_ti_from_hand (self : Player) (d : Card) :
  drawn_card (hand self) = Some d →
  count_card d (cards (hand self)) = 3%nat →
  list_find (Hand.is_wei_of d) (exposed_groups (hand self)) = None →
  ∃ self',
    Player.do_ti self = (Ok (), self') ∧
    cards (hand self') = filter (λ c, c ≠ d) (cards (hand self)) ∧
    drawn_card (hand self') = None ∧
    exposed_groups (hand self') =
      exposed_groups (hand self) ++ [Group.mk ti [d; d; d; d] false] ∧
    Player.get_total_cards self' = Player.get_total_cards self.
Proof.
  intros Hd Hc Hfind.
  assert (Player.can_ti self = true) as Hcan.
  { unfold Player.can_ti, Hand.can_ti. rewrite Hd, count_exact_card_false.
    by rewrite bool_decide_eq_true_2. }
  pose proof (do_ti_run self d Hd Hcan) as Hrun. unfold upgrade_or_take in Hrun.
  rewrite Hfind in Hrun. cbv zeta in Hrun.
  rewrite take_filter_replicate in Hrun by lia.
  rewrite (remove_all_copies d _ 3 Hc) in Hrun.
  eexists. split; [exact Hrun|].
  cbn [hand Player.set_hand cards drawn_card exposed_groups].
  split_and!; [done..|].
  apply (total_cards_perm _ _ []). cbn [app]. unfold hand_tiles.
  cbn [hand Player.set_hand cards drawn_card exposed_groups].
  rewrite concat_snoc_group.
  rewrite ?Hd.
  pose proof (filter_app_complement (λ x, x = d) (cards (hand self))) as Hperm.
  rewrite filter_eq_replicate, Hc in Hperm.
  apply count_card_Permutation. intros x. apply (count_card_perm_eq _ _ x) in Hperm.
  cbn [replicate] in Hperm. count_norm_in Hperm. cbn [replicate]. count_norm.
  destruct (decide (d = x)); lia.
Qed.

Lemma do_ti_from_hand_witness :
  ∃ self',
    Player.do_ti
      (mkPlayer 0 true (mkHand [minor 6; minor 6; major 1; minor 6] (Some (minor 6)) [])
                0 true) = (Ok (), self') ∧
    cards (hand self') = [major 1] ∧
    exposed_groups (hand self') = [Group.mk ti [minor 6; minor 6; minor 6; minor 6] false].
Proof.
  destruct (do_ti_from_hand
              (mkPlayer 0 true (mkHand [minor 6; minor 6; major 1; minor 6] (Some (minor 6)) [])
                        0 true) (minor 6))
    as (self' & Hrun & Hcards & _ & Hgroups & _).
  - reflexivity.
  - reflexivity.
  - reflexivity.
  - exists self'. split_and!; [exact Hrun|exact Hcards|exact Hgroups].
Defined.

(** X11. With exactly three concealed copies of the discarded tile and no wei of
    it committed, [do_pao] succeeds: the three copies leave the concealed tiles,
    a pao of the four tiles is appended and the total number of tiles grows by
    one. *)
Theorem do_pao_from_hand (self : Player) (c : Card) :
  count_card c (cards (hand self)) = 3%nat →
  list_find (Hand.is_wei_of c) (exposed_groups (hand self)) = None →
  ∃ self',
    Player.do_pao c self = (Ok (), self') ∧
    cards (hand self') = filter (λ x, x ≠ c) (cards (hand self)) ∧
    drawn_card (hand self') = drawn_card (hand self) ∧
    exposed_groups (hand self') =
      exposed_groups (hand self) ++ [Group.mk pao [c; c; c; c] false] ∧
    Player.get_total_cards self' = S (Player.get_total_cards self).
Proof.
  intros Hc Hfind.
  assert (Player.can_pao c self = true) as Hcan.
  { unfold Player.can_pao. rewrite Hfind, count_exact_card_false, Hc. done. }
  pose proof (do_pao_run self c Hcan) as Hrun. unfold upgrade_or_take in Hrun.
  rewrite Hfind in Hrun. cbv zeta in Hrun.
  rewrite take_filter_replicate in Hrun by lia.
  rewrite (remove_all_copies c _ 3 Hc) in Hrun.
  eexists. split; [exact Hrun|].
  cbn [hand Player.set_hand cards drawn_card exposed_groups].
  split_and!; [done..|].
  apply (total_cards_perm _ _ [c]). unfold hand_tiles.
  cbn [hand Player.set_hand cards drawn_card exposed_groups].
  rewrite concat_snoc_group.
  pose proof (filter_app_complement (λ x, x = c) (cards (hand self))) as Hperm.
  rewrite filter_eq_replicate, Hc in Hperm.
  apply count_card_Permutation. intros x. apply (count_card_perm_eq _ _ x) in Hperm.
  cbn [replicate] in Hperm. count_norm_in Hperm. cbn [replicate]. count_norm.
  destruct (decide (c = x)); lia.
Qed.

Lemma do_pao_from_hand_witness :
  ∃ self',
    Player.do_pao (major 2)
      (mkPlayer 2 false (mkHand [major 2; major 2; minor 5; major 2] None []) 0 false) =
      (Ok (), self') ∧
    cards (hand self') = [minor 5] ∧
    exposed_groups (hand self') = [Group.mk pao [major 2; major 2; major 2; major 2] false].
Proof.
  destruct (do_pao_from_hand
              (mkPlayer 2 false (mkHand [major 2; major 2; minor 5; major 2] None []) 0 false)
              (major 2))
    as (self' & Hrun & Hcards & _ & Hgroups & _).
  - reflexivity.
  - reflexivity.
  - exists self'. split_and!; [exact Hrun|exact Hcards|exact Hgroups].
Defined.

(** X12. With a committed wei of three copies of the discarded tile and no
    concealed copy, [do_pao] succeeds: the wei is removed, a pao of the four
    tiles is appended at the end of the committed groups, the concealed tiles
    stay and the total number of tiles grows by one. *)
Theorem do_pao_upgrades_wei (self : Player) (c : Card) (i : nat) (g : Group) :
  list_find (Hand.is_wei_of c) (exposed_groups (hand self)) = Some (i, g) →
  Group.cards g = [c; c; c] →
  c ∉ cards (hand self) →
  ∃ self',
    Player.do_pao c self = (Ok (), self') ∧
    cards (hand self') = cards (hand self) ∧
    drawn_card (hand self') = drawn_card (hand self) ∧
    exposed_groups (hand self') =
      delete i (exposed_groups (hand self)) ++ [Group.mk pao [c; c; c; c] false] ∧
    Player.get_total_cards self' = S (Player.get_total_cards self).
Proof.
  intros Hfind Hg Hnin.
  assert (count_card c (cards (hand self)) = 0%nat) as Hc.
  { rewrite count_card_pos in Hnin. lia. }
  assert (Player.can_pao c self = true) as Hcan.
  { unfold Player.can_pao. rewrite Hfind, count_exact_card_false, Hc, Hg. done. }
  pose proof (do_pao_run self c Hcan) as Hrun. unfold upgrade_or_take in Hrun.
  rewrite Hfind, Hg in Hrun. cbn [app] in Hrun.
  eexists. split; [exact Hrun|].
  pose proof Hfind as (Hi & _)%list_find_Some.
  cbn [hand Player.set_hand cards drawn_card exposed_groups].
  split_and!; [done..|].
  apply (total_cards_perm _ _ [c]). unfold hand_tiles.
  cbn [hand Player.set_hand cards drawn_card exposed_groups].
  rewrite concat_snoc_group.
  pose proof (concat_delete_perm _ i g Hi) as Hperm. rewrite Hg in Hperm.
  apply count_card_Permutation. intros x. apply (count_card_perm_eq _ _ x) in Hperm.
  count_norm_in Hperm. count_norm.
  destruct (decide (c = x)); lia.
Qed.

Lemma do_pao_upgrades_wei_witness :
  ∃ self',
    Player.do_pao (minor 8)
      (mkPlayer 0 true
         (mkHand [minor 1; major 3] None
                 [Group.mk wei [minor 8; minor 8; minor 8] true;
                  Group.mk chi [minor 4; minor 5; minor 6] false]) 0 false) =
      (Ok (), self') ∧
    exposed_groups (hand self') =
      [Group.mk chi [minor 4; minor 5; minor 6] false;
       Group.mk pao [minor 8; minor 8; minor 8; minor 8] false].
Proof.
  destruct (do_pao_upgrades_wei
              (mkPlayer 0 true
                 (mkHand [minor 1; major 3] None
                         [Group.mk wei [minor 8; minor 8; minor 8] true;
                          Group.mk chi [minor 4; minor 5; minor 6] false]) 0 false)
              (minor 8) 0 (Group.mk wei [minor 8; minor 8; minor 8] true))
    as (self' & Hrun & _ & _ & Hgroups & _).
  - reflexivity.
  - reflexivity.
  - cbn. intros Hin.
    by repeat (apply elem_of_cons in Hin as [Hin|Hin]; [by inversion Hin|]);
      apply elem_of_nil in Hin.
  - exists self'. split; [exact Hrun|exact Hgroups].
Defined.

(** X13. [do_wei], [do_ti], [do_peng] and [do_pao] raise only at their legality
    test: when one of them raises, the player is unchanged and the matching
    [can_] query is false. *)
Theorem commit_failure_is_atomic (self self' : Player) (e : exn) :
  (Player.do_wei self = (Raise e, self') → self' = self ∧ Player.can_wei self = false) ∧
  (Player.do_ti self = (Raise e, self') → self' = self ∧ Player.can_ti self = false) ∧
  (∀ c, Player.do_peng c self = (Raise e, self') →
        self' = self ∧ Player.can_peng c self = false) ∧
  (∀ c, Player.do_pao c self = (Raise e, self') →
        self' = self ∧ Player.can_pao c self = false).
Proof.
  split_and!.
  - destruct (Player.can_wei self) eqn:Hcan.
    + destruct (can_wei_drawn self Hcan) as (d & Hd & _).
      by rewrite (do_wei_run self d Hd Hcan).
    + unfold Player.do_wei. rewrite st_bind_run. cbn [get]. rewrite Hcan.
      by intros [= _ <-].
  - destruct (Player.can_ti self) eqn:Hcan.
    + destruct (can_ti_drawn self Hcan) as (d & Hd).
      pose proof (do_ti_run self d Hd Hcan) as Hrun.
      destruct (upgrade_or_take d (hand self)) as [[four cs'] gs']. by rewrite Hrun.
    + unfold Player.do_ti. rewrite st_bind_run. cbn [get]. rewrite Hcan.
      by intros [= _ <-].
  - intros c. destruct (Player.can_peng c self) eqn:Hcan.
    + by rewrite (do_peng_run self c Hcan).
    + unfold Player.do_peng. rewrite st_bind_run. cbn [get]. rewrite Hcan.
      by intros [= _ <-].
  - intros c. destruct (Player.can_pao c self) eqn:Hcan.
    + pose proof (do_pao_run self c Hcan) as Hrun.
      destruct (upgrade_or_take c (hand self)) as [[four cs'] gs']. by rewrite Hrun.
    + unfold Player.do_pao. rewrite st_bind_run. cbn [get]. rewrite Hcan.
      by intros [= _ <-].
Qed.

Lemma can_chi_option_run (self : Player) (d : Card) (option : list Card) :
  option ∈ Player.can_chi d self →
  ∃ c1 c2 self',
    option = [c1; c2] ∧
    Player.do_chi d option self = (Ok (), self') ∧
    cards (hand self') = remove_first c2 (remove_first c1 (cards (hand self))) ∧
    [c1; c2] ++ cards (hand self') ≡ₚ cards (hand self) ∧
    drawn_card (hand self') = drawn_card (hand self) ∧
    exposed_groups (hand self') =
      exposed_groups (hand self) ++ [Group.mk chi [d; c1; c2] false].
Proof.
  intros Hin.
  pose proof (can_chi_positions d (cards (hand self)) self eq_refl) as Hpos.
  destruct (proj1 (list_elem_of_lookup _ _) Hin) as [k Hk].
  destruct (Forall2_lookup_r _ _ _ _ _ Hpos Hk) as ([i j] & Hij & c1 & c2 & H1 & H2 & ->).
  apply list_elem_of_lookup_2, chi_positions_elem_of in Hij
    as (Hlt & c1' & c2' & H1' & H2' & Hvalid).
  rewrite H1 in H1'. rewrite H2 in H2'. injection H1' as <-. injection H2' as <-.
  assert (c1 ≠ c2) as Hne.
  { apply valid_sequence_values_NoDup in Hvalid.
    apply NoDup_cons in Hvalid as [_ Hvalid]. apply NoDup_cons in Hvalid as [Hn _].
    intros ->. apply Hn, list_elem_of_here. }
  assert (c1 ∈ cards (hand self)) as Hin1 by by eapply list_elem_of_lookup_2.
  assert (c2 ∈ cards (hand self)) as Hin2 by by eapply list_elem_of_lookup_2.
  assert (c2 ∈ remove_first c1 (cards (hand self))) as Hin2'.
  { apply count_card_pos. rewrite remove_first_count_ne by done. by apply count_card_pos. }
  assert ([c1; c2] ⊆+ cards (hand self)) as Hsub.
  { rewrite (remove_first_perm c1 _ Hin1). apply submseteq_skip.
    by apply singleton_submseteq_l. }
  exists c1, c2. eexists. split; [done|]. split; [by apply do_chi_run|].
  cbn [hand Player.set_hand cards drawn_card exposed_groups].
  assert (PatternMatcher.remove_cards_from_list (cards (hand self)) [c1; c2] =
          remove_first c2 (remove_first c1 (cards (hand self)))) as Hrem.
  { unfold PatternMatcher.remove_cards_from_list. cbn [fold_left].
    rewrite (decide_True (P := c1 ∈ cards (hand self))) by done.
    by rewrite decide_True by done. }
  split_and!; [done| |done|done].
  by apply (remove_cards_from_list_perm _ [c1; c2]).
Qed.


(** X14. Every answer of [can_chi] can be played: [do_chi] with the discarded
    tile and that answer succeeds, removes the first copy of each of the two
    tiles from the concealed tiles, appends the chi of the three tiles and
    leaves the drawn tile. *)
Theorem can_chi_then_do_chi (self : Player) (d : Card) (option : list Card) :
  option ∈ Player.can_chi d self →
  ∃ c1 c2 self',
    option = [c1; c2] ∧
    Player.do_chi d option self = (Ok (), self') ∧
    cards (hand self') = remove_first c2 (remove_first c1 (cards (hand self))) ∧
    [c1; c2] ++ cards (hand self') ≡ₚ cards (hand self) ∧
    drawn_card (hand self') = drawn_card (hand self) ∧
    exposed_groups (hand self') =
      exposed_groups (hand self) ++ [Group.mk chi [d; c1; c2] false].
Proof. apply can_chi_option_run. Qed.

Lemma can_chi_then_do_chi_witness :
  ∃ self',
    Player.do_chi (minor 2) [minor 7; minor 10]
      (mkPlayer 1 false (mkHand [minor 7; major 2; minor 10; minor 7] None []) 0 false) =
      (Ok (), self') ∧
    cards (hand self') = [major 2; minor 7].
Proof.
  destruct (can_chi_then_do_chi
              (mkPlayer 1 false (mkHand [minor 7; major 2; minor 10; minor 7] None []) 0 false)
              (minor 2) [minor 7; minor 10])
    as (c1 & c2 & self' & Heq & Hrun & Hcards & _).
  - vm_compute. apply list_elem_of_here.
  - exists self'. split; [exact Hrun|]. injection Heq as <- <-. exact Hcards.
Defined.

(** X15. [do_chi] is not atomic: asked to use a first tile that is held and a
    second that is not (the three forming a valid sequence), it removes the
    first tile, then raises [ValueError], and the hand is left without that
    tile. *)
Theorem do_chi_partial_failure (self : Player) (d c1 c2 : Card) :
  PatternMatcher.is_valid_sequence [d; c1; c2] = true →
  c1 ∈ cards (hand self) →
  c2 ∉ cards (hand self) →
  Player.do_chi d [c1; c2] self =
  (Raise ValueError,
   Player.set_hand (Hand.set_cards (remove_first c1 (cards (hand self))) (hand self)) self).
Proof.
  intros Hvalid Hin1 Hin2. unfold Player.do_chi. rewrite Hvalid. cbn [negb for_each].
  assert (c2 ∉ remove_first c1 (cards (hand self))) as Hin2'.
  { intros Hin. apply Hin2. eapply elem_of_submseteq; [exact Hin|apply remove_first_submseteq]. }
  rewrite !st_bind_run. unfold Player.on_hand at 1, Hand.remove_card at 1.
  rewrite st_bind_run. cbn [get]. rewrite bool_decide_eq_true_2 by done.
  rewrite st_bind_run. unfold modify at 1. cbn [mret st_ret negb].
  rewrite !st_bind_run. unfold Player.on_hand at 1, Hand.remove_card at 1.
  rewrite st_bind_run. cbn [get hand Player.set_hand Hand.set_cards cards].
  rewrite bool_decide_eq_false_2 by done.
  by destruct self as [? ? [? ? ?] ? ?].
Qed.

Lemma do_chi_partial_failure_witness :
  Player.do_chi (minor 3) [minor 4; minor 5]
    (mkPlayer 0 true (mkHand [minor 9; minor 4; major 5] None []) 0 false) =
  (Raise ValueError, mkPlayer 0 true (mkHand [minor 9; major 5] None []) 0 false).
Proof.
  apply (do_chi_partial_failure
           (mkPlayer 0 true (mkHand [minor 9; minor 4; major 5] None []) 0 false)
           (minor 3) (minor 4) (minor 5)).
  - reflexivity.
  - apply list_elem_of_further, list_elem_of_here.
  - cbn. intros Hin.
    by repeat (apply elem_of_cons in Hin as [Hin|Hin]; [by inversion Hin|]);
      apply elem_of_nil in Hin.
Defined.

(** ** Discarding, conservation of tiles and well-formed groups *)

Section discard_facts.
Implicit Types (c d card : Card) (self : Player).

Lemma discard_card_run self card :
  Player.discard_card card self =
  if decide (drawn_card (hand self) = Some card) then
    (Ok card, Player.set_hand (Hand.set_drawn_card None (hand self)) self)
  else if decide (card ∈ cards (hand self)) then
    (Ok card,
     Player.set_hand
       (mkHand (remove_first card (cards (hand self)) ++
                match drawn_card (hand self) with Some d => [d] | None => [] end)
               None (exposed_groups (hand self))) self)
  else (Raise ValueError, self).
Proof.
  unfold Player.discard_card. rewrite st_bind_run. cbn [get].
  destruct self as [pid hum [cs dr gs] sc dl]. cbn [hand cards drawn_card exposed_groups].
  destruct (decide (dr = Some card)) as [->|Hdr].
  - by rewrite bool_decide_eq_true_2.
  - rewrite bool_decide_eq_false_2 by done.
    destruct (decide (card ∈ cs)) as [Hin|Hin].
    + rewrite bool_decide_eq_true_2 by done.
      unfold Player.on_hand, Hand.discard_hand_card. rewrite st_bind_run. cbn [get cards].
      rewrite bool_decide_eq_true_2 by done. cbn [negb].
      rewrite st_bind_run, cards_remove_run by done.
      destruct dr as [d|]; cbn; by rewrite app_nil_r || done.
    + by rewrite bool_decide_eq_false_2.
Qed.
Lemma do_wei_conserves p p' :
  Player.do_wei p = (Ok (), p') → hand_tiles (hand p') ≡ₚ hand_tiles (hand p).
Proof.
  destruct (Player.can_wei p) eqn:Hcan.
  - destruct (can_wei_drawn p Hcan) as (d & Hd & _).
    rewrite (do_wei_run p d Hd Hcan). intros [= <-].
    unfold hand_tiles. cbn [hand Player.set_hand cards drawn_card exposed_groups].
    rewrite Hd, concat_snoc_group.
    pose proof (remove_cards_from_list_perm (cards (hand p)) _
                  (take_filter_submseteq d (cards (hand p)) 2)) as Hperm.
    apply count_card_Permutation. intros x. apply (count_card_perm_eq _ _ x) in Hperm.
    count_norm_in Hperm. count_norm. repeat case_decide; lia.
  - unfold Player.do_wei. rewrite st_bind_run. cbn [get]. by rewrite Hcan.
Qed.

Lemma do_ti_conserves p p' :
  Player.do_ti p = (Ok (), p') → hand_tiles (hand p') ≡ₚ hand_tiles (hand p).
Proof.
  destruct (Player.can_ti p) eqn:Hcan.
  - destruct (can_ti_drawn p Hcan) as (d & Hd).
    pose proof (do_ti_run p d Hd Hcan) as Hrun.
    destruct (upgrade_or_take d (hand p)) as [[four cs'] gs'] eqn:Hup.
    rewrite Hrun. intros [= <-].
    unfold hand_tiles. cbn [hand Player.set_hand cards drawn_card exposed_groups].
    rewrite Hd, concat_snoc_group.
    pose proof (upgrade_or_take_perm _ _ _ _ _ Hup) as Hperm.
    apply count_card_Permutation. intros x. apply (count_card_perm_eq _ _ x) in Hperm.
    count_norm_in Hperm. count_norm. repeat case_decide; lia.
  - unfold Player.do_ti. rewrite st_bind_run. cbn [get]. by rewrite Hcan.
Qed.

End discard_facts.

(** X16. Discarding a tile that is the drawn tile or a concealed one succeeds
    and returns that tile; afterwards there is no drawn tile, the committed
    groups are as before, the concealed tiles with the discarded one are a
    rearrangement of the former concealed and drawn tiles, and the total is one
    less. When the tile is the drawn one, it is the drawn tile that goes: the
    concealed tiles stay. *)
Theorem discard_card_effect (self : Player) (card : Card) :
  card ∈ cards (hand self) ∨ drawn_card (hand self) = Some card →
  ∃ self',
    Player.discard_card card self = (Ok card, self') ∧
    drawn_card (hand self') = None ∧
    exposed_groups (hand self') = exposed_groups (hand self) ∧
    card :: cards (hand self') ≡ₚ
      cards (hand self) ++ match drawn_card (hand self) with Some d => [d] | None => [] end ∧
    (drawn_card (hand self) = Some card → cards (hand self') = cards (hand self)) ∧
    S (Player.get_total_cards self') = Player.get_total_cards self.
Proof.
  intros Hhas. rewrite discard_card_run.
  assert (∀ self', drawn_card (hand self') = None →
            exposed_groups (hand self') = exposed_groups (hand self) →
            card :: cards (hand self') ≡ₚ
              cards (hand self) ++
              match drawn_card (hand self) with Some d => [d] | None => [] end →
            S (Player.get_total_cards self') = Player.get_total_cards self) as Htotal.
  { intros self' Hd Hg Hperm. unfold Player.get_total_cards.
    rewrite !get_total_count_hand_tiles. unfold hand_tiles. rewrite Hd, Hg.
    rewrite (assoc (++) (cards (hand self))), <- Hperm. cbn. by rewrite !length_app. }
  destruct (decide (drawn_card (hand self) = Some card)) as [Hd|Hd].
  - eexists. split; [done|].
    cbn [hand Player.set_hand Hand.set_drawn_card cards drawn_card exposed_groups].
    assert (card :: cards (hand self) ≡ₚ cards (hand self) ++
              match drawn_card (hand self) with Some d => [d] | None => [] end) as Hperm.
    { rewrite Hd. apply Permutation_cons_append. }
    split_and!; [done..|]. by apply Htotal.
  - destruct Hhas as [Hin|?]; [|done]. rewrite decide_True by done.
    eexists. split; [done|].
    cbn [hand Player.set_hand cards drawn_card exposed_groups].
    assert (card :: remove_first card (cards (hand self)) ++
              match drawn_card (hand self) with Some d => [d] | None => [] end ≡ₚ
            cards (hand self) ++
              match drawn_card (hand self) with Some d => [d] | None => [] end) as Hperm.
    { by rewrite (remove_first_perm card (cards (hand self)) Hin) at 2. }
    split_and!; [done..|]. by apply Htotal.
Qed.

Lemma discard_card_effect_witness :
  ∃ self',
    Player.discard_card (minor 2)
      (mkPlayer 0 true (mkHand [minor 1; minor 2; minor 3] (Some (major 9)) []) 0 false) =
      (Ok (minor 2), self') ∧
    drawn_card (hand self') = None.
Proof.
  destruct (discard_card_effect
              (mkPlayer 0 true (mkHand [minor 1; minor 2; minor 3] (Some (major 9)) []) 0 false)
              (minor 2)) as (self' & Hrun & Hdrawn & _).
  - left. apply list_elem_of_further, list_elem_of_here.
  - exists self'. split; [exact Hrun|exact Hdrawn].
Defined.

(** X17. Discarding a tile that is neither the drawn tile nor among the
    concealed tiles raises [ValueError] and leaves the player unchanged. *)
Theorem discard_card_not_held (self : Player) (card : Card) :
  card ∉ cards (hand self) → drawn_card (hand self) ≠ Some card →
  Player.discard_card card self = (Raise ValueError, self).
Proof.
  intros Hin Hd. rewrite discard_card_run. by rewrite !decide_False.
Qed.

Lemma discard_card_not_held_witness :
  Player.discard_card (major 7)
    (mkPlayer 0 true (mkHand [minor 7] (Some (minor 2)) []) 0 false) =
  (Raise ValueError, mkPlayer 0 true (mkHand [minor 7] (Some (minor 2)) []) 0 false).
Proof.
  apply discard_card_not_held.
  - cbn. intros Hin.
    by repeat (apply elem_of_cons in Hin as [Hin|Hin]; [by inversion Hin|]);
      apply elem_of_nil in Hin.
  - done.
Defined.

(** X18. No action of a player creates or loses a tile. After a successful
    [do_wei] or [do_ti] the hand holds the same tiles as before; after
    [do_peng], [do_pao], [do_chi] or [draw_card] it holds them and the tile
    taken; after [discard_card] it holds them but for the tile given, which is
    the one returned. *)
Theorem actions_conserve_tiles (self self' : Player) :
  (Player.do_wei self = (Ok (), self') →
   hand_tiles (hand self') ≡ₚ hand_tiles (hand self)) ∧
  (Player.do_ti self = (Ok (), self') →
   hand_tiles (hand self') ≡ₚ hand_tiles (hand self)) ∧
  (∀ c, Player.do_peng c self = (Ok (), self') →
        hand_tiles (hand self') ≡ₚ c :: hand_tiles (hand self)) ∧
  (∀ c, Player.do_pao c self = (Ok (), self') →
        hand_tiles (hand self') ≡ₚ c :: hand_tiles (hand self)) ∧
  (∀ c hand_cards, Player.do_chi c hand_cards self = (Ok (), self') →
        hand_tiles (hand self') ≡ₚ c :: hand_tiles (hand self)) ∧
  (∀ c, Player.draw_card c self = (Ok (), self') →
        hand_tiles (hand self') ≡ₚ c :: hand_tiles (hand self)) ∧
  (∀ c r, Player.discard_card c self = (Ok r, self') →
        r = c ∧ c :: hand_tiles (hand self') ≡ₚ hand_tiles (hand self)).
Proof.
  split_and!.
  - apply do_wei_conserves.
  - apply do_ti_conserves.
  - intros c. destruct (Player.can_peng c self) eqn:Hcan.
    + rewrite (do_peng_run self c Hcan). intros [= <-].
      unfold hand_tiles. cbn [hand Player.set_hand cards drawn_card exposed_groups].
      rewrite concat_snoc_group.
      pose proof (remove_cards_from_list_perm (cards (hand self)) _
                    (take_filter_submseteq c (cards (hand self)) 2)) as Hperm.
      apply count_card_Permutation. intros x. apply (count_card_perm_eq _ _ x) in Hperm.
      count_norm_in Hperm. count_norm. repeat case_decide; lia.
    + unfold Player.do_peng. rewrite st_bind_run. cbn [get]. by rewrite Hcan.
  - intros c. destruct (Player.can_pao c self) eqn:Hcan.
    + pose proof (do_pao_run self c Hcan) as Hrun.
      destruct (upgrade_or_take c (hand self)) as [[four cs'] gs'] eqn:Hup.
      rewrite Hrun. intros [= <-].
      unfold hand_tiles. cbn [hand Player.set_hand cards drawn_card exposed_groups].
      rewrite concat_snoc_group.
      pose proof (upgrade_or_take_perm _ _ _ _ _ Hup) as Hperm.
      apply count_card_Permutation. intros x. apply (count_card_perm_eq _ _ x) in Hperm.
      count_norm_in Hperm. count_norm. repeat case_decide; lia.
    + unfold Player.do_pao. rewrite st_bind_run. cbn [get]. by rewrite Hcan.
  - intros c hand_cards. unfold Player.do_chi.
    destruct (PatternMatcher.is_valid_sequence (c :: hand_cards)); [|done]. cbn [negb].
    rewrite st_bind_run.
    destruct (do_chi_loop_run hand_cards self) as [[Hsub ->]|[_ [s' ->]]]; [|done].
    unfold Player.on_hand, Hand.add_exposed_group, modify.
    cbn [hand Player.set_hand]. intros [= <-].
    unfold hand_tiles.
    cbn [hand Player.set_hand Hand.set_cards Hand.set_exposed_groups cards drawn_card
         exposed_groups].
    rewrite concat_snoc_group.
    pose proof (remove_cards_from_list_perm (cards (hand self)) _ Hsub) as Hperm.
    apply count_card_Permutation. intros x. apply (count_card_perm_eq _ _ x) in Hperm.
    count_norm_in Hperm. count_norm. repeat case_decide; lia.
  - intros c. unfold Player.draw_card, Player.on_hand, Hand.draw_card.
    rewrite st_bind_run. cbn [get].
    destruct (drawn_card (hand self)) as [d|] eqn:Hd; [done|].
    rewrite bool_decide_eq_false_2 by (by intros ?). unfold modify. intros [= <-].
    unfold hand_tiles.
    cbn [hand Player.set_hand Hand.set_drawn_card cards drawn_card exposed_groups].
    rewrite Hd. apply count_card_Permutation. intros x. count_norm. repeat case_decide; lia.
  - intros c r. rewrite discard_card_run.
    destruct (decide (drawn_card (hand self) = Some c)) as [Hd|Hd].
    + intros [= <- <-]. split; [done|]. unfold hand_tiles.
      cbn [hand Player.set_hand Hand.set_drawn_card cards drawn_card exposed_groups].
      rewrite Hd. apply count_card_Permutation. intros x. count_norm. repeat case_decide; lia.
    + destruct (decide (c ∈ cards (hand self))) as [Hin|Hin]; [|done].
      intros [= <- <-]. split; [done|]. unfold hand_tiles.
      cbn [hand Player.set_hand cards drawn_card exposed_groups].
      pose proof (remove_first_perm c _ Hin) as Hperm.
      apply count_card_Permutation. intros x. apply (count_card_perm_eq _ _ x) in Hperm.
      count_norm_in Hperm. count_norm. repeat case_decide; lia.
Qed.

Section well_formed_facts.
Implicit Types (c d : Card) (self : Player) (gs : list Group).

Lemma Forall_well_formed_snoc gs g :
  Forall well_formed_group gs → well_formed_group g → Forall well_formed_group (gs ++ [g]).
Proof. intros Hgs Hg. apply Forall_app. split; [done|by constructor]. Qed.

Lemma Forall_well_formed_delete gs i :
  Forall well_formed_group gs → Forall well_formed_group (delete i gs).
Proof. apply Forall_delete. Qed.

Lemma upgrade_or_take_four c h four cs' gs' :
  Forall well_formed_group (exposed_groups h) →
  upgrade_or_take c h = (four, cs', gs') →
  (count_card c (cards h) = 3%nat ∨
   ∃ i g, list_find (Hand.is_wei_of c) (exposed_groups h) = Some (i, g)) →
  (list_find (Hand.is_wei_of c) (exposed_groups h) = None →
   count_card c (cards h) = 3%nat) →
  four = [c; c; c; c] ∧ Forall well_formed_group gs'.
Proof.
  intros Hgs Hup Hcan Hnone. unfold upgrade_or_take in Hup.
  destruct (list_find _ _) as [[i g]|] eqn:Hfind.
  - injection Hup as <- <- <-.
    apply list_find_Some in Hfind as (Hi & [Hty Hhead] & _).
    split; [|by apply Forall_well_formed_delete].
    pose proof (Forall_lookup_1 _ _ _ _ Hgs Hi) as Hwf.
    unfold well_formed_group in Hwf. rewrite Hty in Hwf. destruct Hwf as [c' Hc'].
    rewrite Hc' in Hhead |- *. by injection Hhead as ->.
  - injection Hup as <- <- <-. split; [|done].
    rewrite take_filter_replicate by (rewrite Hnone by done; lia). done.
Qed.
End well_formed_facts.

(** X19. Every successful action of a player keeps the committed groups well
    formed (three equal tiles in a peng or a wei, four in a pao or a ti), so
    that the huxi of the committed groups is computed without an exception. *)
Theorem actions_keep_groups_well_formed (self self' : Player) :
  Forall well_formed_group (exposed_groups (hand self)) →
  (Player.do_wei self = (Ok (), self') ∨
   Player.do_ti self = (Ok (), self') ∨
   (∃ c, Player.do_peng c self = (Ok (), self')) ∨
   (∃ c, Player.do_pao c self = (Ok (), self')) ∨
   (∃ c hand_cards, Player.do_chi c hand_cards self = (Ok (), self')) ∨
   (∃ c, Player.draw_card c self = (Ok (), self')) ∨
   (∃ c r, Player.discard_card c self = (Ok r, self'))) →
  Forall well_formed_group (exposed_groups (hand self')) ∧
  ∃ huxi, HuxiCalculator.exposed_huxi 0 (exposed_groups (hand self')) = Ok huxi.
Proof.
  intros Hgs Hact.
  assert (Forall well_formed_group (exposed_groups (hand self'))) as Hgs';
    [|split; [done|by apply exposed_huxi_ok]].
  destruct Hact as [H|[H|[[c H]|[[c H]|[(c & hc & H)|[[c H]|(c & r & H)]]]]]].
  - destruct (Player.can_wei self) eqn:Hcan.
    + destruct (can_wei_drawn self Hcan) as (d & Hd & Hc).
      rewrite (do_wei_run self d Hd Hcan) in H. injection H as <-.
      cbn [hand Player.set_hand exposed_groups].
      apply Forall_well_formed_snoc; [done|]. exists d.
      cbn [Group.cards]. by rewrite take_filter_replicate by lia.
    + unfold Player.do_wei in H. rewrite st_bind_run in H. cbn [get] in H.
      by rewrite Hcan in H.
  - destruct (Player.can_ti self) eqn:Hcan.
    + destruct (can_ti_drawn self Hcan) as (d & Hd).
      pose proof (do_ti_run self d Hd Hcan) as Hrun.
      destruct (upgrade_or_take d (hand self)) as [[four cs'] gs'] eqn:Hup.
      rewrite Hrun in H. injection H as <-.
      cbn [hand Player.set_hand exposed_groups].
      unfold Player.can_ti, Hand.can_ti in Hcan. rewrite Hd in Hcan.
      rewrite count_exact_card_false in Hcan.
      destruct (upgrade_or_take_four d (hand self) four cs' gs' Hgs Hup) as [-> Hgs'].
      * case_bool_decide; [by left|]. right.
        apply existsb_exists in Hcan as (g & Hg%list_elem_of_In & Hwei%bool_decide_eq_true).
        destruct (list_find (Hand.is_wei_of d) (exposed_groups (hand self)))
          as [[i g']|] eqn:Hfind; [by eauto|].
        eapply list_find_None, Forall_forall in Hfind; [|exact Hg]. done.
      * intros Hnone. case_bool_decide; [done|].
        apply existsb_exists in Hcan as (g & Hg%list_elem_of_In & Hwei%bool_decide_eq_true).
        eapply list_find_None, Forall_forall in Hnone; [|exact Hg]. done.
      * apply Forall_well_formed_snoc; [done|]. by exists d.
    + unfold Player.do_ti in H. rewrite st_bind_run in H. cbn [get] in H.
      by rewrite Hcan in H.
  - destruct (Player.can_peng c self) eqn:Hcan.
    + rewrite (do_peng_run self c Hcan) in H. injection H as <-.
      cbn [hand Player.set_hand exposed_groups].
      apply Forall_well_formed_snoc; [done|]. exists c. cbn [Group.cards].
      unfold Player.can_peng in Hcan. rewrite count_exact_card_false in Hcan.
      apply bool_decide_eq_true in Hcan. by rewrite take_filter_replicate by lia.
    + unfold Player.do_peng in H. rewrite st_bind_run in H. cbn [get] in H.
      by rewrite Hcan in H.
  - destruct (Player.can_pao c self) eqn:Hcan.
    + pose proof (do_pao_run self c Hcan) as Hrun.
      destruct (upgrade_or_take c (hand self)) as [[four cs'] gs'] eqn:Hup.
      rewrite Hrun in H. injection H as <-.
      cbn [hand Player.set_hand exposed_groups].
      unfold Player.can_pao in Hcan. rewrite count_exact_card_false in Hcan.
      apply bool_decide_eq_true in Hcan.
      destruct (upgrade_or_take_four c (hand self) four cs' gs' Hgs Hup) as [-> Hgs'].
      * destruct (list_find (Hand.is_wei_of c) (exposed_groups (hand self)))
          as [[i g']|] eqn:Hfind; [by eauto|]. left. lia.
      * intros Hnone. rewrite Hnone in Hcan. lia.
      * apply Forall_well_formed_snoc; [done|]. by exists c.
    + unfold Player.do_pao in H. rewrite st_bind_run in H. cbn [get] in H.
      by rewrite Hcan in H.
  - unfold Player.do_chi in H.
    destruct (PatternMatcher.is_valid_sequence (c :: hc)); [|done]. cbn [negb] in H.
    rewrite st_bind_run in H.
    destruct (do_chi_loop_run hc self) as [[Hsub Hrun]|[_ [s' Hrun]]];
      rewrite Hrun in H; [|done].
    injection H as <-. cbn. by apply Forall_well_formed_snoc.
  - unfold Player.draw_card, Player.on_hand, Hand.draw_card in H.
    rewrite st_bind_run in H. cbn [get] in H.
    destruct (bool_decide _); [done|]. injection H as <-. done.
  - rewrite discard_card_run in H. repeat case_decide; [| |done]; by injection H as <- <-.
Qed.

Lemma actions_keep_groups_well_formed_witness :
  ∃ huxi,
    HuxiCalculator.exposed_huxi 0
      [Group.mk wei [minor 3; minor 3; minor 3] true] = Ok huxi.
Proof.
  destruct (actions_keep_groups_well_formed
              (mkPlayer 0 true (mkHand [minor 3; major 9; minor 3] (Some (minor 3)) [])
                        0 false)
              (mkPlayer 0 true
                        (mkHand [major 9] None [Group.mk wei [minor 3; minor 3; minor 3] true])
                        0 false)) as [_ Hhuxi].
  - constructor.
  - left. reflexivity.
  - exact Hhuxi.
Defined.

(** ** The order of cards and sorting *)

Section card_order.
Implicit Types (a b c x y : Card) (l : list Card).

Lemma card_lt_spec a b :
  card_lt a b = true ↔
  value a < value b ∨ (value a = value b ∧ is_uppercase a = false ∧ is_uppercase b = true).
Proof.
  unfold card_lt. destruct (is_uppercase a), (is_uppercase b);
    case_bool_decide; cbn [negb andb]; rewrite ?bool_decide_eq_true;
    intuition (lia || congruence).
Qed.

Lemma card_le_spec a b :
  card_le a b ↔
  value a < value b ∨ (value a = value b ∧ (is_uppercase a = true → is_uppercase b = true)).
Proof.
  unfold card_le. rewrite <- not_true_iff_false, card_lt_spec.
  destruct (is_uppercase a), (is_uppercase b); intuition (lia || congruence).
Qed.

#[global] Instance card_le_trans : Transitive card_le.
Proof.
  intros a b c. rewrite !card_le_spec.
  intros [?|[? Hab]] [?|[? Hbc]]; [left; lia..|]. right. split; [lia|auto].
Qed.

#[global] Instance card_le_antisymm : AntiSymm (=) card_le.
Proof.
  intros a b. rewrite !card_le_spec.
  intros [?|[? Hab]] [?|[? Hba]]; try lia.
  destruct a as [va ua], b as [vb ub]. cbn in *. subst. f_equal.
  destruct ua, ub; try done; [by specialize (Hab eq_refl)|by specialize (Hba eq_refl)].
Qed.

Lemma card_le_total a b : card_le a b ∨ card_le b a.
Proof. rewrite !card_le_spec. destruct (is_uppercase a), (is_uppercase b); lia. Qed.

Lemma card_insort_perm x l : card_insort x l ≡ₚ x :: l.
Proof.
  induction l as [|y l IH]; [done|]. cbn. destruct (card_lt x y); [done|].
  rewrite IH. apply Permutation_swap.
Qed.

Lemma card_insort_sorted x l :
  StronglySorted card_le l → StronglySorted card_le (card_insort x l).
Proof.
  induction l as [|y l IH]; intros Hs; [repeat constructor|].
  apply StronglySorted_cons in Hs as [Hy Hs]. cbn.
  destruct (card_lt x y) eqn:Hxy.
  - assert (card_le x y) as Hle.
    { destruct (card_le_total x y) as [?|Hyx]; [done|].
      unfold card_le in Hyx. congruence. }
    apply StronglySorted_cons. split; [|by apply StronglySorted_cons].
    constructor; [done|]. eapply Forall_impl; [exact Hy|]. intros z Hz. by etrans.
  - apply StronglySorted_cons. split; [|by apply IH].
    rewrite card_insort_perm. by constructor.
Qed.

Lemma cards_sort_acc l acc :
  StronglySorted card_le acc →
  fold_left (λ acc x, card_insort x acc) l acc ≡ₚ acc ++ l ∧
  StronglySorted card_le (fold_left (λ acc x, card_insort x acc) l acc).
Proof.
  revert acc. induction l as [|x l IH]; intros acc Hacc.
  - by rewrite app_nil_r.
  - cbn [fold_left]. destruct (IH (card_insort x acc)) as [Hp Hs].
    { by apply card_insort_sorted. }
    split; [|done]. rewrite Hp, card_insort_perm. by rewrite <- Permutation_middle.
Qed.

Lemma cards_sort_perm l : cards_sort l ≡ₚ l.
Proof. apply (cards_sort_acc l []). constructor. Qed.

Lemma cards_sort_sorted l : StronglySorted card_le (cards_sort l).
Proof. apply (cards_sort_acc l []). constructor. Qed.
End card_order.

(** X20. [sort_cards] rearranges the concealed tiles into increasing order for
    [Card.__lt__] and touches nothing else; that order is the only sorted
    rearrangement of these tiles, so the result does not depend on how
    [list.sort] proceeds. *)
Theorem sort_cards_sorted_permutation (self : Hand) :
  ∃ self',
    Hand.sort_cards self = (Ok (), self') ∧
    cards self' ≡ₚ cards self ∧
    StronglySorted (λ a b, card_lt b a = false) (cards self') ∧
    (∀ l, l ≡ₚ cards self → StronglySorted (λ a b, card_lt b a = false) l →
          l = cards self') ∧
    drawn_card self' = drawn_card self ∧
    exposed_groups self' = exposed_groups self.
Proof.
  eexists. split; [reflexivity|]. cbn. split_and!; [|apply cards_sort_sorted| |done..].
  - apply cards_sort_perm.
  - intros l Hperm Hsorted.
    apply (StronglySorted_unique card_le); [done|apply cards_sort_sorted|].
    by rewrite cards_sort_perm.
Qed.

(** X21. [Card.__lt__] is a strict total order on cards: irreflexive,
    transitive, asymmetric, and any two different cards are comparable. *)
Theorem card_lt_strict_total (a b c : Card) :
  card_lt a a = false ∧
  (card_lt a b = true → card_lt b c = true → card_lt a c = true) ∧
  (card_lt a b = true ∨ a = b ∨ card_lt b a = true) ∧
  (card_lt a b = true → card_lt b a = false).
Proof.
  split_and!.
  - apply not_true_iff_false. rewrite card_lt_spec.
    intros [?|(? & ? & ?)]; [lia|congruence].
  - rewrite !card_lt_spec. intros [?|(? & ? & ?)] [?|(? & ? & ?)]; try (left; lia).
    congruence.
  - destruct (card_lt a b) eqn:Hab; [by left|]. destruct (card_lt b a) eqn:Hba; [by auto|].
    right; left. by apply (anti_symm card_le).
  - rewrite <- not_true_iff_false, !card_lt_spec.
    intros [?|(? & ? & ?)] [?|(? & ? & ?)]; try lia. congruence.
Qed.

(** ** The deck *)

Section deck_facts.
Implicit Types (self : Deck.t) (num : Z) (c : Card).

Lemma slice_to_from {A} (l : list A) n : slice_to l n ++ slice_from l n = l.
Proof. apply take_drop. Qed.

Lemma slice_to_length {A} (l : list A) n :
  0 ≤ n ≤ Z.of_nat (length l) → length (slice_to l n) = Z.to_nat n.
Proof.
  intros Hn. unfold slice_to, slice_bound. rewrite bool_decide_eq_true_2 by lia.
  rewrite length_take. lia.
Qed.

Lemma deal_run self num :
  num ≤ Z.of_nat (length (Deck.remaining_cards self)) →
  Deck.deal num self =
  (Ok (slice_to (Deck.remaining_cards self) num),
   Deck.set_remaining_cards (slice_from (Deck.remaining_cards self) num) self).
Proof.
  intros Hn. unfold Deck.deal. rewrite st_bind_run. cbn [get].
  by rewrite bool_decide_eq_false_2 by lia.
Qed.

Lemma create_cards_run self :
  Deck._create_cards self = (Ok (), Deck.mk full_deck full_deck).
Proof. by destruct self. Qed.
End deck_facts.

(** X22. [deal] splits the remaining cards: when at most as many cards are asked
    as remain, the cards dealt followed by the cards left are the cards that
    remained, in order, and for a number that is not negative exactly that many
    are dealt; when more are asked than remain, it raises [ValueError] and the
    deck is unchanged. [draw] is [deal(1)]: both return the first remaining card
    and leave the same deck, and both raise [ValueError], with the deck
    unchanged, exactly when the deck is empty. *)
Theorem deal_splits_remaining (self : Deck.t) (num : Z) :
  (num ≤ Z.of_nat (length (Deck.remaining_cards self)) →
   ∃ dealt self',
     Deck.deal num self = (Ok dealt, self') ∧
     dealt ++ Deck.remaining_cards self' = Deck.remaining_cards self ∧
     Deck.cards self' = Deck.cards self ∧
     (0 ≤ num → length dealt = Z.to_nat num ∧
                Z.of_nat (Deck.get_remaining_count self') =
                  Z.of_nat (Deck.get_remaining_count self) - num)) ∧
  (num > Z.of_nat (length (Deck.remaining_cards self)) →
   Deck.deal num self = (Raise ValueError, self)) ∧
  match Deck.draw self with
  | (Ok card, self') => Deck.deal 1 self = (Ok [card], self')
  | (Raise e, self') =>
      Deck.deal 1 self = (Raise e, self') ∧ self' = self ∧
      Deck.is_empty self = true
  end.
Proof.
  split_and!.
  - intros Hn. eexists _, _. split; [by apply deal_run|]. cbn.
    split_and!; [apply slice_to_from|done|].
    intros Hpos. pose proof (slice_to_length (Deck.remaining_cards self) num) as Hlen.
    pose proof (slice_to_from (Deck.remaining_cards self) num) as Happ.
    apply (f_equal length) in Happ. rewrite length_app in Happ.
    unfold Deck.get_remaining_count. cbn. lia.
  - intros Hn. unfold Deck.deal. rewrite st_bind_run. cbn [get].
    by rewrite bool_decide_eq_true_2 by lia.
  - unfold Deck.draw, Deck.deal, Deck.is_empty. rewrite !st_bind_run. cbn [get].
    destruct (Deck.remaining_cards self) as [|card rest] eqn:Hrem.
    + done.
    + cbn [length]. rewrite bool_decide_eq_false_2 by lia. done.
Qed.

(** X23. [Deck()] succeeds: the deck holds eighty cards, four of every value
    from 1 to 10 in each case and no other card, and all of them remain to be
    dealt. *)
Theorem new_deck_composition :
  ∃ deck,
    Deck.init = Ok deck ∧
    length (Deck.cards deck) = 80%nat ∧
    Deck.remaining_cards deck = Deck.cards deck ∧
    (∀ c, valid_card c → count_card c (Deck.cards deck) = 4%nat) ∧
    (∀ c, c ∈ Deck.cards deck → valid_card c).
Proof.
  exists (Deck.mk full_deck full_deck). split_and!; [done..| |].
  - intros [v u] [Hlo Hhi]. cbn in Hlo, Hhi.
    assert (v ∈ Config.CARD_VALUES) as Hv.
    { unfold Config.CARD_VALUES.
      assert (v = 1 ∨ v = 2 ∨ v = 3 ∨ v = 4 ∨ v = 5 ∨ v = 6 ∨ v = 7 ∨ v = 8 ∨ v = 9 ∨ v = 10)
        as Hcases by lia.
      rewrite !elem_of_cons. tauto. }
    unfold Config.CARD_VALUES in Hv.
    repeat (apply elem_of_cons in Hv as [->|Hv];
            [destruct u; vm_compute; reflexivity|]).
    by apply elem_of_nil in Hv.
  - intros c Hc. cbn [Deck.cards] in Hc. unfold full_deck in Hc.
    apply list_elem_of_bind in Hc as (v & Hc & Hv).
    apply list_elem_of_bind in Hc as (k & Hc & _).
    assert (value c = v) as Hval.
    { apply elem_of_cons in Hc as [->|Hc]; [done|].
      by apply list_elem_of_singleton in Hc as ->. }
    unfold valid_card. rewrite Hval. unfold Config.CARD_VALUES in Hv.
    repeat (apply elem_of_cons in Hv as [->|Hv]; [lia|]).
    by apply elem_of_nil in Hv.
Qed.

(** ** Rounds of the game *)

Section game_facts.
Implicit Types (g : Game.t) (p : Player).

Lemma gst_bind_run {S A B : Type} (f : A → gst S B) (c : gst S A) (s : S) :
  (c ≫= f) s = match c s with
               | (Returns a, s') => f a s'
               | (Raises e, s') => (Raises e, s')
               | (RaisesIndexError, s') => (RaisesIndexError, s')
               end.
Proof. done. Qed.

Lemma on_deck_deal_run g num :
  num ≤ Z.of_nat (length (Deck.remaining_cards (Game.deck g))) →
  Game.on_deck (Deck.deal num) g =
  (Returns (slice_to (Deck.remaining_cards (Game.deck g)) num),
   Game.set_deck (Deck.set_remaining_cards
                    (slice_from (Deck.remaining_cards (Game.deck g)) num) (Game.deck g)) g).
Proof. intros Hn. unfold Game.on_deck. by rewrite deal_run. Qed.

Lemma deal_initial_step g i p :
  Z.of_nat Config.INITIAL_HAND_SIZE ≤ Z.of_nat (length (Deck.remaining_cards (Game.deck g))) →
  Game.players g !! i = Some p →
  (cards ← Game.on_deck (Deck.deal (Z.of_nat Config.INITIAL_HAND_SIZE));
   _ ← Game.on_player_at i (Player.on_hand (Hand.add_cards cards));
   Game.on_player_at i (Player.on_hand Hand.sort_cards)) g =
  (Returns (),
   Game.set_players
     (<[i := dealt_to (take 20 (Deck.remaining_cards (Game.deck g))) p]> (Game.players g))
     (Game.set_deck (Deck.set_remaining_cards
                       (drop 20 (Deck.remaining_cards (Game.deck g))) (Game.deck g)) g)).
Proof.
  intros Hn Hp. rewrite gst_bind_run, on_deck_deal_run by done.
  rewrite gst_bind_run. unfold Game.on_player_at at 1.
  cbn [Game.players Game.set_deck]. rewrite Hp.
  cbn [Player.on_hand Hand.add_cards modify outcome_of].
  unfold Game.on_player_at. cbn [Game.players Game.set_players].
  rewrite list_lookup_insert_eq by (by eapply lookup_lt_Some).
  cbn [Player.on_hand Hand.sort_cards modify outcome_of].
  rewrite list_insert_insert_eq.
  by destruct g, p as [? ? [? ? ?] ? ?].
Qed.
End game_facts.

Section deal_facts.
Implicit Types (g : Game.t) (p : Player).

Lemma deal_initial_cards_run dk p0 p1 p2 cur dl ldc ldp go w rn jr :
  (60 ≤ length (Deck.remaining_cards dk))%nat →
  let R := Deck.remaining_cards dk in
  Game._deal_initial_cards (Game.mk dk [p0; p1; p2] cur dl ldc ldp go w rn jr) =
  (Returns (),
   Game.mk (Deck.set_remaining_cards (drop 60 R) dk)
           [dealt_to (take 20 R) p0; dealt_to (take 20 (drop 20 R)) p1;
            dealt_to (take 20 (drop 40 R)) p2]
           cur dl ldc ldp go w rn jr).
Proof.
  intros Hlen R. unfold Game._deal_initial_cards, Game.for_each_player.
  rewrite gst_bind_run. cbn [gget Game.players length seq gfor_each].
  rewrite gst_bind_run.
  rewrite (deal_initial_step _ 0 p0) by (first [done | unfold Config.INITIAL_HAND_SIZE; cbn; rewrite ?length_drop; lia]).
  cbn [Game.set_players Game.set_deck Game.players Game.deck list_insert
       Deck.remaining_cards Deck.set_remaining_cards Game.current_player_idx
       Game.dealer_idx Game.last_discarded_card Game.last_discard_player_idx Game.game_over
       Game.winner Game.round_number Game.just_responded].
  rewrite gst_bind_run.
  rewrite (deal_initial_step _ 1 p1) by (first [done | unfold Config.INITIAL_HAND_SIZE; cbn; rewrite ?length_drop; lia]).
  cbn [Game.set_players Game.set_deck Game.players Game.deck list_insert
       Deck.remaining_cards Deck.set_remaining_cards Game.current_player_idx
       Game.dealer_idx Game.last_discarded_card Game.last_discard_player_idx Game.game_over
       Game.winner Game.round_number Game.just_responded].
  rewrite gst_bind_run.
  rewrite (deal_initial_step _ 2 p2) by (first [done | unfold Config.INITIAL_HAND_SIZE; cbn; rewrite ?length_drop; lia]).
  cbn [Game.set_players Game.set_deck Game.players Game.deck list_insert
       Deck.remaining_cards Deck.set_remaining_cards Game.current_player_idx
       Game.dealer_idx Game.last_discarded_card Game.last_discard_player_idx Game.game_over
       Game.winner Game.round_number Game.just_responded].
  rewrite !drop_drop. done.
Qed.
End deal_facts.

Section start_round_facts.
Implicit Types (g : Game.t) (p : Player).

Lemma reset_hands_run dk p0 p1 p2 cur dl ldc ldp go w rn jr :
  Game.for_each_player (λ i, Game.on_player_at i Player.reset_hand)
    (Game.mk dk [p0; p1; p2] cur dl ldc ldp go w rn jr) =
  (Returns (),
   Game.mk dk [after_reset false p0; after_reset false p1; after_reset false p2]
           cur dl ldc ldp go w rn jr).
Proof. by destruct p0, p1, p2. Qed.

Lemma on_deck_reset_run permute g :
  Game.on_deck (Deck.reset permute) g =
  (Returns (), Game.set_deck (Deck.mk (Deck.cards (Game.deck g))
                                      (permute (Deck.cards (Game.deck g)))) g).
Proof. done. Qed.

Lemma on_deck_draw_run g card rest :
  Deck.remaining_cards (Game.deck g) = card :: rest →
  Game.on_deck Deck.draw g =
  (Returns card, Game.set_deck (Deck.set_remaining_cards rest (Game.deck g)) g).
Proof.
  intros Hrem. unfold Game.on_deck, Deck.draw. rewrite st_bind_run. cbn [get].
  rewrite Hrem. rewrite st_bind_run. unfold slice_from, slice_bound. done.
Qed.

Lemma list_index_nat (n d : nat) : (d < n)%nat → list_index n (Z.of_nat d) = Some d.
Proof.
  intros Hd. unfold list_index. rewrite bool_decide_eq_true_2 by lia. by rewrite Nat2Z.id.
Qed.

Ltac gstep := rewrite gst_bind_run; cbn beta iota.
Ltac game_simpl :=
  unfold Game.set_round_number, Game.set_deck, Game.set_players,
    Game.set_current_player_idx, Game.set_dealer_idx, Game.set_last_discarded_card,
    Game.set_game_over, Game.set_winner, Game.set_just_responded;
  cbn [Game.deck Game.players Game.current_player_idx Game.dealer_idx
       Game.last_discarded_card Game.last_discard_player_idx Game.game_over Game.winner
       Game.round_number Game.just_responded].

Lemma start_new_round_run permute dk p0 p1 p2 cur (d : nat) ldc ldp go w rn jr :
  (d < 3)%nat →
  length (permute (Deck.cards dk)) = 80%nat →
  let R := permute (Deck.cards dk) in
  ∃ first_card,
    R !! 60%nat = Some first_card ∧
    Game.start_new_round permute
      (Game.mk dk [p0; p1; p2] cur (Z.of_nat d) ldc ldp go w rn jr) =
    (Returns (),
     Game.mk (Deck.mk (Deck.cards dk) (drop 61 R))
       (alter (λ p, Player.set_hand (Hand.set_drawn_card (Some first_card) (hand p)) p) d
          [dealt_to (take 20 R) (after_reset (bool_decide (d = 0%nat)) p0);
           dealt_to (take 20 (drop 20 R)) (after_reset (bool_decide (d = 1%nat)) p1);
           dealt_to (take 20 (drop 40 R)) (after_reset (bool_decide (d = 2%nat)) p2)])
       (Z.of_nat d) (Z.of_nat d) None ldp false None (rn + 1) jr).
Proof.
  intros Hd Hlen R. assert (length R = 80%nat) as HlenR by exact Hlen.
  destruct (lookup_lt_is_Some_2 R 60) as [first_card Hfirst]; [lia|].
  exists first_card. split; [done|].
  assert (drop 60 R = first_card :: drop 61 R) as Hdrop.
  { by rewrite (drop_S _ _ _ Hfirst). }
  unfold Game.start_new_round.
  gstep. unfold gmodify at 1. cbn beta iota.
  gstep. rewrite on_deck_reset_run. cbn beta iota.
  game_simpl. fold R.
  gstep. rewrite reset_hands_run. cbn beta iota.
  gstep. unfold gget at 1. cbn beta iota.
  gstep. unfold Game.on_player at 1. cbn [Game.players length Game.dealer_idx].
  rewrite (list_index_nat 3 d Hd).
  destruct d as [|[|[|d]]]; [| | |lia].
  all: unfold Game.on_player_at at 1; game_simpl;
       cbn [lookup list_lookup Player.set_dealer modify outcome_of insert list_insert].
  all: gstep; unfold gmodify at 1; cbn beta iota; game_simpl.
  all: gstep; rewrite deal_initial_cards_run by (cbn [Deck.remaining_cards]; lia); cbn beta iota zeta.
  all: gstep; unfold gget at 1; cbn beta iota.
  all: cbn [Game.players length Game.dealer_idx].
  all: rewrite (list_index_nat 3) by lia.
  all: gstep; rewrite (on_deck_draw_run _ first_card (drop 61 R)) by (cbn [Game.deck Deck.remaining_cards Deck.set_remaining_cards]; exact Hdrop);
       cbn beta iota.
  all: by destruct p0, p1, p2.
Qed.
End start_round_facts.

(** X24. With three players, a dealer among them and a deck of eighty cards,
    [start_new_round] succeeds whatever the shuffle: every player holds twenty
    sorted concealed tiles and no committed group, the dealer alone is marked
    and alone holds a drawn tile, nineteen cards remain in the deck, the tiles
    of the players and the remaining cards together are the cards of the deck,
    the scores and identities of the players are kept, the dealer plays first
    and the round number grows by one. *)
Theorem start_new_round_deals (permute : list Card → list Card) (g : Game.t)
    (p0 p1 p2 : Player) (d : nat) :
  (∀ l, permute l ≡ₚ l) →
  Game.players g = [p0; p1; p2] →
  Game.dealer_idx g = Z.of_nat d → (d < 3)%nat →
  length (Deck.cards (Game.deck g)) = 80%nat →
  ∃ g',
    Game.start_new_round permute g = (Returns (), g') ∧
    (∀ i p', Game.players g' !! i = Some p' →
       length (cards (hand p')) = 20%nat ∧
       StronglySorted (λ a b, card_lt b a = false) (cards (hand p')) ∧
       exposed_groups (hand p') = [] ∧
       is_dealer p' = bool_decide (i = d) ∧
       (is_Some (drawn_card (hand p')) ↔ i = d)) ∧
    player_id <$> Game.players g' = player_id <$> Game.players g ∧
    score <$> Game.players g' = score <$> Game.players g ∧
    Deck.get_remaining_count (Game.deck g') = 19%nat ∧
    concat (hand_tiles ∘ hand <$> Game.players g') ++ Deck.remaining_cards (Game.deck g') ≡ₚ
      Deck.cards (Game.deck g) ∧
    Game.current_player_idx g' = Game.dealer_idx g ∧
    Game.round_number g' = Game.round_number g + 1 ∧
    Game.game_over g' = false ∧
    Game.winner g' = None.
Proof.
  intros Hperm Hplayers Hdealer Hd Hlen.
  destruct g as [dk ps cur dl ldc ldp go w rn jr]. cbn in Hplayers, Hdealer, Hlen. subst ps dl.
  assert (length (permute (Deck.cards dk)) = 80%nat) as HlenR by by rewrite Hperm.
  destruct (start_new_round_run permute dk p0 p1 p2 cur d ldc ldp go w rn jr Hd HlenR)
    as (first_card & Hfirst & Hrun).
  eexists. split; [exact Hrun|]. clear Hrun.
  set (R := permute (Deck.cards dk)) in *.
  assert (drop 60 R = first_card :: drop 61 R) as Hdrop.
  { by rewrite (drop_S _ _ _ Hfirst). }
  cbn [Game.players Game.deck Game.current_player_idx Game.dealer_idx Game.round_number
       Game.game_over Game.winner Deck.remaining_cards Deck.cards].
  split_and!.
  - intros i p' Hp'.
    destruct d as [|[|[|d]]]; [| | |lia];
      destruct i as [|[|[|i]]]; cbn [lookup list_lookup alter list_alter] in Hp'; try done; injection Hp' as <-.
    all: cbn [hand Player.set_hand dealt_to after_reset Hand.set_drawn_card Hand.set_cards
              cards drawn_card exposed_groups is_dealer Hand.init app].
    all: split_and!;
      [rewrite cards_sort_perm, length_take, ?length_drop; lia
      |apply cards_sort_sorted|done|done|].
    all: split; [intros [? ?]; done || lia|intros ?; done || lia || by eexists].
  - by destruct d as [|[|[|d]]].
  - by destruct d as [|[|[|d]]].
  - unfold Deck.get_remaining_count. cbn. rewrite length_drop. lia.
  - rewrite <- (Hperm (Deck.cards dk)). fold R.
    pose proof (take_drop 20 R) as H1.
    pose proof (take_drop 20 (drop 20 R)) as H2.
    pose proof (take_drop 20 (drop 40 R)) as H3.
    rewrite drop_drop in H2. rewrite drop_drop in H3.
    change (20 + 20)%nat with 40%nat in H2. change (40 + 20)%nat with 60%nat in H3.
    rewrite Hdrop in H3.
    destruct d as [|[|[|d]]]; [| | |lia].
    all: cbn [alter list_alter fmap list_fmap concat compose hand Player.set_hand dealt_to
              after_reset Hand.set_drawn_card Hand.set_cards hand_tiles cards drawn_card
              exposed_groups Hand.init app].
    all: rewrite !app_nil_r, !cards_sort_perm.
    all: apply count_card_Permutation; intros x.
    all: apply (f_equal (count_card x)) in H1, H2, H3.
    all: count_norm_in H1; count_norm_in H2; count_norm_in H3; count_norm.
    all: repeat case_decide; lia.
  - done.
  - done.
  - done.
  - done.
Qed.

Lemma start_new_round_deals_witness :
  Game.init = Ok new_game ∧
  ∃ g',
    Game.start_new_round reverse new_game = (Returns (), g') ∧
    Deck.get_remaining_count (Game.deck g') = 19%nat.
Proof.
  split; [reflexivity|].
  destruct (start_new_round_deals reverse new_game
              (Player.init 0 true) (AIPlayer.init 1) (AIPlayer.init 2) 0)
    as (g' & Hrun & _ & _ & _ & Hcount & _).
  - intros l. apply reverse_Permutation.
  - reflexivity.
  - reflexivity.
  - lia.
  - reflexivity.
  - exists g'. split; [exact Hrun|exact Hcount].
Defined.

Section end_round_facts.
Implicit Types (g : Game.t) (p : Player).

Lemma set_players_insert_id g w p :
  Game.players g !! w = Some p →
  Game.set_players (<[w := p]> (Game.players g)) g = g.
Proof. intros Hw. rewrite list_insert_id by done. by destruct g. Qed.

Lemma can_win_rejects (h : Hand) : WinChecker.can_win h = Ok (false, 0, None).
Proof. unfold WinChecker.can_win. by rewrite find_win_combination_None. Qed.
End end_round_facts.

(** X25. [end_round] changes nothing but the dealer. With a winner, the score
    added is the score of the huxi that [can_win] returns for them, which is 0:
    the winner stays dealer or becomes it, and no score moves. Without a winner
    the dealer index moves to the next of the three seats. *)
Theorem end_round_outcome (g : Game.t) :
  (∀ w p, Game.winner g = Some w → Game.players g !! w = Some p →
     Game.end_round g =
       (Returns (),
        Game.set_dealer_idx (if is_dealer p then Game.dealer_idx g else player_id p) g)) ∧
  (Game.winner g = None →
     Game.end_round g =
       (Returns (), Game.set_dealer_idx ((Game.dealer_idx g + 1) `mod` 3) g) ∧
     0 ≤ (Game.dealer_idx g + 1) `mod` 3 < 3) ∧
  (∀ g', Game.end_round g = (Returns (), g') →
     Game.players g' = Game.players g ∧ Game.deck g' = Game.deck g).
Proof.
  assert (∀ w p, Game.winner g = Some w → Game.players g !! w = Some p →
     Game.end_round g =
       (Returns (),
        Game.set_dealer_idx (if is_dealer p then Game.dealer_idx g else player_id p) g))
    as Hwin.
  { intros w p Hw Hp. unfold Game.end_round. rewrite gst_bind_run. cbn [gget].
    rewrite Hw. rewrite gst_bind_run. unfold Game.on_player_at at 1. rewrite Hp.
    unfold Player.can_win. rewrite can_win_rejects. cbn [outcome_of].
    rewrite set_players_insert_id by done.
    rewrite gst_bind_run. unfold Game.on_player_at at 1. rewrite Hp.
    assert (Player.add_score (ScoreCalculator.calculate_score 0) p = (Ok (), p)) as ->.
    { destruct p. unfold Player.add_score, modify. cbn. by rewrite Z.add_0_r. }
    cbn [outcome_of]. rewrite set_players_insert_id by done.
    rewrite gst_bind_run. cbn [gget]. rewrite Hp.
    destruct (is_dealer p); [by destruct g|done]. }
  assert (Game.winner g = None →
     Game.end_round g =
       (Returns (), Game.set_dealer_idx ((Game.dealer_idx g + 1) `mod` 3) g)) as Hdraw.
  { intros Hw. unfold Game.end_round. rewrite gst_bind_run. cbn [gget]. by rewrite Hw. }
  split_and!; [done| |].
  - intros Hw. split; [by apply Hdraw|]. apply Z.mod_pos_bound. lia.
  - intros g'. destruct (Game.winner g) as [w|] eqn:Hw.
    + destruct (Game.players g !! w) as [p|] eqn:Hp.
      * rewrite (Hwin w p eq_refl Hp). by intros [= <-].
      * unfold Game.end_round. rewrite gst_bind_run. cbn [gget]. rewrite Hw.
        rewrite gst_bind_run. unfold Game.on_player_at at 1. by rewrite Hp.
    + rewrite (Hdraw eq_refl). by intros [= <-].
Qed.

(** ** Decisions of the AI player *)

Section ai_facts.
Implicit Types (c card : Card) (all_cards : list Card) (self : Player).

Lemma outcome_bind_Returns {A B} (a : A) (f : A → outcome B) : (Returns a ≫= f) = f a.
Proof. done. Qed.

Lemma random_choice_elem {A} (k : nat) (l : list A) :
  l ≠ [] → ∃ a, random_choice k l = Returns a ∧ a ∈ l.
Proof.
  intros Hl. unfold random_choice, index_nat.
  destruct (lookup_lt_is_Some_2 l (k `mod` length l)%nat) as [a Ha].
  { apply Nat.mod_upper_bound. by destruct l. }
  rewrite Ha. exists a. split; [done|]. by eapply list_elem_of_lookup_2.
Qed.

Lemma foldl_min_spec (l : list Z) x :
  (foldl Z.min x l = x ∨ foldl Z.min x l ∈ l) ∧
  foldl Z.min x l ≤ x ∧ ∀ y, y ∈ l → foldl Z.min x l ≤ y.
Proof.
  revert x. induction l as [|z l IH]; intros x; cbn.
  - split_and!; [by left|lia|]. by intros y ?%elem_of_nil.
  - destruct (IH (Z.min x z)) as (Hin & Hle & Hall). split_and!.
    + destruct Hin as [->|Hin]; [|right; by apply list_elem_of_further].
      destruct (Z.min_spec x z) as [[_ ->]|[_ ->]]; [by left|right; apply list_elem_of_here].
    + lia.
    + intros y [->|Hy]%elem_of_cons; [lia|by apply Hall].
Qed.

Lemma list_min_spec (l : list Z) :
  l ≠ [] → ∃ m, list_min l = Returns m ∧ m ∈ l ∧ ∀ y, y ∈ l → m ≤ y.
Proof.
  destruct l as [|x l]; [done|]. intros _. exists (foldl Z.min x l).
  destruct (foldl_min_spec l x) as (Hin & Hle & Hall). split_and!; [done| |].
  - destruct Hin as [->|Hin]; [apply list_elem_of_here|by apply list_elem_of_further].
  - intros y [->|Hy]%elem_of_cons; [done|by apply Hall].
Qed.

Lemma dict_set_elem_of {K V} `{EqDecision K} (k : K) (v : V) d k' v' :
  (k', v') ∈ dict_set k v d → (k' = k ∧ v' = v) ∨ (k', v') ∈ d.
Proof.
  induction d as [|[k0 v0] d IH]; cbn.
  - intros [= -> ->]%list_elem_of_singleton. by left.
  - destruct (decide (k0 = k)) as [->|Hne].
    + intros [[= -> ->]|Hin]%elem_of_cons; [by left|]. right. by apply list_elem_of_further.
    + intros [[= -> ->]|Hin]%elem_of_cons; [right; apply list_elem_of_here|].
      destruct (IH Hin) as [?|?]; [by left|]. right. by apply list_elem_of_further.
Qed.

Lemma dict_set_keys {K V} `{EqDecision K} (k : K) (v : V) d k' :
  k' ∈ (dict_set k v d).*1 ↔ k' = k ∨ k' ∈ d.*1.
Proof.
  induction d as [|[k0 v0] d IH]; cbn.
  - rewrite list_elem_of_singleton, elem_of_nil. tauto.
  - destruct (decide (k0 = k)) as [->|Hne]; cbn; rewrite !elem_of_cons; [|rewrite IH];
      intuition congruence.
Qed.

Lemma has_other_total other_values k card all_cards :
  (k < length other_values)%nat →
  ∃ b, AIPlayer.has_other other_values k card all_cards = Returns b.
Proof.
  intros Hk. unfold AIPlayer.has_other.
  destruct (filter _ all_cards); [by eexists|].
  destruct (lookup_lt_is_Some_2 other_values k Hk) as [v Hv].
  unfold index_nat. rewrite Hv. by eexists.
Qed.

Lemma can_form_special_sequence_total card all_cards :
  ∃ b, AIPlayer._can_form_special_sequence card all_cards = Returns b.
Proof.
  unfold AIPlayer._can_form_special_sequence, Config.SPECIAL_SEQUENCES.
  assert (∀ seq, seq = [1; 2; 3] ∨ seq = [2; 7; 10] → value card ∈ seq →
            length (filter (λ v, v ≠ value card) seq) = 2%nat) as Hlen.
  { intros seq [-> | ->] Hin; repeat (apply elem_of_cons in Hin as [->|Hin]; [done|]);
      by apply elem_of_nil in Hin. }
  cbn [AIPlayer.special_loop].
  case_bool_decide as H1.
  - destruct (has_other_total (filter (λ v, v ≠ value card) [1; 2; 3]) 0 card all_cards)
      as [b1 ->]; [rewrite Hlen by auto; lia|].
    destruct (has_other_total (filter (λ v, v ≠ value card) [1; 2; 3]) 1 card all_cards)
      as [b2 ->]; [rewrite Hlen by auto; lia|].
    rewrite !outcome_bind_Returns. destruct (b1 || b2); [by eexists|].
    case_bool_decide as H2; [|by eexists].
    destruct (has_other_total (filter (λ v, v ≠ value card) [2; 7; 10]) 0 card all_cards)
      as [b3 ->]; [rewrite Hlen by auto; lia|].
    destruct (has_other_total (filter (λ v, v ≠ value card) [2; 7; 10]) 1 card all_cards)
      as [b4 ->]; [rewrite Hlen by auto; lia|].
    rewrite !outcome_bind_Returns. destruct (b3 || b4); by eexists.
  - case_bool_decide as H2; [|by eexists].
    destruct (has_other_total (filter (λ v, v ≠ value card) [2; 7; 10]) 0 card all_cards)
      as [b3 ->]; [rewrite Hlen by auto; lia|].
    destruct (has_other_total (filter (λ v, v ≠ value card) [2; 7; 10]) 1 card all_cards)
      as [b4 ->]; [rewrite Hlen by auto; lia|].
    rewrite !outcome_bind_Returns. destruct (b3 || b4); by eexists.
Qed.

Lemma evaluate_card_value_total card all_cards :
  ∃ v, AIPlayer._evaluate_card_value card all_cards = Returns v.
Proof.
  unfold AIPlayer._evaluate_card_value.
  destruct (can_form_special_sequence_total card all_cards) as [b ->].
  rewrite outcome_bind_Returns. by eexists.
Qed.

Lemma evaluate_loop_spec all_cards todo d :
  (∀ c v, (c, v) ∈ d → AIPlayer._evaluate_card_value c all_cards = Returns v) →
  ∃ d', AIPlayer.evaluate_loop all_cards todo d = Returns d' ∧
        (∀ c v, (c, v) ∈ d' → AIPlayer._evaluate_card_value c all_cards = Returns v) ∧
        (∀ c, c ∈ d'.*1 ↔ c ∈ d.*1 ∨ c ∈ todo).
Proof.
  revert d. induction todo as [|card todo IH]; intros d Hd.
  - exists d. split_and!; [done..|]. intros c. rewrite elem_of_nil. tauto.
  - cbn [AIPlayer.evaluate_loop].
    destruct (evaluate_card_value_total card all_cards) as [v Hv]. rewrite Hv.
    rewrite outcome_bind_Returns.
    destruct (IH (dict_set card v d)) as (d' & Hrun & Hvals & Hkeys).
    { intros c v' [[-> ->]|Hin]%dict_set_elem_of; [done|by apply Hd]. }
    exists d'. split_and!; [done..|]. intros c.
    rewrite Hkeys, dict_set_keys, elem_of_cons. tauto.
Qed.

Lemma choose_discard_card_spec k self :
  let all_cards := cards (hand self) ++
                   match drawn_card (hand self) with Some d => [d] | None => [] end in
  all_cards ≠ [] →
  ∃ c v, AIPlayer._choose_discard_card k self = Returns c ∧
         c ∈ all_cards ∧
         AIPlayer._evaluate_card_value c all_cards = Returns v ∧
         ∀ c', c' ∈ all_cards →
               ∃ v', AIPlayer._evaluate_card_value c' all_cards = Returns v' ∧ v ≤ v'.
Proof.
  intros all_cards Hne. unfold AIPlayer._choose_discard_card. fold all_cards.
  destruct (evaluate_loop_spec all_cards all_cards [])
    as (d & -> & Hvals & Hkeys).
  { by intros c v ?%elem_of_nil. }
  rewrite outcome_bind_Returns.
  assert (d ≠ []) as Hd.
  { destruct all_cards as [|c0 rest] eqn:Hall; [done|].
    assert (c0 ∈ d.*1) as Hin by (apply Hkeys; right; apply list_elem_of_here).
    intros ->. by apply elem_of_nil in Hin. }
  destruct (list_min_spec (d.*2)) as (m & -> & Hm & Hmin).
  { by destruct d. }
  rewrite outcome_bind_Returns.
  apply list_elem_of_fmap in Hm as ([c0 v0] & Hv0 & Hin0). cbn in Hv0. subst v0.
  destruct (random_choice_elem k (filter (λ cv, cv.2 = m) d).*1) as (c & -> & Hc).
  { assert ((c0, m) ∈ filter (λ cv : Card * Z, cv.2 = m) d) as Hf
      by (by apply list_elem_of_filter).
    intros Hnil. apply fmap_nil_inv in Hnil. rewrite Hnil in Hf. by apply elem_of_nil in Hf. }
  apply list_elem_of_fmap in Hc as ([c1 v1] & -> & [Hv1 Hin1]%list_elem_of_filter).
  cbn in Hv1. subst v1. cbn [fst].
  exists c1, m. split_and!; [done| |by apply Hvals|].
  - assert (c1 ∈ d.*1) as Hk by (apply list_elem_of_fmap; by exists (c1, m)).
    apply Hkeys in Hk as [?%elem_of_nil|?]; done.
  - intros c' Hc'.
    assert (c' ∈ d.*1) as Hk by (apply Hkeys; by right).
    apply list_elem_of_fmap in Hk as ([c2 v2] & -> & Hin2). cbn [fst].
    exists v2. split; [by apply Hvals|]. apply Hmin.
    apply list_elem_of_fmap. by exists (c2, v2).
Qed.
End ai_facts.

(** X26. Whatever the random draws, [decide_on_discard] returns without raising,
    and what it decides can be played: pao when [can_pao] holds, else peng when
    [can_peng] holds, else a chi with one of the answers of [can_chi], else
    pass; the matching [do_] method then succeeds. It passes on a chi only when
    no answer makes a special sequence. *)
Theorem ai_response_is_legal (coin : bool) (k : nat) (discarded : Card) (self : Player) :
  ∃ a,
    AIPlayer.decide_on_discard coin k discarded self = Returns a ∧
    match a with
    | act_pao =>
        Player.can_pao discarded self = true ∧
        ∃ self', Player.do_pao discarded self = (Ok (), self')
    | act_peng =>
        Player.can_pao discarded self = false ∧
        Player.can_peng discarded self = true ∧
        ∃ self', Player.do_peng discarded self = (Ok (), self')
    | act_chi option =>
        Player.can_pao discarded self = false ∧
        Player.can_peng discarded self = false ∧
        option ∈ Player.can_chi discarded self ∧
        ∃ self', Player.do_chi discarded option self = (Ok (), self')
    | act_pass =>
        Player.can_pao discarded self = false ∧
        Player.can_peng discarded self = false ∧
        Forall (λ option, PatternMatcher.is_special_sequence (discarded :: option) = false)
               (Player.can_chi discarded self)
    | _ => False
    end.
Proof.
  unfold AIPlayer.decide_on_discard.
  destruct (Player.can_pao discarded self) eqn:Hpao.
  { exists act_pao. split_and!; [done..|].
    pose proof (do_pao_run self discarded Hpao) as Hrun.
    destruct (upgrade_or_take discarded (hand self)) as [[four cs'] gs']. by eexists. }
  destruct (Player.can_peng discarded self) eqn:Hpeng.
  { exists act_peng. split_and!; [done..|].
    rewrite (do_peng_run self discarded Hpeng). by eexists. }
  assert (∀ option, option ∈ Player.can_chi discarded self →
            ∃ self', Player.do_chi discarded option self = (Ok (), self')) as Hchi.
  { intros option Hin.
    destruct (can_chi_option_run self discarded option Hin)
      as (c1 & c2 & self' & -> & Hrun & _). by exists self'. }
  destruct (Player.can_chi discarded self) as [|o os] eqn:Hoptions.
  { exists act_pass. split_and!; [done..|]. constructor. }
  destruct (list_find _ (o :: os)) as [[i option]|] eqn:Hfind.
  - apply list_find_Some in Hfind as (Hi & _ & _).
    exists (act_chi option).
    assert (option ∈ o :: os) as Hin by by eapply list_elem_of_lookup_2.
    split_and!; [done..|]. by apply Hchi.
  - apply list_find_None in Hfind. destruct coin.
    + destruct (random_choice_elem k (o :: os)) as (option & -> & Hin); [done|].
      exists (act_chi option). split_and!; [done..|]. by apply Hchi.
    + exists act_pass. split_and!; [done..|].
      eapply Forall_impl; [exact Hfind|]. intros option Hn.
      unfold AIPlayer._is_special_seq in Hn. cbn [app] in Hn. by apply not_true_is_false.
Qed.

(** X27. [decide_after_draw] never decides to win; it decides ti when [can_ti]
    holds, else wei when [can_wei] holds, else to discard a tile that
    [discard_card] accepts; with no tile at all it raises [ValueError]. *)
Theorem ai_after_draw_decision (k : nat) (self : Player) :
  AIPlayer.decide_after_draw k self ≠ Returns act_win ∧
  (Player.can_ti self = true → AIPlayer.decide_after_draw k self = Returns act_ti) ∧
  (Player.can_ti self = false → Player.can_wei self = true →
   AIPlayer.decide_after_draw k self = Returns act_wei) ∧
  (Player.can_ti self = false → Player.can_wei self = false →
   (cards (hand self) ≠ [] ∨ drawn_card (hand self) ≠ None) →
   ∃ c self',
     AIPlayer.decide_after_draw k self = Returns (act_discard c) ∧
     Player.discard_card c self = (Ok c, self')) ∧
  (Player.can_ti self = false → Player.can_wei self = false →
   cards (hand self) = [] → drawn_card (hand self) = None →
   AIPlayer.decide_after_draw k self = Raises ValueError).
Proof.
  unfold AIPlayer.decide_after_draw, Player.can_win. rewrite can_win_rejects.
  cbn [outcome_of]. rewrite outcome_bind_Returns. split_and!.
  - destruct (Player.can_ti self); [done|]. destruct (Player.can_wei self); [done|].
    by destruct (AIPlayer._choose_discard_card k self).
  - by intros ->.
  - by intros -> ->.
  - intros -> -> Hne.
    destruct (choose_discard_card_spec k self) as (c & v & Hrun & Hin & _).
    { destruct Hne as [Hne|Hne].
      - destruct (cards (hand self)); [done|]. done.
      - destruct (drawn_card (hand self)); [|done]. by destruct (cards (hand self)). }
    rewrite Hrun, outcome_bind_Returns. exists c.
    rewrite discard_card_run.
    destruct (decide (drawn_card (hand self) = Some c)) as [Hd|Hd]; [by eexists|].
    apply elem_of_app in Hin as [Hin|Hin].
    + rewrite decide_True by done. by eexists.
    + destruct (drawn_card (hand self)) as [d|]; [|by apply elem_of_nil in Hin].
      apply list_elem_of_singleton in Hin as ->. done.
  - intros -> -> Hc Hd. unfold AIPlayer._choose_discard_card. by rewrite Hc, Hd.
Qed.

(** X28. The tile [_choose_discard_card] picks is held (concealed or drawn) and
    no held tile has a lower value for [_evaluate_card_value], which never
    raises. *)
Theorem ai_discards_least_valued (k : nat) (self : Player) (c : Card) :
  let all_cards := cards (hand self) ++
                   match drawn_card (hand self) with Some d => [d] | None => [] end in
  AIPlayer._choose_discard_card k self = Returns c →
  c ∈ all_cards ∧
  ∃ v, AIPlayer._evaluate_card_value c all_cards = Returns v ∧
       ∀ c', c' ∈ all_cards →
             ∃ v', AIPlayer._evaluate_card_value c' all_cards = Returns v' ∧ v ≤ v'.
Proof.
  intros all_cards Hrun.
  destruct (decide (all_cards = [])) as [Hnil|Hne].
  - unfold AIPlayer._choose_discard_card in Hrun. fold all_cards in Hrun.
    by rewrite Hnil in Hrun.
  - destruct (choose_discard_card_spec k self Hne) as (c0 & v & Hrun0 & Hin & Hv & Hmin).
    rewrite Hrun0 in Hrun. injection Hrun as <-. split; [done|]. by exists v.
Qed.

Lemma ai_discards_least_valued_witness :
  AIPlayer._choose_discard_card 0
    (mkPlayer 1 false (mkHand [minor 2; minor 3; major 9] (Some (minor 4)) []) 0 false) =
    Returns (major 9) ∧
  major 9 ∈ [minor 2; minor 3; major 9; minor 4].
Proof.
  split; [reflexivity|].
  apply (ai_discards_least_valued 0
           (mkPlayer 1 false (mkHand [minor 2; minor 3; major 9] (Some (minor 4)) []) 0 false)
           (major 9)).
  reflexivity.
Defined.

(** ** A turn of a player *)

Section turn_facts.
Implicit Types (p : Player) (g : Game.t).

Lemma do_ti_run_ok p :
  Player.can_ti p = true →
  ∃ p', Player.do_ti p = (Ok (), p') ∧ ∃ c, Game.first_of_last_group p' = Returns c.
Proof.
  intros Hcan. destruct (can_ti_drawn p Hcan) as (d & Hd).
  pose proof (do_ti_run p d Hd Hcan) as Hrun.
  destruct (upgrade_or_take d (hand p)) as [[four cs'] gs'] eqn:Hup.
  eexists. split; [exact Hrun|].
  unfold Game.first_of_last_group. cbn [hand Player.set_hand exposed_groups].
  rewrite last_snoc. cbn [Group.cards].
  unfold upgrade_or_take in Hup.
  destruct (list_find _ _) as [[i g]|]; injection Hup as <- _ _.
  - destruct (Group.cards g); by eexists.
  - destruct (take 3 _); by eexists.
Qed.

Lemma do_wei_run_ok p :
  Player.can_wei p = true → ∃ p', Player.do_wei p = (Ok (), p').
Proof.
  intros Hcan. destruct (can_wei_drawn p Hcan) as (d & Hd & _).
  rewrite (do_wei_run p d Hd Hcan). by eexists.
Qed.

Lemma decide_after_draw_ti k p :
  Player.can_ti p = true → AIPlayer.decide_after_draw k p = Returns act_ti.
Proof.
  intros Hcan. unfold AIPlayer.decide_after_draw, Player.can_win.
  rewrite can_win_rejects. cbn [outcome_of]. rewrite outcome_bind_Returns. by rewrite Hcan.
Qed.

Lemma decide_after_draw_wei k p :
  Player.can_ti p = false → Player.can_wei p = true →
  AIPlayer.decide_after_draw k p = Returns act_wei.
Proof.
  intros Hti Hcan. unfold AIPlayer.decide_after_draw, Player.can_win.
  rewrite can_win_rejects. cbn [outcome_of]. rewrite outcome_bind_Returns.
  by rewrite Hti, Hcan.
Qed.

Lemma handle_after_draw_run yes k_ti k_wei p :
  ∃ p', Game._handle_after_draw yes k_ti k_wei p = (Returns after_continue, p') ∧
        hand_tiles (hand p') ≡ₚ hand_tiles (hand p).
Proof.
  unfold Game._handle_after_draw. rewrite gst_bind_run. cbn [gget].
  rewrite gst_bind_run. unfold Player.can_win. rewrite can_win_rejects.
  unfold of_outcome at 1. cbn [outcome_of andb].
  assert (∀ q, hand_tiles (hand q) ≡ₚ hand_tiles (hand p) →
            ∃ p', (player ← gget;
                   if Player.can_wei player then
                     if is_human player then
                       if yes ask_wei then
                         _ ← Game.lift_player Player.do_wei; mret after_continue
                       else mret after_continue
                     else
                       action ← of_outcome (AIPlayer.decide_after_draw k_wei player);
                       match action with
                       | act_wei => _ ← Game.lift_player Player.do_wei; mret after_continue
                       | _ => mret after_continue
                       end
                   else mret after_continue) q = (Returns after_continue, p') ∧
                  hand_tiles (hand p') ≡ₚ hand_tiles (hand p)) as Hwei.
  { intros q Hq. rewrite gst_bind_run. cbn [gget].
    destruct (Player.can_wei q) eqn:Hcan; [|by exists q].
    destruct (do_wei_run_ok q Hcan) as [q' Hrun].
    assert ((_ ← Game.lift_player Player.do_wei; mret after_continue) q =
            (Returns after_continue, q')) as Hdo.
    { rewrite gst_bind_run. unfold Game.lift_player. by rewrite Hrun. }
    destruct (is_human q).
    - destruct (yes ask_wei); [|by exists q].
      exists q'. split; [done|]. by rewrite (do_wei_conserves q q' Hrun).
    - rewrite gst_bind_run. unfold of_outcome at 1.
      destruct (Player.can_ti q) eqn:Hti.
      + rewrite (decide_after_draw_ti k_wei q Hti). by exists q.
      + rewrite (decide_after_draw_wei k_wei q Hti Hcan).
        exists q'. split; [done|]. by rewrite (do_wei_conserves q q' Hrun). }
  rewrite gst_bind_run.
  destruct (Player.can_ti p) eqn:Hti; [|by apply Hwei].
  destruct (do_ti_run_ok p Hti) as (p' & Hrun & c & Hc).
  assert ((_ ← Game.lift_player Player.do_ti;
           player ← gget;
           _ ← of_outcome (Game.first_of_last_group player);
           mret true) p = (Returns true, p')) as Hdo.
  { rewrite gst_bind_run. unfold Game.lift_player. rewrite Hrun. cbn [outcome_of].
    rewrite gst_bind_run. cbn [gget]. rewrite gst_bind_run. unfold of_outcome.
    by rewrite Hc. }
  destruct (is_human p).
  - destruct (yes ask_ti).
    + rewrite Hdo. exists p'. split; [done|]. by apply do_ti_conserves.
    + by apply Hwei.
  - rewrite gst_bind_run. unfold of_outcome at 1.
    rewrite (decide_after_draw_ti k_ti p Hti). rewrite Hdo.
    exists p'. split; [done|]. by apply do_ti_conserves.
Qed.
End turn_facts.

Section turn_state_facts.
Implicit Types (p q : Player) (g : Game.t) (ps : list Player).

Lemma tiles_insert ps i p q extra :
  ps !! i = Some p →
  hand_tiles (hand q) ≡ₚ extra ++ hand_tiles (hand p) →
  concat (hand_tiles ∘ hand <$> <[i := q]> ps) ≡ₚ
    extra ++ concat (hand_tiles ∘ hand <$> ps).
Proof.
  intros Hi Hq. rewrite <- (take_drop_middle ps i p Hi) at 2.
  rewrite insert_take_drop by (by eapply lookup_lt_Some).
  rewrite !fmap_app, !fmap_cons, !concat_app. cbn [concat compose].
  rewrite Hq.
  set (A := concat (hand_tiles ∘ hand <$> take i ps)).
  set (B := concat (hand_tiles ∘ hand <$> drop (S i) ps)).
  rewrite !(assoc (++)). f_equiv. f_equiv. apply (comm (++)).
Qed.

Lemma on_player_at_read {A} g i p (f : Player → A) :
  Game.players g !! i = Some p →
  Game.on_player_at i (λ p, (Ok (f p), p)) g = (Returns (f p), g).
Proof.
  intros Hi. unfold Game.on_player_at. rewrite Hi. cbn [outcome_of].
  by rewrite set_players_insert_id.
Qed.

Lemma draw_card_run p c :
  drawn_card (hand p) = None →
  Player.draw_card c p = (Ok (), Player.set_hand (Hand.set_drawn_card (Some c) (hand p)) p).
Proof.
  intros Hd. unfold Player.draw_card, Player.on_hand, Hand.draw_card.
  rewrite st_bind_run. cbn [get]. rewrite Hd. done.
Qed.
End turn_state_facts.

(** X29. Whatever the person answers and whatever the random draws,
    [handle_player_turn] returns without raising and never records a winner or
    ends the game. It answers [False], leaving the game as it is, exactly when
    the player has not just responded, holds no drawn tile and the deck is
    empty. The tiles of the players together with the remaining cards of the
    deck are the same before and after. *)
Theorem player_turn_never_wins (yes : Prompt → bool) (k_ti k_wei i : nat)
    (g : Game.t) (p : Player) :
  Game.players g !! i = Some p →
  ∃ b g',
    Game.handle_player_turn yes k_ti k_wei i g = (Returns b, g') ∧
    Game.winner g' = Game.winner g ∧
    Game.game_over g' = Game.game_over g ∧
    (b = false ↔
     Game.just_responded g = false ∧ drawn_card (hand p) = None ∧
     Deck.is_empty (Game.deck g) = true) ∧
    (b = false → g' = g) ∧
    concat (hand_tiles ∘ hand <$> Game.players g') ++ Deck.remaining_cards (Game.deck g') ≡ₚ
      concat (hand_tiles ∘ hand <$> Game.players g) ++ Deck.remaining_cards (Game.deck g).
Proof.
  intros Hi. unfold Game.handle_player_turn. rewrite gst_bind_run. cbn [gget].
  destruct (Game.just_responded g) eqn:Hjr.
  { eexists true, _. split; [reflexivity|].
    split_and!; [by destruct g|by destruct g| |done|by destruct g].
    split; [done|]. intros (Hf & _). congruence. }
  rewrite gst_bind_run, (on_player_at_read g i p _ Hi).
  assert (∀ g1 p1,
            Game.players g1 !! i = Some p1 →
            Game.winner g1 = Game.winner g → Game.game_over g1 = Game.game_over g →
            concat (hand_tiles ∘ hand <$> Game.players g1) ++
              Deck.remaining_cards (Game.deck g1) ≡ₚ
            concat (hand_tiles ∘ hand <$> Game.players g) ++
              Deck.remaining_cards (Game.deck g) →
            ∃ g',
              (result ← Game.on_player_at_g i (Game._handle_after_draw yes k_ti k_wei);
               match result with
               | after_win =>
                   _ ← gmodify (Game.set_winner (Some i));
                   _ ← gmodify (Game.set_game_over true);
                   mret false
               | after_continue => mret true
               end) g1 = (Returns true, g') ∧
              Game.winner g' = Game.winner g ∧ Game.game_over g' = Game.game_over g ∧
              concat (hand_tiles ∘ hand <$> Game.players g') ++
                Deck.remaining_cards (Game.deck g') ≡ₚ
              concat (hand_tiles ∘ hand <$> Game.players g) ++
                Deck.remaining_cards (Game.deck g)) as Hafter.
  { intros g1 p1 Hp1 Hw Hgo Hperm.
    destruct (handle_after_draw_run yes k_ti k_wei p1) as (p2 & Hrun & Htiles).
    rewrite gst_bind_run. unfold Game.on_player_at_g. rewrite Hp1, Hrun.
    eexists. split; [reflexivity|]. split_and!; [by destruct g1..|].
    cbn [Game.set_players Game.players Game.deck].
    rewrite (tiles_insert _ i p1 p2 [] Hp1 Htiles). exact Hperm. }
  unfold Hand.has_drawn_card.
  destruct (drawn_card (hand p)) as [d|] eqn:Hd.
  - rewrite bool_decide_eq_true_2 by done. cbn [negb andb].
    rewrite gst_bind_run. cbn [mret gst_ret].
    destruct (Hafter g p Hi eq_refl eq_refl) as (g' & -> & Hw & Hgo & Hperm); [done|].
    exists true, g'. split_and!; [done..| |done|done].
    split; [done|]. by intros (_ & ? & _).
  - rewrite bool_decide_eq_false_2 by (by intros ?). cbn [negb andb].
    destruct (Deck.is_empty (Game.deck g)) eqn:Hempty.
    { exists false, g. split_and!; done. }
    unfold Deck.is_empty in Hempty. apply bool_decide_eq_false in Hempty.
    destruct (Deck.remaining_cards (Game.deck g)) as [|c rest] eqn:Hrem; [done|].
    rewrite gst_bind_run, gst_bind_run.
    rewrite (on_deck_draw_run g c rest Hrem).
    unfold Game.on_player_at. cbn [Game.set_deck Game.players].
    rewrite Hi, (draw_card_run p c Hd). cbn [outcome_of].
    set (p1 := Player.set_hand (Hand.set_drawn_card (Some c) (hand p)) p).
    set (g1 := Game.set_players (<[i := p1]> (Game.players g))
                 (Game.set_deck (Deck.set_remaining_cards rest (Game.deck g)) g)).
    assert (Game.players g1 !! i = Some p1) as Hp1.
    { unfold g1. cbn [Game.set_players Game.players].
      apply list_lookup_insert_eq. by eapply lookup_lt_Some. }
    destruct (Hafter g1 p1 Hp1) as (g' & -> & Hw & Hgo & Hperm).
    + by destruct g.
    + by destruct g.
    + unfold g1. cbn [Game.set_players Game.set_deck Game.players Game.deck
           Deck.set_remaining_cards Deck.remaining_cards].
      rewrite (tiles_insert _ i p p1 [c] Hi).
      * rewrite <- !(assoc (++)). cbn [app].
        by rewrite <- Permutation_middle.
      * unfold hand_tiles, p1.
        cbn [hand Player.set_hand Hand.set_drawn_card cards drawn_card exposed_groups].
        rewrite Hd. cbn [app]. by rewrite <- Permutation_middle.
    + exists true, g'. split_and!; [done..| |done|done].
      split; [done|]. by intros (_ & _ & He).
Qed.

Lemma player_turn_never_wins_witness :
  ∃ b g',
    Game.handle_player_turn (λ _, true) 0 0 0 new_game = (Returns b, g') ∧
    Game.winner g' = None ∧
    Game.game_over g' = false.
Proof.
  destruct (player_turn_never_wins (λ _, true) 0 0 0 new_game (Player.init 0 true))
    as (b & g' & Hrun & Hwinner & Hover & _).
  - reflexivity.
  - exists b, g'. split_and!; [exact Hrun|exact Hwinner|exact Hover].
Defined.

(** ** Responses to a discard *)

Section response_facts.
Implicit Types (r : nat * Action) (l acc : list (nat * Action)).

Lemma insert_response_head r b acc :
  head (Game.insert_response r (b :: acc)) = Some (better b r).
Proof. unfold better. cbn. by destruct (_ <? _). Qed.



End response_facts.


